(** * LanguageTranslatorV2: request construction over a JavaScript object store

    A shallow embedding of [src/language-translator/v2.ts].  Every endpoint
    method of the class copies its arguments with the [extend] package,
    optionally checks that required fields are there, assembles a
    [parameters] object out of object literals and hands it to
    [createRequest].

    Objects are mutable and shared in JavaScript, so the embedding threads an
    explicit object store: a finite map from locations to objects, an object
    being its kind and its own enumerable properties in insertion order.
    Prototype chains are not modelled: no object inherits an enumerable
    property, which is the case for literals, arrays, functions and class
    instances. *)

From stdpp Require Import gmap strings list fin_maps pretty.

Local Open Scope string_scope.

(** ** Values and objects *)

Abbreviation loc := positive.

(** Number payloads are never inspected by the class except for truthiness,
    so integers stand for them. *)
Inductive value : Type :=
| VUndefined
| VNull
| VBool (b : bool)
| VNum (n : Z)
| VStr (s : string)
| VError (missing : list string)
| VRef (l : loc).

#[global] Instance value_eq_dec : EqDecision value.
Proof. solve_decision. Defined.

(** What [extend] distinguishes: plain objects (literals), arrays, and the
    rest (functions; class instances such as streams and Buffers). *)
Inductive kind : Type := KPlain | KArray | KFunction | KOther.

#[global] Instance kind_eq_dec : EqDecision kind.
Proof. solve_decision. Defined.

Record object : Type := Obj { okind : kind; oprops : list (string * value) }.

Abbreviation heap := (gmap loc object).

(** ** Reading the store *)

Fixpoint assoc (name : string) (ps : list (string * value)) : option value :=
  match ps with
  | [] => None
  | (k, v) :: ps' => if decide (k = name) then Some v else assoc name ps'
  end.

(** Setting a property keeps its position when the key exists and appends
    it otherwise. *)
Fixpoint set_prop (name : string) (v : value) (ps : list (string * value))
  : list (string * value) :=
  match ps with
  | [] => [(name, v)]
  | (k, w) :: ps' =>
      if decide (k = name) then (k, v) :: ps' else (k, w) :: set_prop name v ps'
  end.

(** A primitive string enumerates its indices, each holding one character. *)
Definition string_props (s : string) : list (string * value) :=
  imap (λ i c, (pretty i, VStr (String c EmptyString))) (String.list_ascii_of_string s).

Definition own_props (h : heap) (v : value) : list (string * value) :=
  match v with
  | VRef l => match h !! l with Some o => oprops o | None => [] end
  | VStr s => string_props s
  | _ => []
  end.

(** [for (name in v)] *)
Definition keys (h : heap) (v : value) : list string := (own_props h v).*1.

(** [v[name]] *)
Definition get (h : heap) (v : value) (name : string) : value :=
  default VUndefined (assoc name (own_props h v)).

Definition kind_of (h : heap) (v : value) : option kind :=
  match v with
  | VRef l => okind <$> h !! l
  | _ => None
  end.

Definition isPlainObject (h : heap) (v : value) : bool :=
  bool_decide (kind_of h v = Some KPlain).

Definition isArray (h : heap) (v : value) : bool :=
  bool_decide (kind_of h v = Some KArray).

(** [typeof v === 'function'] *)
Definition isFunction (h : heap) (v : value) : bool :=
  bool_decide (kind_of h v = Some KFunction).

Definition truthy (v : value) : bool :=
  match v with
  | VUndefined | VNull => false
  | VBool b => b
  | VNum n => negb (n =? 0)%Z
  | VStr s => negb (bool_decide (s = ""))
  | VError _ | VRef _ => true
  end.

(** [v == null] *)
Definition nullish (v : value) : bool :=
  match v with
  | VUndefined | VNull => true
  | _ => false
  end.

(** ** Writing the store *)

Definition setProperty (h : heap) (l : loc) (name : string) (v : value) : heap :=
  alter (λ o, Obj (okind o) (set_prop name v (oprops o))) l h.

Definition fresh_loc (h : heap) : loc := fresh (dom h).

Definition alloc_in (h : heap) (o : object) : loc * heap :=
  (fresh_loc h, <[fresh_loc h := o]> h).

(** ** The [extend] package

    [extend([deep,] target, source...)] merges the sources into [target] and
    returns it.  With [deep], plain objects and arrays among the copied
    values are cloned recursively, into the value the target already has
    under that key when it is of the same sort, into a new object or array
    otherwise; every other value is stored as it is, and [undefined] is
    skipped.  [fuel] bounds the nesting of the recursive calls; running out
    of it stands for the call stack overflowing on a cyclic source. *)

Definition clone_of (h : heap) (src copy : value) : loc * heap :=
  if isArray h copy then
    match src with
    | VRef l => if isArray h src then (l, h) else alloc_in h (Obj KArray [])
    | _ => alloc_in h (Obj KArray [])
    end
  else
    match src with
    | VRef l => if isPlainObject h src then (l, h) else alloc_in h (Obj KPlain [])
    | _ => alloc_in h (Obj KPlain [])
    end.

Definition merge_key (rec : loc → value → heap → option heap) (deep : bool)
    (target : loc) (options : value) (name : string) (h : heap) : option heap :=
  let src := get h (VRef target) name in
  let copy := get h options name in
  if decide (copy = VRef target) then Some h
  else if deep && truthy copy && (isPlainObject h copy || isArray h copy) then
    let '(clone, h1) := clone_of h src copy in
    match rec clone copy h1 with
    | Some h2 => Some (setProperty h2 target name (VRef clone))
    | None => None
    end
  else if decide (copy = VUndefined) then Some h
  else Some (setProperty h target name copy).

Fixpoint merge_keys (rec : loc → value → heap → option heap) (deep : bool)
    (target : loc) (options : value) (names : list string) (h : heap)
  : option heap :=
  match names with
  | [] => Some h
  | name :: names' =>
      match merge_key rec deep target options name h with
      | Some h' => merge_keys rec deep target options names' h'
      | None => None
      end
  end.

Definition merge_with (rec : loc → value → heap → option heap) (deep : bool)
    (target : loc) (options : value) (h : heap) : option heap :=
  if nullish options then Some h
  else merge_keys rec deep target options (keys h options) h.

Fixpoint merge (fuel : nat) (deep : bool) (target : loc) (options : value)
    (h : heap) : option heap :=
  merge_with
    match fuel with
    | O => λ _ _ _, None
    | S fuel' => merge fuel' deep
    end deep target options h.

Fixpoint merge_all (fuel : nat) (deep : bool) (target : loc)
    (sources : list value) (h : heap) : option heap :=
  match sources with
  | [] => Some h
  | s :: sources' =>
      match merge fuel deep target s h with
      | Some h' => merge_all fuel deep target sources' h'
      | None => None
      end
  end.

(** ** The store monad *)

Definition M (A : Type) : Type := heap → option (A * heap).

Definition ret {A} (a : A) : M A := λ h, Some (a, h).

Definition bind {A B} (m : M A) (f : A → M B) : M B :=
  λ h, match m h with
       | Some (a, h') => f a h'
       | None => None
       end.

Notation "x <- m ;; k" := (bind m (λ x, k))
  (at level 100, m at next level, right associativity,
   format "x  <-  m ;;  '/' k").

(** An object literal: the store with the new object, and where it is. *)
Definition lit (h : heap) (ps : list (string * value)) : heap :=
  <[fresh_loc h := Obj KPlain ps]> h.

Definition literal (ps : list (string * value)) : M loc :=
  λ h, Some (fresh_loc h, lit h ps).

(** [v.name] *)
Definition prop (v : value) (name : string) : M value :=
  λ h, Some (get h v name, h).

(** [extend(target, source...)] and [extend(true, target, source...)] *)
Definition extend (fuel : nat) (deep : bool) (target : loc)
    (sources : list value) : M loc :=
  λ h, match merge_all fuel deep target sources h with
       | Some h' => Some (target, h')
       | None => None
       end.

(** ** What the class calls but does not define *)

(** Modelled from the spec: [getMissingParams] of [lib/helper], which is not
    among the sources.  The spec limits parameter validation to presence
    checks: the helper reports the required names the object does not carry
    (reading as [undefined]), as the missing-parameters error, and reports
    nothing ([null]) when every one of them is there. *)
Definition getMissingParams (h : heap) (params : value) (requires : list string)
  : value :=
  match filter (λ r, get h params r = VUndefined) requires with
  | [] => VNull
  | missing => VError missing
  end.

(** [_callback]: what the caller passed, or the closure [() => {}]. *)
Inductive handler : Type :=
| UserCallback (f : value)
| NoopCallback.

(** Every method ends in a call whose result it returns: of [_callback] with
    the validation error, or of [createRequest] of [lib/requestwrapper].
    Neither callee is part of the class; a method yields the call it ends
    in, and [perform] below runs it against a given behaviour of both. *)
Inductive tailcall : Type :=
| CallCallback (cb : handler) (args : list value)
| CreateRequest (parameters : value) (cb : handler).

(** ** The endpoint methods of [LanguageTranslatorV2] *)

Definition translate (fuel : nat) (this : loc) (params callback : value)
  : M tailcall :=
  _params <- (t <- literal [] ;; extend fuel false t [params]) ;;
  let _callback := if truthy callback then UserCallback callback else NoopCallback in
  let requiredParams := ["text"] in
  missingParams <- (λ h, Some (getMissingParams h (VRef _params) requiredParams, h)) ;;
  if truthy missingParams then ret (CallCallback _callback [missingParams])
  else
    text <- prop (VRef _params) "text" ;;
    model_id <- prop (VRef _params) "model_id" ;;
    source <- prop (VRef _params) "source" ;;
    target <- prop (VRef _params) "target" ;;
    body <- literal [("text", text); ("model_id", model_id);
                     ("source", source); ("target", target)] ;;
    options <- literal [("url", VStr "/v2/translate"); ("method", VStr "POST");
                        ("json", VBool true); ("body", VRef body)] ;;
    t <- literal [] ;;
    _options <- prop (VRef this) "_options" ;;
    headers <- literal [("Accept", VStr "application/json");
                        ("Content-Type", VStr "application/json")] ;;
    defaults <- literal [("headers", VRef headers)] ;;
    defaultOptions <- extend fuel true t [_options; VRef defaults] ;;
    parameters <- literal [("options", VRef options);
                           ("defaultOptions", VRef defaultOptions)] ;;
    ret (CreateRequest (VRef parameters) _callback).

Definition identify (fuel : nat) (this : loc) (params callback : value)
  : M tailcall :=
  _params <- (t <- literal [] ;; extend fuel false t [params]) ;;
  let _callback := if truthy callback then UserCallback callback else NoopCallback in
  let requiredParams := ["text"] in
  missingParams <- (λ h, Some (getMissingParams h (VRef _params) requiredParams, h)) ;;
  if truthy missingParams then ret (CallCallback _callback [missingParams])
  else
    body <- prop (VRef _params) "text" ;;
    options <- literal [("url", VStr "/v2/identify"); ("method", VStr "POST");
                        ("json", VBool false); ("body", body)] ;;
    t <- literal [] ;;
    _options <- prop (VRef this) "_options" ;;
    headers <- literal [("Accept", VStr "application/json");
                        ("Content-Type", VStr "text/plain")] ;;
    defaults <- literal [("headers", VRef headers)] ;;
    defaultOptions <- extend fuel true t [_options; VRef defaults] ;;
    parameters <- literal [("options", VRef options);
                           ("defaultOptions", VRef defaultOptions)] ;;
    ret (CreateRequest (VRef parameters) _callback).

Definition identifyPlain (fuel : nat) (this : loc) (params callback : value)
  : M tailcall :=
  _params <- (t <- literal [] ;; extend fuel false t [params]) ;;
  let _callback := if truthy callback then UserCallback callback else NoopCallback in
  let requiredParams := ["text"] in
  missingParams <- (λ h, Some (getMissingParams h (VRef _params) requiredParams, h)) ;;
  if truthy missingParams then ret (CallCallback _callback [missingParams])
  else
    body <- prop (VRef _params) "text" ;;
    options <- literal [("url", VStr "/v2/identify"); ("method", VStr "POST");
                        ("json", VBool false); ("body", body)] ;;
    t <- literal [] ;;
    _options <- prop (VRef this) "_options" ;;
    headers <- literal [("Accept", VStr "text/plain");
                        ("Content-Type", VStr "text/plain")] ;;
    defaults <- literal [("headers", VRef headers)] ;;
    defaultOptions <- extend fuel true t [_options; VRef defaults] ;;
    parameters <- literal [("options", VRef options);
                           ("defaultOptions", VRef defaultOptions)] ;;
    ret (CreateRequest (VRef parameters) _callback).

(** [typeof params === 'function' && !callback] *)
Definition callback_first (params callback : value) : M bool :=
  λ h, Some (isFunction h params && negb (truthy callback), h).

Definition listIdentifiableLanguages (fuel : nat) (this : loc)
    (params callback : value) : M tailcall :=
  shifted <- callback_first params callback ;;
  _params <- (if shifted : bool then literal []
              else t <- literal [] ;; extend fuel false t [params]) ;;
  shifted' <- callback_first params callback ;;
  let _callback :=
    if shifted' : bool then UserCallback params
    else if truthy callback then UserCallback callback else NoopCallback in
  options <- literal [("url", VStr "/v2/identifiable_languages");
                      ("method", VStr "GET")] ;;
  t <- literal [] ;;
  _options <- prop (VRef this) "_options" ;;
  headers <- literal [("Accept", VStr "application/json")] ;;
  defaults <- literal [("headers", VRef headers)] ;;
  defaultOptions <- extend fuel true t [_options; VRef defaults] ;;
  parameters <- literal [("options", VRef options);
                         ("defaultOptions", VRef defaultOptions)] ;;
  ret (CreateRequest (VRef parameters) _callback).

Definition createModel (fuel : nat) (this : loc) (params callback : value)
  : M tailcall :=
  _params <- (t <- literal [] ;; extend fuel false t [params]) ;;
  let _callback := if truthy callback then UserCallback callback else NoopCallback in
  let requiredParams := ["base_model_id"] in
  missingParams <- (λ h, Some (getMissingParams h (VRef _params) requiredParams, h)) ;;
  if truthy missingParams then ret (CallCallback _callback [missingParams])
  else
    forced_glossary <- prop (VRef _params) "forced_glossary" ;;
    part1 <- literal [("data", forced_glossary);
                      ("contentType", VStr "application/octet-stream")] ;;
    parallel_corpus <- prop (VRef _params) "parallel_corpus" ;;
    part2 <- literal [("data", parallel_corpus);
                      ("contentType", VStr "application/octet-stream")] ;;
    monolingual_corpus <- prop (VRef _params) "monolingual_corpus" ;;
    part3 <- literal [("data", monolingual_corpus);
                      ("contentType", VStr "text/plain")] ;;
    formData <- literal [("forced_glossary", VRef part1);
                         ("parallel_corpus", VRef part2);
                         ("monolingual_corpus", VRef part3)] ;;
    base_model_id <- prop (VRef _params) "base_model_id" ;;
    name <- prop (VRef _params) "name" ;;
    query <- literal [("base_model_id", base_model_id); ("name", name)] ;;
    options <- literal [("url", VStr "/v2/models"); ("method", VStr "POST");
                        ("qs", VRef query); ("formData", VRef formData)] ;;
    t <- literal [] ;;
    _options <- prop (VRef this) "_options" ;;
    headers <- literal [("Accept", VStr "application/json");
                        ("Content-Type", VStr "multipart/form-data")] ;;
    defaults <- literal [("headers", VRef headers)] ;;
    defaultOptions <- extend fuel true t [_options; VRef defaults] ;;
    parameters <- literal [("options", VRef options);
                           ("defaultOptions", VRef defaultOptions)] ;;
    ret (CreateRequest (VRef parameters) _callback).

Definition deleteModel (fuel : nat) (this : loc) (params callback : value)
  : M tailcall :=
  _params <- (t <- literal [] ;; extend fuel false t [params]) ;;
  let _callback := if truthy callback then UserCallback callback else NoopCallback in
  let requiredParams := ["model_id"] in
  missingParams <- (λ h, Some (getMissingParams h (VRef _params) requiredParams, h)) ;;
  if truthy missingParams then ret (CallCallback _callback [missingParams])
  else
    model_id <- prop (VRef _params) "model_id" ;;
    path <- literal [("model_id", model_id)] ;;
    options <- literal [("url", VStr "/v2/models/{model_id}");
                        ("method", VStr "DELETE"); ("path", VRef path)] ;;
    t <- literal [] ;;
    _options <- prop (VRef this) "_options" ;;
    headers <- literal [("Accept", VStr "application/json")] ;;
    defaults <- literal [("headers", VRef headers)] ;;
    defaultOptions <- extend fuel true t [_options; VRef defaults] ;;
    parameters <- literal [("options", VRef options);
                           ("defaultOptions", VRef defaultOptions)] ;;
    ret (CreateRequest (VRef parameters) _callback).

Definition getModel (fuel : nat) (this : loc) (params callback : value)
  : M tailcall :=
  _params <- (t <- literal [] ;; extend fuel false t [params]) ;;
  let _callback := if truthy callback then UserCallback callback else NoopCallback in
  let requiredParams := ["model_id"] in
  missingParams <- (λ h, Some (getMissingParams h (VRef _params) requiredParams, h)) ;;
  if truthy missingParams then ret (CallCallback _callback [missingParams])
  else
    model_id <- prop (VRef _params) "model_id" ;;
    path <- literal [("model_id", model_id)] ;;
    options <- literal [("url", VStr "/v2/models/{model_id}");
                        ("method", VStr "GET"); ("path", VRef path)] ;;
    t <- literal [] ;;
    _options <- prop (VRef this) "_options" ;;
    headers <- literal [("Accept", VStr "application/json")] ;;
    defaults <- literal [("headers", VRef headers)] ;;
    defaultOptions <- extend fuel true t [_options; VRef defaults] ;;
    parameters <- literal [("options", VRef options);
                           ("defaultOptions", VRef defaultOptions)] ;;
    ret (CreateRequest (VRef parameters) _callback).

Definition listModels (fuel : nat) (this : loc) (params callback : value)
  : M tailcall :=
  shifted <- callback_first params callback ;;
  _params <- (if shifted : bool then literal []
              else t <- literal [] ;; extend fuel false t [params]) ;;
  shifted' <- callback_first params callback ;;
  let _callback :=
    if shifted' : bool then UserCallback params
    else if truthy callback then UserCallback callback else NoopCallback in
  source <- prop (VRef _params) "source" ;;
  target <- prop (VRef _params) "target" ;;
  default_models <- prop (VRef _params) "default_models" ;;
  query <- literal [("source", source); ("target", target);
                    ("default", default_models)] ;;
  options <- literal [("url", VStr "/v2/models"); ("method", VStr "GET");
                      ("qs", VRef query)] ;;
  t <- literal [] ;;
  _options <- prop (VRef this) "_options" ;;
  headers <- literal [("Accept", VStr "application/json")] ;;
  defaults <- literal [("headers", VRef headers)] ;;
  defaultOptions <- extend fuel true t [_options; VRef defaults] ;;
  parameters <- literal [("options", VRef options);
                         ("defaultOptions", VRef defaultOptions)] ;;
  ret (CreateRequest (VRef parameters) _callback).

(** ** Running the call a method ends in *)

Section Callees.
(** The behaviour of [createRequest] and of calling a value the caller
    passed as callback: both may read and write the store. *)
Variable createRequest : value → handler → heap → value * heap.
Variable call : value → list value → heap → value * heap.

Definition perform (tc : tailcall) (h : heap) : value * heap :=
  match tc with
  | CallCallback NoopCallback _ => (VUndefined, h)
  | CallCallback (UserCallback f) args => call f args h
  | CreateRequest parameters cb => createRequest parameters cb h
  end.

(** What a call of a method returns, and the store it leaves. *)
Definition returns (m : M tailcall) (h : heap) : option (value * heap) :=
  match m h with
  | Some (tc, h') => Some (perform tc h')
  | None => None
  end.
End Callees.

(** ** Well-formed stores *)

(** A value is valid when it does not dangle. *)
Definition valid (h : heap) (v : value) : Prop :=
  match v with
  | VRef l => l ∈ dom h
  | _ => True
  end.

#[global] Instance valid_dec h v : Decision (valid h v).
Proof. destruct v; simpl; apply _. Defined.

(** Every reference held by an object of the store is valid. *)
Definition closed (h : heap) : Prop :=
  map_Forall (λ _ o, Forall (λ kv, valid h kv.2) (oprops o)) h.

(** What a deep [extend] recurses into. *)
Definition recursable (h : heap) (v : value) : bool :=
  isPlainObject h v || isArray h v.

(** The plain objects and arrays below [v] nest at most [n] deep: what a
    deep [extend] from [v] needs of the call stack. *)
Fixpoint nesting_within (n : nat) (h : heap) (v : value) : bool :=
  forallb (λ kv : string * value,
             negb (recursable h kv.2) ||
             match n with
             | O => false
             | S n' => nesting_within n' h kv.2
             end) (own_props h v).

(** [params.name] is there. *)
Definition present (h : heap) (params : value) (name : string) : Prop :=
  get h params name ≠ VUndefined.

#[global] Instance present_dec h params name : Decision (present h params name).
Proof. unfold present. apply _. Defined.

(** The store [h'] keeps every object of [h] as it was. *)
Definition preserves (h h' : heap) : Prop :=
  ∀ l, l ∈ dom h → h' !! l = h !! l.

(** ** The class as a table of endpoint methods *)

Inductive endpoint : Type :=
| Translate | Identify | IdentifyPlain | ListIdentifiableLanguages
| CreateModel | DeleteModel | GetModel | ListModels.

#[global] Instance endpoint_eq_dec : EqDecision endpoint.
Proof. solve_decision. Defined.

Definition method (e : endpoint) : nat → loc → value → value → M tailcall :=
  match e with
  | Translate => translate
  | Identify => identify
  | IdentifyPlain => identifyPlain
  | ListIdentifiableLanguages => listIdentifiableLanguages
  | CreateModel => createModel
  | DeleteModel => deleteModel
  | GetModel => getModel
  | ListModels => listModels
  end.

(** The [requiredParams] each method declares; none for the two that make
    no check. *)
Definition requiredParams (e : endpoint) : list string :=
  match e with
  | Translate | Identify | IdentifyPlain => ["text"]
  | CreateModel => ["base_model_id"]
  | DeleteModel | GetModel => ["model_id"]
  | ListIdentifiableLanguages | ListModels => []
  end.

(** ** Callbacks *)

(** [(callback) ? callback : () => {}] *)
Definition chosen (callback : value) : handler :=
  if truthy callback then UserCallback callback else NoopCallback.

(** The two methods without required parameters take a function passed for
    [params] as the callback when none is given. *)
Definition shifted (h : heap) (params callback : value) : bool :=
  isFunction h params && negb (truthy callback).

Definition chosen_first (h : heap) (params callback : value) : handler :=
  if shifted h params callback then UserCallback params else chosen callback.

(** The [_callback] of each method. *)
Definition handler_of (e : endpoint) (h : heap) (params callback : value)
  : handler :=
  match e with
  | ListIdentifiableLanguages | ListModels => chosen_first h params callback
  | _ => chosen callback
  end.

Definition handler_in (tc : tailcall) : handler :=
  match tc with
  | CallCallback cb _ => cb
  | CreateRequest _ cb => cb
  end.

(** ** Copies without recursion

    When [extend] does not recurse (it is shallow, or no copied value is a
    plain object or an array) the merge is a pure update of the target's
    property list: [assign src names ps] sets in [ps], for each of [names],
    what [src] holds under it, unless that is [undefined]. *)

Fixpoint assign (src : list (string * value)) (names : list string)
    (ps : list (string * value)) : list (string * value) :=
  match names with
  | [] => ps
  | name :: names' =>
      let copy := default VUndefined (assoc name src) in
      assign src names'
        (if decide (copy = VUndefined) then ps else set_prop name copy ps)
  end.

(** No value read from [options] is the target or recursed into. *)
Definition flat (deep : bool) (target : loc) (options : value) (h : heap) : Prop :=
  ∀ name, get h options name ≠ VRef target ∧
          deep && truthy (get h options name) &&
          (isPlainObject h (get h options name) ||
           isArray h (get h options name)) = false.

(** The store after [extend({}, params)]; the copy is at [fresh_loc h]. *)
Definition shallow_copy (h : heap) (params : value) : heap :=
  <[fresh_loc h :=
      Obj KPlain (assign (own_props h params) (keys h params) [])]> h.

(** The store after [_params] is set up by one of the two methods without
    required parameters, and what [_params.name] reads there. *)
Definition params_store (h : heap) (params callback : value) : heap :=
  if shifted h params callback then lit h [] else shallow_copy h params.

Definition field (h : heap) (params callback : value) (name : string) : value :=
  if shifted h params callback then VUndefined else get h params name.

(** [h'] is a closed store that extends [h] by new objects only. *)
Definition extends (h h' : heap) : Prop :=
  closed h' ∧ dom h ⊆ dom h' ∧ preserves h h'.

Definition nonref (v : value) : Prop := ∀ l, v ≠ VRef l.

(** ** The frame of a deep merge

    [F] is the part of the store a deep merge only reads: it holds the
    source, refers to nothing outside itself, and whatever the rest of the
    store (the target and what hangs below it) shares with it is no plain
    object and no array, so that the merge never writes through it. *)

Record framed (h : heap) (F : gset loc) : Prop := Framed {
  framed_dom : F ⊆ dom h;
  framed_closed : ∀ l o k l',
    l ∈ F → h !! l = Some o → (k, VRef l') ∈ oprops o → l' ∈ F;
  framed_shared : ∀ l o k l',
    l ∉ F → h !! l = Some o → (k, VRef l') ∈ oprops o → l' ∈ F →
    recursable h (VRef l') = false
}.

Definition within (F : gset loc) (v : value) : Prop :=
  match v with
  | VRef l => l ∈ F
  | _ => True
  end.

(** What a deep merge leaves: [F] as it was, and nothing lost. *)
Definition deep_post (F : gset loc) (h h' : heap) : Prop :=
  framed h' F ∧ dom h ⊆ dom h' ∧ ∀ l, l ∈ F → h' !! l = h !! l.

(** ** Stores that differ out of reach

    [D] is a part of the store no object outside it refers to; two stores
    agree off [D] when they hold the same objects everywhere else. *)

Definition agree_off (D : gset loc) (h g : heap) : Prop :=
  dom h = dom g ∧ ∀ l, l ∉ D → h !! l = g !! l.

Definition isolated (D : gset loc) (h : heap) : Prop :=
  ∀ l o k l', l ∉ D → h !! l = Some o → (k, VRef l') ∈ oprops o → l' ∉ D.

Definition outside (D : gset loc) (v : value) : Prop :=
  match v with
  | VRef l => l ∉ D
  | _ => True
  end.

Definition agree_post (D : gset loc) (h : heap) (a b : option heap) : Prop :=
  match a, b with
  | Some h', Some g' => agree_off D h' g' ∧ isolated D h' ∧ dom h ⊆ dom h'
  | None, None => True
  | _, _ => False
  end.

(** ** The shape the methods share

    Every method is an instance of one of two openings, [checked] (the six
    methods with a required parameter) and [unchecked] (the other two),
    followed by its own literals and by the same last lines,
    [request_tail]: from [defaultOptions: extend(true, {}, this._options,
    {headers: ...})] to the call of [createRequest].  The lemmas [_shape]
    below state it for each method, by computation. *)

Definition checked (fuel : nat) (required : string)
    (rest : loc → handler → M tailcall) (params callback : value)
  : M tailcall :=
  _params <- (t <- literal [] ;; extend fuel false t [params]) ;;
  let _callback := chosen callback in
  missingParams <- (λ h, Some (getMissingParams h (VRef _params) [required], h)) ;;
  if truthy missingParams then ret (CallCallback _callback [missingParams])
  else rest _params _callback.

Definition unchecked (fuel : nat) (rest : loc → handler → M tailcall)
    (params callback : value) : M tailcall :=
  shifted <- callback_first params callback ;;
  _params <- (if shifted : bool then literal []
              else t <- literal [] ;; extend fuel false t [params]) ;;
  shifted' <- callback_first params callback ;;
  let _callback :=
    if shifted' : bool then UserCallback params
    else if truthy callback then UserCallback callback else NoopCallback in
  rest _params _callback.

Definition request_tail (fuel : nat) (this : loc) (hs : list (string * value))
    (options : loc) (_callback : handler) : M tailcall :=
  t <- literal [] ;;
  _options <- prop (VRef this) "_options" ;;
  headers <- literal hs ;;
  defaults <- literal [("headers", VRef headers)] ;;
  defaultOptions <- extend fuel true t [_options; VRef defaults] ;;
  parameters <- literal [("options", VRef options);
                         ("defaultOptions", VRef defaultOptions)] ;;
  ret (CreateRequest (VRef parameters) _callback).

(** The three new objects and the store when the deep [extend] is entered:
    the target [{}], the header literal, and the literal holding it. *)
Definition defaults_target (h : heap) : loc := fresh_loc h.

Definition defaults_headers (h : heap) : loc :=
  fresh_loc (<[defaults_target h := Obj KPlain []]> h).

Definition defaults_literal (h : heap) (hs : list (string * value)) : loc :=
  fresh_loc (<[defaults_headers h := Obj KPlain hs]>
               (<[defaults_target h := Obj KPlain []]> h)).

Definition defaults_store (h : heap) (hs : list (string * value)) : heap :=
  <[defaults_literal h hs := Obj KPlain [("headers", VRef (defaults_headers h))]]>
    (<[defaults_headers h := Obj KPlain hs]>
       (<[defaults_target h := Obj KPlain []]> h)).

(** The store after the header literal [hd] is merged into the target [t]:
    into [t.headers] when that is a plain object, into a new one otherwise. *)
Definition merge_headers (h : heap) (t hd : loc) (hs : list (string * value))
  : heap :=
  let r := clone_of h (get h (VRef t) "headers") (VRef hd) in
  setProperty
    (alter (λ o, Obj (okind o) (assign hs hs.*1 (oprops o))) r.1 r.2)
    t "headers" (VRef r.1).

(** [{options: options, defaultOptions: d}] *)
Definition parameters_of (options d : loc) : object :=
  Obj KPlain [("options", VRef options); ("defaultOptions", VRef d)].

(** ** What a call is given and what it builds *)

(** The standing assumptions on a call: the store is closed, the arguments
    do not dangle, and the instance options nest within the call stack. *)
Definition callable (fuel : nat) (this : loc) (params : value) (h : heap) : Prop :=
  closed h ∧ valid h params ∧ this ∈ dom h ∧ 0 < fuel ∧
  nesting_within fuel h (get h (VRef this) "_options") = true.

#[global] Instance closed_dec h : Decision (closed h).
Proof. unfold closed. apply _. Defined.

#[global] Instance callable_dec fuel this params h :
  Decision (callable fuel this params h).
Proof. unfold callable. apply _. Defined.

(** The method [m], run in [h], ends in [createRequest(parameters, cb)] with
    [parameters] the new object [p = {options: o, defaultOptions: d}], [c]
    being [d.headers], and leaves the store [h']. *)
Definition builds (m : M tailcall) (h : heap) (cb : handler)
    (p o d c : loc) (h' : heap) : Prop :=
  m h = Some (CreateRequest (VRef p) cb, h') ∧ preserves h h' ∧
  (p ∉ dom h) ∧ (o ∉ dom h) ∧ (d ∉ dom h) ∧ (c ∉ dom h) ∧
  h' !! p = Some (parameters_of o d) ∧
  get h' (VRef d) "headers" = VRef c.

(** The HTTP method, the URL and the [Accept] default of the request each
    method is shown to build ([method_builds]). *)
Definition verb_of (e : endpoint) : string :=
  match e with
  | Translate | Identify | IdentifyPlain | CreateModel => "POST"
  | DeleteModel => "DELETE"
  | ListIdentifiableLanguages | GetModel | ListModels => "GET"
  end.

Definition url_of (e : endpoint) : string :=
  match e with
  | Translate => "/v2/translate"
  | Identify | IdentifyPlain => "/v2/identify"
  | ListIdentifiableLanguages => "/v2/identifiable_languages"
  | CreateModel | ListModels => "/v2/models"
  | DeleteModel | GetModel => "/v2/models/{model_id}"
  end.

Definition accept_of (e : endpoint) : string :=
  match e with
  | IdentifyPlain => "text/plain"
  | _ => "application/json"
  end.

(** [e] serves [(verb, url)] with [accept]: some call of the method builds a
    request of that HTTP method to that URL, defaulting [Accept] to
    [accept]. *)
Definition serves (e : endpoint) (verb url accept : string) : Prop :=
  ∃ fuel this params callback h p cb h' o d c,
    callable fuel this params h ∧
    method e fuel this params callback h = Some (CreateRequest (VRef p) cb, h') ∧
    get h' (VRef p) "options" = VRef o ∧
    get h' (VRef o) "method" = VStr verb ∧
    get h' (VRef o) "url" = VStr url ∧
    get h' (VRef p) "defaultOptions" = VRef d ∧
    get h' (VRef d) "headers" = VRef c ∧
    get h' (VRef c) "Accept" = VStr accept.

(** [e] targets the endpoint [(verb, url)]. *)
Definition targets (e : endpoint) (verb url : string) : Prop :=
  ∃ accept, serves e verb url accept.

(** ** Deep copies

    What [extend(true, {}, this._options, ...)] is to leave in the new
    object: of every value that is no plain object and no array the value
    itself, of a plain object or an array a new object of the same kind
    that holds deep copies in turn. *)

(** Every object of the store holds each property once, as the objects of
    JavaScript do and property lists need not. *)
Definition distinct_keys (h : heap) : Prop :=
  map_Forall (λ _ o, NoDup (oprops o).*1) h.

#[global] Instance distinct_keys_dec h : Decision (distinct_keys h).
Proof. unfold distinct_keys. apply _. Defined.

(** [mirrors h0 h1 A v w]: the value [w] of the store [h1] is a deep copy of
    the value [v] of the store [h0], built out of objects of [A], none of
    them used twice on a path. *)
Inductive mirrors (h0 h1 : heap) : gset loc → value → value → Prop :=
| mirrors_same A v : recursable h0 v = false → mirrors h0 h1 A v v
| mirrors_copy A v x :
    recursable h0 v = true → x ∈ A →
    kind_of h1 (VRef x) = kind_of h0 v →
    (∀ name, mirrors h0 h1 (A ∖ {[x]}) (get h0 v name) (get h1 (VRef x) name)) →
    mirrors h0 h1 A v (VRef x).

(** The objects of [G] hold each property once and refer to [G] only. *)
Definition sources_distinct (G : gset loc) (h : heap) : Prop :=
  ∀ l o, l ∈ G → h !! l = Some o →
         NoDup (oprops o).*1 ∧ ∀ k l', (k, VRef l') ∈ oprops o → l' ∈ G.

(** What a deep merge of [options] into the empty object [target] leaves:
    the frame [F] framed still, every object but [target] as it was, and
    under every name a deep copy of what [options] holds there, the copies
    of two names sharing no object. *)
Definition copied (F : gset loc) (h : heap) (target : loc) (options : value)
    (h' : heap) : Prop :=
  framed h' F ∧ dom h ⊆ dom h' ∧
  (∀ l, l ∈ dom h → l ≠ target → h' !! l = h !! l) ∧
  kind_of h' (VRef target) = kind_of h (VRef target) ∧
  ∃ reg : string → gset loc,
    (∀ name, reg name ⊆ dom h' ∖ dom h) ∧
    (∀ n1 n2, n1 ≠ n2 → reg n1 ## reg n2) ∧
    ∀ name, mirrors h h' (reg name) (get h options name)
              (get h' (VRef target) name).

(** ** The tables of the class *)

(** The header literal each method merges over the instance options. *)
Definition headers_of (e : endpoint) : list (string * value) :=
  match e with
  | Translate =>
      [("Accept", VStr "application/json");
       ("Content-Type", VStr "application/json")]
  | Identify =>
      [("Accept", VStr "application/json"); ("Content-Type", VStr "text/plain")]
  | IdentifyPlain =>
      [("Accept", VStr "text/plain"); ("Content-Type", VStr "text/plain")]
  | CreateModel =>
      [("Accept", VStr "application/json");
       ("Content-Type", VStr "multipart/form-data")]
  | ListIdentifiableLanguages | DeleteModel | GetModel | ListModels =>
      [("Accept", VStr "application/json")]
  end.

(** The request options each method sets, in the order of its literal. *)
Definition option_names (e : endpoint) : list string :=
  match e with
  | Translate | Identify | IdentifyPlain => ["url"; "method"; "json"; "body"]
  | ListIdentifiableLanguages => ["url"; "method"]
  | CreateModel => ["url"; "method"; "qs"; "formData"]
  | DeleteModel | GetModel => ["url"; "method"; "path"]
  | ListModels => ["url"; "method"; "qs"]
  end.

(** The [json] option: set by [translate], unset by the two [identify]
    methods, left out by the others. *)
Definition json_of (e : endpoint) : value :=
  match e with
  | Translate => VBool true
  | Identify | IdentifyPlain => VBool false
  | _ => VUndefined
  end.

(** ** A store to run the methods in

    The service instance [1] with its options [2] and default headers [3];
    parameter objects for [translate] ([4], its text [5]), for the model
    methods ([7], [8]) and for [identify] ([9]); an empty one ([10]); and a
    function [6] to pass as callback. *)
Definition example_store : heap :=
  {[ 1%positive := Obj KOther [("_options", VRef 2)];
     2%positive := Obj KPlain [("url", VStr "https://gateway.watsonplatform.net/language-translator/api");
                               ("username", VStr "user");
                               ("password", VStr "pass");
                               ("headers", VRef 3)];
     3%positive := Obj KPlain [("X-Watson-Learning-Opt-Out", VBool true)];
     4%positive := Obj KPlain [("text", VRef 5)];
     5%positive := Obj KArray [("0", VStr "hello")];
     6%positive := Obj KFunction [];
     7%positive := Obj KPlain [("model_id", VStr "en-es-conversational")];
     8%positive := Obj KPlain [("base_model_id", VStr "en-es"); ("name", VStr "mine")];
     9%positive := Obj KPlain [("text", VStr "this is a test")];
     10%positive := Obj KPlain [] ]}.

(** An instance [1] whose options [2] hold themselves, a parameter object
    [3] for [identify], and a function [4] to pass as callback. *)
Definition cyclic_store : heap :=
  {[ 1%positive := Obj KOther [("_options", VRef 2)];
     2%positive := Obj KPlain [("url", VStr "https://example.org/api");
                               ("self", VRef 2)];
     3%positive := Obj KPlain [("text", VStr "bonjour")];
     4%positive := Obj KFunction [] ]}.

(** * Lemmas *)

(** ** Properties of association lists *)

Lemma assoc_elem_of name ps v : assoc name ps = Some v → (name, v) ∈ ps.
Proof.
  induction ps as [|[k w] ps IH]; simpl; [done|].
  case_decide; intros Hv.
  - simplify_eq. left.
  - right. auto.
Qed.

Lemma assoc_set_prop_eq name v ps : assoc name (set_prop name v ps) = Some v.
Proof.
  induction ps as [|[k w] ps IH]; simpl.
  - by rewrite decide_True.
  - case_decide; simpl.
    + by rewrite decide_True.
    + by rewrite decide_False.
Qed.

Lemma assoc_set_prop_ne name name' v ps :
  name ≠ name' → assoc name' (set_prop name v ps) = assoc name' ps.
Proof.
  intros Hne. induction ps as [|[k w] ps IH]; simpl.
  - by rewrite decide_False.
  - case_decide; simpl.
    + subst. by rewrite !decide_False.
    + case_decide; [done|]. apply IH.
Qed.

Lemma elem_of_set_prop kv name v ps :
  kv ∈ set_prop name v ps → kv ∈ ps ∨ kv = (name, v).
Proof.
  induction ps as [|[k w] ps IH]; simpl.
  - intros ->%list_elem_of_singleton. by right.
  - case_decide.
    + intros [->|Hin]%elem_of_cons; [subst; by right|].
      left. by right.
    + intros [->|Hin]%elem_of_cons; [left; left|].
      destruct (IH Hin) as [?|?]; [left; by right|by right].
Qed.

(** ** Properties of the store primitives *)

Lemma fresh_loc_fresh (h : heap) : fresh_loc h ∉ dom h.
Proof. unfold fresh_loc. apply is_fresh. Qed.

Lemma fresh_loc_lookup (h : heap) : h !! fresh_loc h = None.
Proof. apply not_elem_of_dom, fresh_loc_fresh. Qed.

Lemma get_undefined_or_own h v name :
  get h v name = VUndefined ∨ (name, get h v name) ∈ own_props h v.
Proof.
  unfold get. destruct (assoc name (own_props h v)) eqn:E; simpl.
  - right. by apply assoc_elem_of.
  - by left.
Qed.

Lemma own_props_agree (h h' : heap) v :
  (∀ l, v = VRef l → h' !! l = h !! l) → own_props h' v = own_props h v.
Proof. destruct v; simpl; try done. intros ->; done. Qed.

Lemma get_agree (h h' : heap) v name :
  (∀ l, v = VRef l → h' !! l = h !! l) → get h' v name = get h v name.
Proof. intros H. unfold get. by rewrite (own_props_agree h h'). Qed.

Lemma kind_of_agree (h h' : heap) v :
  (∀ l, v = VRef l → h' !! l = h !! l) → kind_of h' v = kind_of h v.
Proof. destruct v; simpl; try done. intros ->; done. Qed.

Lemma recursable_agree (h h' : heap) v :
  (∀ l, v = VRef l → h' !! l = h !! l) → recursable h' v = recursable h v.
Proof.
  intros H. unfold recursable, isPlainObject, isArray.
  by rewrite (kind_of_agree h h').
Qed.

Lemma recursable_ref h v : recursable h v = true → ∃ l, v = VRef l ∧ l ∈ dom h.
Proof.
  unfold recursable, isPlainObject, isArray.
  destruct v as [| | | | | |l]; simpl; try done.
  intros H. exists l. split; [done|]. apply elem_of_dom.
  destruct (h !! l); [done|].
  apply orb_true_iff in H as [?%bool_decide_eq_true|?%bool_decide_eq_true]; done.
Qed.

Lemma setProperty_dom h l name v : dom (setProperty h l name v) = dom h.
Proof. unfold setProperty. apply dom_alter_L. Qed.

Lemma setProperty_lookup_ne h l l' name v :
  l ≠ l' → setProperty h l name v !! l' = h !! l'.
Proof. intros. unfold setProperty. by rewrite lookup_alter_ne. Qed.

Lemma setProperty_lookup_eq h l name v :
  setProperty h l name v !! l =
  (λ o, Obj (okind o) (set_prop name v (oprops o))) <$> h !! l.
Proof. unfold setProperty. by rewrite lookup_alter_eq. Qed.

Lemma setProperty_kind_of h l name v w :
  kind_of (setProperty h l name v) w = kind_of h w.
Proof.
  destruct w as [| | | | | |l']; simpl; try done.
  destruct (decide (l = l')) as [->|].
  - rewrite setProperty_lookup_eq. by destruct (h !! l').
  - by rewrite setProperty_lookup_ne.
Qed.

Lemma setProperty_recursable h l name v w :
  recursable (setProperty h l name v) w = recursable h w.
Proof.
  unfold recursable, isPlainObject, isArray. by rewrite setProperty_kind_of.
Qed.

Lemma get_setProperty_eq h l name v :
  l ∈ dom h → get (setProperty h l name v) (VRef l) name = v.
Proof.
  intros [o Ho]%elem_of_dom. unfold get. simpl.
  rewrite setProperty_lookup_eq, Ho. simpl. by rewrite assoc_set_prop_eq.
Qed.

Lemma get_setProperty_ne_key h l name name' v w :
  name ≠ name' → get (setProperty h l name v) w name' = get h w name'.
Proof.
  intros Hne. destruct w as [| | | | | |l']; try done.
  unfold get. simpl. destruct (decide (l = l')) as [->|].
  - rewrite setProperty_lookup_eq. destruct (h !! l'); simpl; [|done].
    by rewrite assoc_set_prop_ne.
  - by rewrite setProperty_lookup_ne.
Qed.

(** ** Merging without recursion *)

Lemma merge_unfold fuel deep :
  merge fuel deep =
  merge_with match fuel with
             | O => λ _ _ _, None
             | S fuel' => merge fuel' deep
             end deep.
Proof. by destruct fuel. Qed.

Lemma valid_mono (h h' : heap) v : dom h ⊆ dom h' → valid h v → valid h' v.
Proof. destruct v; simpl; set_solver. Qed.

Lemma closed_lookup h l o k v :
  closed h → h !! l = Some o → (k, v) ∈ oprops o → valid h v.
Proof.
  intros Hc Ho Hin. specialize (Hc l o Ho). simpl in Hc.
  rewrite Forall_forall in Hc. apply (Hc (k, v) Hin).
Qed.

Lemma closed_own_props h v k c :
  closed h → (k, c) ∈ own_props h v → valid h c.
Proof.
  intros Hc. destruct v as [| | | |s| |l]; simpl; try by intros ?%elem_of_nil.
  - unfold string_props. intros (i & a & Heq & _)%elem_of_lookup_imap.
    by simplify_eq.
  - destruct (h !! l) eqn:E; [|by intros ?%elem_of_nil].
    intros Hin. by eapply closed_lookup.
Qed.

Lemma closed_insert h l o :
  closed h → Forall (λ kv, valid (<[l:=o]> h) kv.2) (oprops o) →
  closed (<[l:=o]> h).
Proof.
  intros Hc Ho l' o'. rewrite lookup_insert. case_decide.
  - intros ?; simplify_eq. done.
  - intros Hl'. specialize (Hc l' o' Hl'). simpl in *.
    eapply Forall_impl; [exact Hc|]. intros [k v] Hv. simpl in *.
    eapply valid_mono; [|exact Hv]. rewrite dom_insert_L. set_solver.
Qed.

Lemma elem_of_assign kv src names ps :
  kv ∈ assign src names ps → kv ∈ ps ∨ kv ∈ src.
Proof.
  revert ps. induction names as [|name names IH]; intros ps; simpl; [by left|].
  intros Hin. apply IH in Hin as [Hin|Hin]; [|by right].
  case_decide as Hd; [by left|].
  apply elem_of_set_prop in Hin as [?| ->]; [by left|]. right.
  destruct (assoc name src) eqn:E; simpl in *; [|done].
  by apply assoc_elem_of.
Qed.

Lemma assoc_assign src names ps name :
  default VUndefined (assoc name (assign src names ps)) =
  if decide (name ∈ names ∧ default VUndefined (assoc name src) ≠ VUndefined)
  then default VUndefined (assoc name src)
  else default VUndefined (assoc name ps).
Proof.
  revert ps. induction names as [|n names IH]; intros ps; simpl.
  - first [done | case_decide as H; [by destruct H as [?%elem_of_nil _]|done]].
  - rewrite IH. clear IH.
    set (d := default VUndefined (assoc name src)).
    destruct (decide (name ∈ names ∧ d ≠ VUndefined)) as [[Hin Hd]|Hn].
    + rewrite decide_True; [done|]. split; [by right|done].
    + destruct (decide (n = name)) as [->|Hne].
      * fold d. destruct (decide (d = VUndefined)) as [Hd|Hd].
        -- rewrite decide_False; [done|]. by intros [_ ?].
        -- rewrite decide_True; [|split; [left|done]].
           by rewrite assoc_set_prop_eq.
      * rewrite (decide_False (P := name ∈ n :: names ∧ _)).
        2:{ intros [[?|?]%elem_of_cons ?]; [by subst|]. apply Hn. done. }
        case_decide; [done|]. by rewrite assoc_set_prop_ne.
Qed.

Lemma assoc_not_in name (ps : list (string * value)) :
  name ∉ ps.*1 → assoc name ps = None.
Proof.
  induction ps as [|[k v] ps IH]; simpl; [done|].
  intros Hn. rewrite decide_False.
  - apply IH. intros ?. apply Hn. by right.
  - intros ->. apply Hn. left.
Qed.

(** The copy reads like its source. *)
Lemma assoc_assign_copy src name :
  default VUndefined (assoc name (assign src src.*1 [])) =
  default VUndefined (assoc name src).
Proof.
  rewrite assoc_assign. case_decide as Hd; [done|]. simpl.
  destruct (decide (name ∈ src.*1)) as [Hin|Hn].
  - destruct (decide (default VUndefined (assoc name src) = VUndefined)) as [->|?];
      [done|]. exfalso. by apply Hd.
  - by rewrite assoc_not_in.
Qed.

Section merge_norec.
Variable rec : loc → value → heap → option heap.
Variable deep : bool.
Variables (target : loc) (options : value).
Hypothesis options_not_target : options ≠ VRef target.

Lemma merge_keys_norec names : ∀ h o,
  h !! target = Some o → flat deep target options h →
  merge_keys rec deep target options names h =
  Some (<[target :=
            Obj (okind o) (assign (own_props h options) names (oprops o))]> h).
Proof.
  induction names as [|name names IH]; intros h o Ho Hflat; simpl.
  - f_equal. symmetry. apply insert_id. by destruct o.
  - unfold merge_key. destruct (Hflat name) as [Hnt Hnr].
    rewrite decide_False by done. rewrite Hnr.
    fold (get h options name).
    change (default VUndefined (assoc name (own_props h options)))
      with (get h options name).
    destruct (decide (get h options name = VUndefined)) as [Hu|Hu].
    + by apply IH.
    + set (h' := setProperty h target name (get h options name)).
      assert (Hagree : ∀ v, v ≠ VRef target →
                ∀ l, v = VRef l → h' !! l = h !! l).
      { intros v Hv l ->. apply setProperty_lookup_ne. congruence. }
      assert (Ho' : h' !! target =
                Some (Obj (okind o) (set_prop name (get h options name) (oprops o)))).
      { unfold h'. by rewrite setProperty_lookup_eq, Ho. }
      rewrite (IH h' _ Ho').
      * simpl. rewrite (own_props_agree h h') by by apply Hagree.
        f_equal. unfold h', setProperty.
        apply map_eq. intros l. rewrite !lookup_insert.
        case_decide; [done|]. by rewrite lookup_alter_ne.
      * intros n. rewrite (get_agree h h') by by apply Hagree.
        unfold isPlainObject, isArray, h'. rewrite setProperty_kind_of.
        apply Hflat.
Qed.
End merge_norec.

(** ** The shallow copy [extend({}, params)] *)

Lemma valid_not_fresh h v : valid h v → v ≠ VRef (fresh_loc h).
Proof. intros Hv ->. by apply (fresh_loc_fresh h). Qed.

Lemma extend_shallow fuel h params :
  closed h → valid h params →
  (t <- literal [] ;; extend fuel false t [params]) h =
  Some (fresh_loc h, shallow_copy h params).
Proof.
  intros Hc Hv. unfold bind, literal, lit, extend. simpl.
  rewrite merge_unfold. unfold merge_with, shallow_copy.
  set (t := fresh_loc h). set (h1 := <[t := Obj KPlain []]> h).
  assert (Hagree : ∀ v, valid h v → ∀ l, v = VRef l → h1 !! l = h !! l).
  { intros v Hval l ->. unfold h1. rewrite lookup_insert_ne; [done|].
    intros <-. by apply (fresh_loc_fresh h). }
  destruct (nullish params) eqn:En.
  { destruct params; simplify_eq; done. }
  rewrite (merge_keys_norec _ false t params (valid_not_fresh _ _ Hv)
             (keys h1 params) h1 (Obj KPlain [])).
  - do 2 f_equal. unfold h1, keys.
    rewrite (own_props_agree h h1) by by apply Hagree.
    simpl. by rewrite insert_insert_eq.
  - unfold h1. by rewrite lookup_insert_eq.
  - intros name. split; [|done].
    rewrite (get_agree h h1) by by apply Hagree.
    apply valid_not_fresh.
    destruct (get_undefined_or_own h params name) as [->|Hin]; [done|].
    by eapply closed_own_props.
Qed.

Lemma shallow_copy_get h params name :
  get (shallow_copy h params) (VRef (fresh_loc h)) name = get h params name.
Proof.
  unfold get at 1, shallow_copy. simpl. rewrite lookup_insert_eq. simpl.
  apply assoc_assign_copy.
Qed.

Lemma shallow_copy_dom h params :
  dom (shallow_copy h params) = {[fresh_loc h]} ∪ dom h.
Proof. unfold shallow_copy. by rewrite dom_insert_L. Qed.

Lemma preserves_insert_fresh h o : preserves h (<[fresh_loc h := o]> h).
Proof.
  intros l Hl. rewrite lookup_insert_ne; [done|].
  intros <-. by apply (fresh_loc_fresh h).
Qed.

Lemma preserves_trans h1 h2 h3 :
  dom h1 ⊆ dom h2 → preserves h1 h2 → preserves h2 h3 → preserves h1 h3.
Proof. intros Hd H12 H23 l Hl. rewrite H23, H12; [done..|]. by apply Hd. Qed.

Lemma shallow_copy_preserves h params : preserves h (shallow_copy h params).
Proof. apply preserves_insert_fresh. Qed.

Lemma closed_alloc h ps :
  closed h → Forall (λ kv, valid h kv.2) ps →
  closed (<[fresh_loc h := Obj KPlain ps]> h).
Proof.
  intros Hc Hps. apply closed_insert; [done|]. simpl.
  eapply Forall_impl; [exact Hps|]. intros [k v] Hv.
  eapply valid_mono; [|exact Hv]. rewrite dom_insert_L. set_solver.
Qed.

Lemma shallow_copy_closed h params :
  closed h → closed (shallow_copy h params).
Proof.
  intros Hc. apply closed_alloc; [done|]. apply Forall_forall.
  intros [k v] [Hin|Hin]%elem_of_assign; [by apply elem_of_nil in Hin|].
  by eapply closed_own_props.
Qed.

(** ** The deep merge leaves its sources alone *)

Lemma within_own_props h F v k c :
  framed h F → within F v → (k, c) ∈ own_props h v → within F c.
Proof.
  intros HF Hv. destruct v as [| | | |s| |l]; simpl; try by intros ?%elem_of_nil.
  - unfold string_props. intros (i & a & Heq & _)%elem_of_lookup_imap.
    by simplify_eq.
  - destruct (h !! l) eqn:E; [|by intros ?%elem_of_nil].
    intros Hin. destruct c; try done. simpl. by eapply framed_closed.
Qed.

Lemma within_get h F v name : framed h F → within F v → within F (get h v name).
Proof.
  intros HF Hv. destruct (get_undefined_or_own h v name) as [->|Hin]; [done|].
  by eapply within_own_props.
Qed.

Lemma forallb_agree {A} (f g : A → bool) (l : list A) :
  (∀ x, x ∈ l → f x = g x) → forallb f l = forallb g l.
Proof.
  induction l as [|x l IH]; intros H; simpl; [done|].
  rewrite (H x) by left. f_equal. apply IH. intros y Hy. apply H. by right.
Qed.

Lemma nesting_within_agree n : ∀ h h' F v,
  framed h F → within F v → (∀ l, l ∈ F → h' !! l = h !! l) →
  nesting_within n h' v = nesting_within n h v.
Proof.
  induction n as [|n IH]; intros h h' F v HF Hv Hagree; simpl.
  - assert (Hown : own_props h' v = own_props h v).
    { apply own_props_agree. intros l ->. by apply Hagree. }
    rewrite Hown. apply forallb_agree.
    intros [k c] Hin. simpl. f_equal. f_equal.
    apply recursable_agree. intros l ->. apply Hagree.
    by apply (within_own_props h F v k (VRef l)).
  - assert (Hown : own_props h' v = own_props h v).
    { apply own_props_agree. intros l ->. by apply Hagree. }
    rewrite Hown. apply forallb_agree.
    intros [k c] Hin. simpl.
    assert (Hc : within F c) by by eapply within_own_props.
    f_equal.
    + f_equal. apply recursable_agree. intros l ->. by apply Hagree.
    + by apply (IH h h' F).
Qed.

Lemma framed_alloc h F k :
  framed h F → framed (<[fresh_loc h := Obj k []]> h) F.
Proof.
  intros [Hd Hcl Hsh].
  assert (Hfresh : fresh_loc h ∉ F).
  { intros Hin. apply Hd in Hin. by apply (fresh_loc_fresh h). }
  split.
  - rewrite dom_insert_L. set_solver.
  - intros l o key l' Hl. rewrite lookup_insert_ne by (by intros <-).
    by apply Hcl.
  - intros l o key l' Hl. rewrite lookup_insert. case_decide.
    + intros ?; simplify_eq. by intros ?%elem_of_nil.
    + intros Ho Hin Hl'. rewrite <-(Hsh l o key l' Hl Ho Hin Hl').
      apply recursable_agree. intros ? [= <-].
      rewrite lookup_insert_ne; [done|]. by intros <-.
Qed.

Lemma framed_setProperty h F target name v :
  framed h F → target ∉ F → (within F v → recursable h v = false) →
  framed (setProperty h target name v) F.
Proof.
  intros [Hd Hcl Hsh] Ht Hv. split.
  - by rewrite setProperty_dom.
  - intros l o key l' Hl. rewrite setProperty_lookup_ne by (by intros <-).
    by apply Hcl.
  - intros l o key l' Hl Ho Hin Hl'. rewrite setProperty_recursable.
    destruct (decide (target = l)) as [->|Hne].
    + rewrite setProperty_lookup_eq in Ho.
      destruct (h !! l) as [o0|] eqn:E; simpl in Ho; simplify_eq. simpl in Hin.
      apply elem_of_set_prop in Hin as [Hin|Heq].
      * by eapply Hsh.
      * simplify_eq. by apply Hv.
    + rewrite setProperty_lookup_ne in Ho by done. by eapply Hsh.
Qed.

Lemma clone_of_framed h F target name copy :
  framed h F → target ∈ dom h → target ∉ F →
  let r := clone_of h (get h (VRef target) name) copy in
  r.1 ∈ dom r.2 ∧ (r.1 ∉ F) ∧ framed r.2 F ∧ dom h ⊆ dom r.2 ∧ preserves h r.2.
Proof.
  intros HF Ht HtF.
  assert (Hreuse : ∀ l, get h (VRef target) name = VRef l →
            recursable h (VRef l) = true →
            l ∈ dom h ∧ (l ∉ F) ∧ framed h F ∧ dom h ⊆ dom h ∧ preserves h h).
  { intros l Hsrc Hrec. split_and!; try done.
    - apply recursable_ref in Hrec as (l0 & ? & ?). by simplify_eq.
    - intros Hl. apply elem_of_dom in Ht as [o Ho].
      destruct (get_undefined_or_own h (VRef target) name) as [Hu|Hin];
        [congruence|].
      rewrite Hsrc in Hin. simpl in Hin. rewrite Ho in Hin.
      pose proof (framed_shared h F HF target o name l HtF Ho Hin Hl).
      congruence. }
  assert (Halloc : ∀ k,
            fresh_loc h ∈ dom (<[fresh_loc h := Obj k []]> h) ∧
            (fresh_loc h ∉ F) ∧ framed (<[fresh_loc h := Obj k []]> h) F ∧
            dom h ⊆ dom (<[fresh_loc h := Obj k []]> h) ∧
            preserves h (<[fresh_loc h := Obj k []]> h)).
  { intros k. split_and!.
    - rewrite dom_insert_L. apply elem_of_union_l. by apply elem_of_singleton.
    - intros Hin. apply (framed_dom h F HF) in Hin. by apply (fresh_loc_fresh h).
    - by apply framed_alloc.
    - rewrite dom_insert_L. apply union_subseteq_r.
    - apply preserves_insert_fresh. }
  cbv zeta. unfold clone_of, alloc_in.
  destruct (isArray h copy);
    destruct (get h (VRef target) name) as [| | | | | |l] eqn:Hsrc;
    try (by apply Halloc).
  - destruct (isArray h (VRef l)) eqn:Ha; [|by apply Halloc].
    simpl. apply Hreuse; [done|]. unfold recursable. rewrite Ha. apply orb_true_r.
  - destruct (isPlainObject h (VRef l)) eqn:Ha; [|by apply Halloc].
    simpl. apply Hreuse; [done|]. unfold recursable. by rewrite Ha.
Qed.

Section merge_deep.
Variable rec : loc → value → heap → option heap.
(** [okc h c]: the recursive call on the copied value [c] has the call
    stack it needs. *)
Variable okc : heap → value → Prop.
Variable F : gset loc.

Hypothesis rec_spec : ∀ h target c,
  framed h F → target ∈ dom h → target ∉ F → within F c → okc h c →
  ∃ h', rec target c h = Some h' ∧ deep_post F h h'.
Hypothesis okc_agree : ∀ h h' c,
  framed h F → within F c → (∀ l, l ∈ F → h' !! l = h !! l) →
  okc h c → okc h' c.

Lemma deep_post_refl h : framed h F → deep_post F h h.
Proof. by intros. Qed.

Lemma deep_post_trans h1 h2 h3 :
  deep_post F h1 h2 → deep_post F h2 h3 → deep_post F h1 h3.
Proof.
  intros (_ & Hd12 & H12) (HF & Hd23 & H23). split_and!; [done|set_solver|].
  intros l Hl. by rewrite H23, H12.
Qed.

Lemma merge_key_deep h target options name :
  framed h F → target ∈ dom h → target ∉ F → within F options →
  (recursable h (get h options name) = true → okc h (get h options name)) →
  ∃ h', merge_key rec true target options name h = Some h' ∧ deep_post F h h'.
Proof.
  intros HF Ht HtF Hopt Hok. unfold merge_key.
  set (copy := get h options name) in *.
  assert (Hcopy : within F copy) by by apply within_get.
  case_decide as Heq; [by eauto using deep_post_refl|].
  fold (recursable h copy). rewrite andb_true_l.
  destruct (truthy copy && recursable h copy) eqn:Hb.
  - apply andb_true_iff in Hb as [_ Hrec].
    pose proof (clone_of_framed h F target name copy HF Ht HtF) as Hclone.
    destruct (clone_of h (get h (VRef target) name) copy) as [clone h1].
    simpl in Hclone. destruct Hclone as (Hc1 & HcF & HF1 & Hd1 & Hp1).
    assert (Hagree1 : ∀ l, l ∈ F → h1 !! l = h !! l).
    { intros l Hl. apply Hp1. by apply (framed_dom h F HF). }
    destruct (rec_spec h1 clone copy HF1 Hc1 HcF Hcopy) as (h2 & -> & HF2 & Hd2 & H2).
    { apply (okc_agree h h1); auto. }
    eexists; split; [reflexivity|]. split_and!.
    + apply framed_setProperty; [done..|]. intros Hw.
      apply recursable_ref in Hrec as (l & -> & _). done.
    + rewrite setProperty_dom. set_solver.
    + intros l Hl. rewrite setProperty_lookup_ne by (by intros <-).
      by rewrite H2, Hagree1.
  - case_decide; [by eauto using deep_post_refl|].
    eexists; split; [reflexivity|]. split_and!.
    + apply framed_setProperty; [done..|]. intros _.
      apply andb_false_iff in Hb as [Hb|Hb]; [|done].
      destruct copy; try done.
    + rewrite setProperty_dom. set_solver.
    + intros l Hl. by rewrite setProperty_lookup_ne by (by intros <-).
Qed.

Lemma merge_keys_deep names : ∀ h target options,
  framed h F → target ∈ dom h → target ∉ F → within F options →
  (∀ name, recursable h (get h options name) = true →
           okc h (get h options name)) →
  ∃ h', merge_keys rec true target options names h = Some h' ∧ deep_post F h h'.
Proof.
  induction names as [|name names IH]; intros h target options HF Ht HtF Hopt Hok;
    simpl; [by eauto using deep_post_refl|].
  destruct (merge_key_deep h target options name) as (h1 & -> & Hp1); auto.
  destruct Hp1 as (HF1 & Hd1 & H1).
  assert (Hag : ∀ v, within F v → ∀ l, v = VRef l → h1 !! l = h !! l).
  { intros v Hv l ->. by apply H1. }
  destruct (IH h1 target options) as (h2 & -> & Hp2); auto.
  - intros n. rewrite (get_agree h h1) by by apply Hag.
    assert (Hc : within F (get h options n)) by by apply within_get.
    rewrite (recursable_agree h h1) by by apply Hag.
    intros Hr. apply (okc_agree h h1); auto.
  - eexists; split; [done|]. by apply (deep_post_trans h h1 h2).
Qed.
End merge_deep.

Lemma nesting_within_child n h v name :
  nesting_within n h v = true → recursable h (get h v name) = true →
  match n with
  | O => False
  | S n' => nesting_within n' h (get h v name) = true
  end.
Proof.
  intros Hn Hr.
  destruct (get_undefined_or_own h v name) as [Hu|Hin].
  { rewrite Hu in Hr. done. }
  destruct n; simpl in Hn; rewrite forallb_forall in Hn;
    apply list_elem_of_In, Hn in Hin; simpl in Hin; rewrite Hr in Hin; done.
Qed.

(** A deep merge from a source of bounded nesting returns, and writes only
    outside [F]. *)
Lemma merge_deep_frame fuel : ∀ F h target options,
  framed h F → target ∈ dom h → target ∉ F → within F options →
  nesting_within fuel h options = true →
  ∃ h', merge fuel true target options h = Some h' ∧ deep_post F h h'.
Proof.
  induction fuel as [|fuel IH]; intros F h target options HF Ht HtF Hopt Hn;
    rewrite merge_unfold; unfold merge_with;
    (destruct (nullish options); [by eauto using deep_post_refl|]).
  - apply (merge_keys_deep _ (λ _ _, False)); try done.
    intros name Hr. by apply (nesting_within_child 0 h options name).
  - apply (merge_keys_deep _ (λ h c, nesting_within fuel h c = true)); try done.
    + intros h0 t0 c0 ?????. by apply IH.
    + intros h0 h0' c0 ????. by rewrite (nesting_within_agree fuel h0 h0' F).
    + intros name Hr. by apply (nesting_within_child (S fuel) h options name).
Qed.

(** ** Two merges on stores that differ out of reach

    Two stores that agree off [D] are merged alike by [extend], as long as
    neither the target nor the source lies in [D]. *)

Lemma agree_off_value D h g v :
  agree_off D h g → outside D v → ∀ l, v = VRef l → g !! l = h !! l.
Proof. intros [_ H] Hv l ->. symmetry. by apply H. Qed.

Lemma outside_own_props D h v k c :
  isolated D h → outside D v → (k, c) ∈ own_props h v → outside D c.
Proof.
  intros Hi Hv. destruct v as [| | | |s| |l]; simpl; try by intros ?%elem_of_nil.
  - unfold string_props. intros (i & a & Heq & _)%elem_of_lookup_imap.
    by simplify_eq.
  - destruct (h !! l) eqn:E; [|by intros ?%elem_of_nil].
    intros Hin. destruct c; try done. simpl. by eapply Hi.
Qed.

Lemma outside_get D h v name :
  isolated D h → outside D v → outside D (get h v name).
Proof.
  intros Hi Hv. destruct (get_undefined_or_own h v name) as [->|Hin]; [done|].
  by eapply outside_own_props.
Qed.

Lemma agree_off_setProperty D h g l name v :
  agree_off D h g → agree_off D (setProperty h l name v) (setProperty g l name v).
Proof.
  intros [Hd H]. split; [by rewrite !setProperty_dom|].
  intros l' Hl'. destruct (decide (l = l')) as [->|].
  - by rewrite !setProperty_lookup_eq, H.
  - by rewrite !setProperty_lookup_ne, H.
Qed.

Lemma isolated_setProperty D h l name v :
  isolated D h → outside D v → isolated D (setProperty h l name v).
Proof.
  intros Hi Hv l0 o k l' Hl0. destruct (decide (l = l0)) as [->|].
  - rewrite setProperty_lookup_eq.
    destruct (h !! l0) as [o0|] eqn:E; simpl; [|done].
    intros [= <-]. simpl. intros [Hin| [= <- <-]]%elem_of_set_prop.
    + by eapply Hi.
    + done.
  - rewrite setProperty_lookup_ne by done. by apply Hi.
Qed.

Lemma agree_off_insert D h g l o :
  agree_off D h g → agree_off D (<[l:=o]> h) (<[l:=o]> g).
Proof.
  intros [Hd H]. split; [by rewrite !dom_insert_L, Hd|].
  intros l' Hl'. rewrite !lookup_insert. case_decide; [done|]. by apply H.
Qed.

Lemma isolated_insert D h l o :
  isolated D h → (∀ k l', (k, VRef l') ∈ oprops o → l' ∉ D) →
  isolated D (<[l:=o]> h).
Proof.
  intros Hi Ho l0 o0 k l' Hl0. rewrite lookup_insert. case_decide.
  - intros [= <-]. apply Ho.
  - by apply Hi.
Qed.

Lemma agree_off_fresh D h g : agree_off D h g → fresh_loc g = fresh_loc h.
Proof. intros [Hd _]. unfold fresh_loc. by rewrite Hd. Qed.

Lemma clone_of_agree D h g target name copy :
  agree_off D h g → isolated D h → D ⊆ dom h → target ∉ D → outside D copy →
  let r := clone_of h (get h (VRef target) name) copy in
  let r' := clone_of g (get h (VRef target) name) copy in
  r'.1 = r.1 ∧ agree_off D r.2 r'.2 ∧ isolated D r.2 ∧ dom h ⊆ dom r.2 ∧
  (r.1 ∉ D).
Proof.
  intros Hag Hi HD Ht Hc. cbv zeta.
  assert (Hsrc : outside D (get h (VRef target) name)) by by apply outside_get.
  assert (Hk : ∀ v, outside D v → kind_of g v = kind_of h v).
  { intros v Hv. apply kind_of_agree. by eapply agree_off_value. }
  assert (Hfresh : fresh_loc h ∉ D).
  { intros Hin. apply HD in Hin. by apply (fresh_loc_fresh h). }
  assert (Halloc : ∀ k,
    (alloc_in g (Obj k [])).1 = (alloc_in h (Obj k [])).1 ∧
    agree_off D (alloc_in h (Obj k [])).2 (alloc_in g (Obj k [])).2 ∧
    isolated D (alloc_in h (Obj k [])).2 ∧
    dom h ⊆ dom (alloc_in h (Obj k [])).2 ∧
    ((alloc_in h (Obj k [])).1 ∉ D)).
  { intros k. unfold alloc_in. simpl. rewrite (agree_off_fresh D h g Hag).
    split_and!; [done| |  | |done].
    - by apply agree_off_insert.
    - apply isolated_insert; [done|]. intros ? ? Hin. by apply elem_of_nil in Hin.
    - rewrite dom_insert_L. apply union_subseteq_r. }
  unfold clone_of, isArray, isPlainObject. rewrite !Hk by done.
  destruct (bool_decide (kind_of h copy = Some KArray));
    destruct (get h (VRef target) name) as [| | | | | |l]; try apply Halloc.
  - destruct (bool_decide (kind_of h (VRef l) = Some KArray)); [|apply Halloc].
    simpl. split_and!; done.
  - destruct (bool_decide (kind_of h (VRef l) = Some KPlain)); [|apply Halloc].
    simpl. split_and!; done.
Qed.

Section merge_agree.
Variables (rec : loc → value → heap → option heap) (deep : bool).
Variable D : gset loc.

Hypothesis rec_agree : ∀ h g target c,
  agree_off D h g → isolated D h → D ⊆ dom h → target ∉ D → outside D c →
  agree_post D h (rec target c h) (rec target c g).

Lemma merge_key_agree h g target options name :
  agree_off D h g → isolated D h → D ⊆ dom h → target ∉ D →
  outside D options →
  agree_post D h (merge_key rec deep target options name h)
                 (merge_key rec deep target options name g).
Proof.
  intros Hag Hi HD Ht Hopt. unfold merge_key.
  assert (Hv : ∀ v, outside D v → ∀ l, v = VRef l → g !! l = h !! l).
  { intros v Hv. by eapply agree_off_value. }
  rewrite (get_agree h g (VRef target)) by by apply Hv.
  rewrite (get_agree h g options) by by apply Hv.
  set (copy := get h options name).
  assert (Hcopy : outside D copy) by by apply outside_get.
  unfold isPlainObject, isArray. rewrite (kind_of_agree h g copy) by by apply Hv.
  case_decide; [done|].
  destruct (deep && truthy copy &&
            (bool_decide (kind_of h copy = Some KPlain)
             || bool_decide (kind_of h copy = Some KArray))).
  - pose proof (clone_of_agree D h g target name copy Hag Hi HD Ht Hcopy) as Hcl.
    destruct (clone_of h (get h (VRef target) name) copy) as [clone h1].
    destruct (clone_of g (get h (VRef target) name) copy) as [clone' g1].
    simpl in Hcl. destruct Hcl as (-> & Hag1 & Hi1 & Hd1 & HcD).
    assert (HD1 : D ⊆ dom h1) by set_solver.
    pose proof (rec_agree h1 g1 clone copy Hag1 Hi1 HD1 HcD Hcopy) as Hrec.
    destruct (rec clone copy h1) as [h2|], (rec clone copy g1) as [g2|];
      try done.
    destruct Hrec as (Hag2 & Hi2 & Hd2). simpl. split_and!.
    + by apply agree_off_setProperty.
    + by apply isolated_setProperty.
    + rewrite setProperty_dom. set_solver.
  - case_decide; [done|]. simpl. split_and!.
    + by apply agree_off_setProperty.
    + by apply isolated_setProperty.
    + rewrite setProperty_dom. set_solver.
Qed.

Lemma merge_keys_agree names : ∀ h g target options,
  agree_off D h g → isolated D h → D ⊆ dom h → target ∉ D →
  outside D options →
  agree_post D h (merge_keys rec deep target options names h)
                 (merge_keys rec deep target options names g).
Proof.
  induction names as [|name names IH]; intros h g target options Hag Hi HD Ht Hopt;
    simpl; [done|].
  pose proof (merge_key_agree h g target options name Hag Hi HD Ht Hopt) as H1.
  destruct (merge_key rec deep target options name h) as [h1|],
           (merge_key rec deep target options name g) as [g1|]; try done.
  destruct H1 as (Hag1 & Hi1 & Hd1).
  assert (HD1 : D ⊆ dom h1) by set_solver.
  pose proof (IH h1 g1 target options Hag1 Hi1 HD1 Ht Hopt) as H2.
  destruct (merge_keys rec deep target options names h1) as [h2|],
           (merge_keys rec deep target options names g1) as [g2|]; try done.
  destruct H2 as (Hag2 & Hi2 & Hd2). split_and!; [done..|set_solver].
Qed.
End merge_agree.

Lemma merge_agree fuel deep D : ∀ h g target options,
  agree_off D h g → isolated D h → D ⊆ dom h → target ∉ D → outside D options →
  agree_post D h (merge fuel deep target options h)
                 (merge fuel deep target options g).
Proof.
  induction fuel as [|fuel IH]; intros h g target options Hag Hi HD Ht Hopt;
    simpl; unfold merge_with;
    (destruct (nullish options); [by split_and!|]);
    unfold keys; rewrite (own_props_agree h g options) by (by eapply agree_off_value).
  - by apply merge_keys_agree.
  - by apply merge_keys_agree.
Qed.

(** ** Merging the header defaults

    The last source of every deep [extend] of the class is the literal
    [{headers: {...}}] whose headers are strings: one recursive call, which
    does not recurse further. *)

Lemma nonref_kind_of h v : nonref v → kind_of h v = None.
Proof. destruct v; try done. intros H. by destruct (H l). Qed.

Lemma merge_defaults fuel h F t df hd hs :
  framed h F → t ∈ dom h → t ∉ F → hd ∈ F →
  h !! df = Some (Obj KPlain [("headers", VRef hd)]) →
  h !! hd = Some (Obj KPlain hs) →
  Forall (λ kv, nonref kv.2) hs →
  merge (S fuel) true t (VRef df) h = Some (merge_headers h t hd hs).
Proof.
  intros HF Ht HtF Hhd Hdf Hhs Hnr. simpl. unfold merge_with, keys. simpl.
  rewrite Hdf. simpl. unfold merge_key.
  assert (Hcopy : get h (VRef df) "headers" = VRef hd).
  { unfold get. simpl. by rewrite Hdf. }
  rewrite Hcopy. rewrite decide_False by (intros [= ->]; done).
  assert (Hplain : isPlainObject h (VRef hd) = true).
  { unfold isPlainObject. simpl. rewrite Hhs. done. }
  rewrite Hplain. simpl. unfold merge_headers.
  pose proof (clone_of_framed h F t "headers" (VRef hd) HF Ht HtF) as Hcl.
  destruct (clone_of h (get h (VRef t) "headers") (VRef hd)) as [c h1].
  simpl in *. destruct Hcl as (Hc1 & HcF & HF1 & Hd1 & Hp1).
  assert (Hhd1 : h1 !! hd = Some (Obj KPlain hs)).
  { rewrite Hp1; [done|]. by apply (framed_dom h F HF). }
  apply elem_of_dom in Hc1 as [oc Hoc].
  rewrite merge_unfold. unfold merge_with. simpl.
  rewrite (merge_keys_norec _ true c (VRef hd)) with (o := oc); try done.
  - do 2 f_equal. unfold keys. simpl. rewrite Hhd1. simpl.
    apply map_eq. intros l. rewrite lookup_insert, lookup_alter.
    case_decide; [subst; by rewrite Hoc|done].
  - intros [= ->]. done.
  - intros name.
    assert (Hn : nonref (get h1 (VRef hd) name)).
    { destruct (get_undefined_or_own h1 (VRef hd) name) as [->|Hin]; [done|].
      simpl in Hin. rewrite Hhd1 in Hin. simpl in Hin.
      rewrite Forall_forall in Hnr. apply (Hnr _ Hin). }
    split; [apply Hn|]. unfold isPlainObject, isArray.
    rewrite (nonref_kind_of h1 _ Hn). simpl. apply andb_false_r.
Qed.

Lemma merge_headers_spec h F t hd hs :
  framed h F → t ∈ dom h → t ∉ F →
  let c := (clone_of h (get h (VRef t) "headers") (VRef hd)).1 in
  let h' := merge_headers h t hd hs in
  (c ∉ F) ∧ c ∈ dom h' ∧ dom h ⊆ dom h' ∧
  (∀ l, l ∈ dom h → l ≠ t → l ≠ c → h' !! l = h !! l) ∧
  (∀ l, l ∈ F → h' !! l = h !! l) ∧
  get h' (VRef t) "headers" = VRef c ∧
  kind_of h' (VRef t) = kind_of h (VRef t) ∧
  (∀ k v, k ≠ "headers" → assoc k hs = Some v → v ≠ VUndefined →
          get h' (VRef c) k = v).
Proof.
  intros HF Ht HtF. cbv zeta. unfold merge_headers.
  pose proof (clone_of_framed h F t "headers" (VRef hd) HF Ht HtF) as Hcl.
  destruct (clone_of h (get h (VRef t) "headers") (VRef hd)) as [c h1].
  simpl in *. destruct Hcl as (Hc1 & HcF & HF1 & Hd1 & Hp1).
  set (A := λ o, Obj (okind o) (assign hs hs.*1 (oprops o))).
  assert (Hother : ∀ l, l ∈ dom h → l ≠ t → l ≠ c →
            setProperty (alter A c h1) t "headers" (VRef c) !! l = h !! l).
  { intros l Hl Hlt Hlc.
    rewrite setProperty_lookup_ne, lookup_alter_ne by done. by apply Hp1. }
  split_and!; try done.
  - rewrite setProperty_dom, dom_alter_L. done.
  - rewrite setProperty_dom, dom_alter_L. done.
  - intros l Hl. apply Hother.
    + by apply (framed_dom h F HF).
    + by intros ->.
    + by intros ->.
  - apply get_setProperty_eq. rewrite dom_alter_L. by apply Hd1.
  - change (kind_of (setProperty (alter A c h1) t "headers" (VRef c)) (VRef t)
            = kind_of h (VRef t)).
    rewrite setProperty_kind_of. simpl.
    destruct (decide (c = t)) as [->|Hne].
    + rewrite lookup_alter_eq. rewrite (Hp1 t Ht).
      by destruct (h !! t).
    + rewrite lookup_alter_ne by done. by rewrite (Hp1 t Ht).
  - intros k v Hk Hv Hu. rewrite get_setProperty_ne_key by done.
    unfold get. simpl. rewrite lookup_alter_eq.
    apply elem_of_dom in Hc1 as [oc Hoc]. rewrite Hoc. simpl.
    rewrite assoc_assign, Hv. simpl. rewrite decide_True; [done|].
    split; [|done]. apply list_elem_of_fmap. exists (k, v).
    split; [done|]. by apply assoc_elem_of.
Qed.

(** ** The lines every method ends with *)

Lemma request_tail_run fuel this hs options cb h :
  this ∈ dom h →
  request_tail fuel this hs options cb h =
  match merge fuel true (defaults_target h) (get h (VRef this) "_options")
          (defaults_store h hs) with
  | Some h1 =>
      match merge fuel true (defaults_target h)
              (VRef (defaults_literal h hs)) h1 with
      | Some h2 =>
          Some (CreateRequest (VRef (fresh_loc h2)) cb,
                <[fresh_loc h2 := parameters_of options (defaults_target h)]> h2)
      | None => None
      end
  | None => None
  end.
Proof.
  intros Hthis.
  unfold request_tail, bind, literal, lit, prop, extend, ret. simpl.
  fold (defaults_target h).
  assert (Hget : get (<[defaults_target h := Obj KPlain []]> h) (VRef this) "_options"
                 = get h (VRef this) "_options").
  { apply get_agree. intros l [= <-]. rewrite lookup_insert_ne; [done|].
    intros <-. by apply (fresh_loc_fresh h). }
  rewrite Hget.
  fold (defaults_headers h). fold (defaults_literal h hs).
  fold (defaults_store h hs).
  destruct (merge fuel true (defaults_target h) _ (defaults_store h hs))
    as [h1|]; [|done].
  by destruct (merge fuel true (defaults_target h) _ h1).
Qed.

Lemma defaults_store_facts h hs :
  closed h → Forall (λ kv, nonref kv.2) hs →
  let t := defaults_target h in
  let hd := defaults_headers h in
  let df := defaults_literal h hs in
  let h' := defaults_store h hs in
  let F := dom h' ∖ {[t]} in
  framed h' F ∧ t ∈ dom h' ∧ (t ∉ F) ∧ hd ∈ F ∧ df ∈ F ∧ dom h ⊆ F ∧
  (t ∉ dom h) ∧ (hd ∉ dom h) ∧ (df ∉ dom h) ∧
  h' !! t = Some (Obj KPlain []) ∧
  h' !! hd = Some (Obj KPlain hs) ∧
  h' !! df = Some (Obj KPlain [("headers", VRef hd)]) ∧
  preserves h h'.
Proof.
  intros Hc Hnr. cbv zeta.
  set (t := defaults_target h). set (hd := defaults_headers h).
  set (df := defaults_literal h hs).
  set (h4 := <[t := Obj KPlain []]> h).
  set (h5 := <[hd := Obj KPlain hs]> h4).
  assert (Ht : t ∉ dom h) by apply fresh_loc_fresh.
  assert (Hhd : hd ∉ dom h4) by apply fresh_loc_fresh.
  assert (Hdf : df ∉ dom h5) by apply fresh_loc_fresh.
  assert (Hd4 : dom h4 = {[t]} ∪ dom h) by (unfold h4; by rewrite dom_insert_L).
  assert (Hd5 : dom h5 = {[hd]} ∪ dom h4) by (unfold h5; by rewrite dom_insert_L).
  assert (Hd6 : dom (defaults_store h hs) = {[df]} ∪ dom h5).
  { unfold defaults_store. fold t hd df h4 h5. by rewrite dom_insert_L. }
  rewrite Hd4 in Hhd. rewrite Hd5, Hd4 in Hdf. rewrite Hd6, Hd5, Hd4.
  assert (Hne1 : hd ≠ t) by (clear -Hhd; set_solver).
  assert (Hne2 : df ≠ t) by (clear -Hdf; set_solver).
  assert (Hne3 : df ≠ hd) by (clear -Hdf; set_solver).
  assert (Hhd' : hd ∉ dom h) by (clear -Hhd; set_solver).
  assert (Hdf' : df ∉ dom h) by (clear -Hdf; set_solver).
  assert (Hlt : defaults_store h hs !! t = Some (Obj KPlain [])).
  { unfold defaults_store. fold t hd df.
    rewrite !lookup_insert_ne by done. by rewrite lookup_insert_eq. }
  assert (Hlhd : defaults_store h hs !! hd = Some (Obj KPlain hs)).
  { unfold defaults_store. fold t hd df.
    rewrite lookup_insert_ne by done. by rewrite lookup_insert_eq. }
  assert (Hldf : defaults_store h hs !! df
                 = Some (Obj KPlain [("headers", VRef hd)])).
  { unfold defaults_store. fold t hd df. by rewrite lookup_insert_eq. }
  assert (Hpres : preserves h (defaults_store h hs)).
  { intros l Hl. unfold defaults_store. fold t hd df.
    rewrite !lookup_insert_ne; [done|by intros <-..]. }
  assert (HhF : dom h ⊆ ({[df]} ∪ ({[hd]} ∪ ({[t]} ∪ dom h))) ∖ {[t]}).
  { clear -Ht. set_solver. }
  split_and!; try done.
  - split.
    + clear. set_unfold. tauto.
    + intros l o k l' Hl Ho Hin.
      destruct (decide (l = df)) as [->|Hldf'].
      { rewrite Hldf in Ho. simplify_eq. simpl in Hin.
        apply list_elem_of_singleton in Hin. simplify_eq.
        clear -Hne1. set_solver. }
      destruct (decide (l = hd)) as [->|Hlhd'].
      { rewrite Hlhd in Ho. simplify_eq. simpl in Hin.
        rewrite Forall_forall in Hnr. by destruct (Hnr _ Hin l'). }
      assert (Hlh : l ∈ dom h) by (clear -Hl Hldf' Hlhd'; set_unfold; tauto).
      rewrite (Hpres l Hlh) in Ho.
      pose proof (closed_lookup h l o k (VRef l') Hc Ho Hin) as Hv.
      simpl in Hv. by apply HhF.
    + intros l o k l' Hl Ho Hin.
      assert (l = t) as ->.
      { apply elem_of_dom_2 in Ho. rewrite Hd6, Hd5, Hd4 in Ho.
        destruct (decide (l = t)) as [|Hne]; [done|]. exfalso. apply Hl.
        apply elem_of_difference. split; [done|].
        by apply not_elem_of_singleton. }
      rewrite Hlt in Ho. simplify_eq. by apply elem_of_nil in Hin.
  - clear. set_unfold. tauto.
  - clear. set_unfold. tauto.
  - clear -Hne1. set_unfold. tauto.
  - clear -Hne2. set_unfold. tauto.
Qed.

Lemma closed_framed h : closed h → framed h (dom h).
Proof.
  intros Hc. split; [done| |].
  - intros l o k l' _ Ho Hin. by apply (closed_lookup h l o k (VRef l') Hc Ho Hin).
  - intros l o k l' Hl Ho. by apply elem_of_dom_2 in Ho.
Qed.

Lemma closed_get_valid h v name : closed h → valid h (get h v name).
Proof.
  intros Hc. destruct (get_undefined_or_own h v name) as [->|Hin]; [done|].
  by eapply closed_own_props.
Qed.

(** What the store looks like when [createRequest] is called. *)
Lemma request_tail_spec fuel this hs options cb h0 h :
  closed h0 → this ∈ dom h0 → dom h0 ⊆ dom h → preserves h0 h → closed h →
  nesting_within fuel h0 (get h0 (VRef this) "_options") = true → 0 < fuel →
  Forall (λ kv, nonref kv.2) hs →
  ∃ p d c h',
    request_tail fuel this hs options cb h = Some (CreateRequest (VRef p) cb, h') ∧
    preserves h h' ∧ dom h ⊆ dom h' ∧
    (p ∉ dom h) ∧ (d ∉ dom h) ∧ (c ∉ dom h) ∧ p ≠ d ∧ p ≠ c ∧
    h' !! p = Some (parameters_of options d) ∧
    get h' (VRef d) "headers" = VRef c ∧
    ∀ k v, k ≠ "headers" → assoc k hs = Some v → v ≠ VUndefined →
           get h' (VRef c) k = v.
Proof.
  intros Hc0 Hthis Hdom Hpres Hc Hnest Hfuel Hnr.
  rewrite request_tail_run by by apply Hdom.
  pose proof (defaults_store_facts h hs Hc Hnr) as Hfacts. cbv zeta in Hfacts.
  set (t := defaults_target h) in *. set (hd := defaults_headers h) in *.
  set (df := defaults_literal h hs) in *. set (h6 := defaults_store h hs) in *.
  set (F := dom h6 ∖ {[t]}) in *.
  destruct Hfacts as (HF & Ht6 & HtF & HhdF & HdfF & HhF & Ht & Hhd & Hdf
                      & Hlt & Hlhd & Hldf & Hp6).
  assert (Hopt : get h (VRef this) "_options" = get h0 (VRef this) "_options").
  { apply get_agree. intros l [= <-]. by apply Hpres. }
  rewrite Hopt. set (_options := get h0 (VRef this) "_options") in *.
  assert (Hv0 : valid h0 _options) by by apply closed_get_valid.
  assert (Hw0 : within (dom h0) _options) by (by destruct _options).
  assert (Hw : within F _options).
  { destruct _options; try done. simpl in *. by apply HhF, Hdom. }
  assert (Hn6 : nesting_within fuel h6 _options = true).
  { rewrite (nesting_within_agree fuel h0 h6 (dom h0)); try done.
    - by apply closed_framed.
    - intros l Hl. rewrite Hp6 by by apply Hdom. by apply Hpres. }
  destruct (merge_deep_frame fuel F h6 t _options HF Ht6 HtF Hw Hn6)
    as (h1 & -> & HF1 & Hd1 & H1).
  destruct fuel as [|fuel]; [lia|].
  rewrite (merge_defaults fuel h1 F t df hd hs); try done.
  2:{ by apply Hd1. }
  2:{ by rewrite H1. }
  2:{ by rewrite H1. }
  assert (Ht1 : t ∈ dom h1) by by apply Hd1.
  pose proof (merge_headers_spec h1 F t hd hs HF1 Ht1 HtF) as Hm.
  cbv zeta in Hm.
  set (c := (clone_of h1 (get h1 (VRef t) "headers") (VRef hd)).1) in *.
  set (h2 := merge_headers h1 t hd hs) in *.
  destruct Hm as (HcF & Hc2 & Hd2 & _ & H2 & Hget & _ & Hhs).
  set (p := fresh_loc h2).
  assert (Hp : p ∉ dom h2) by apply fresh_loc_fresh.
  assert (Hpt : p ≠ t).
  { intros Heq. apply Hp. rewrite Heq. by apply Hd2. }
  assert (Hpc : p ≠ c).
  { intros Heq. apply Hp. by rewrite Heq. }
  assert (Hag : ∀ v, v ≠ VRef p →
            ∀ l, v = VRef l →
                 <[p := parameters_of options t]> h2 !! l = h2 !! l).
  { intros v Hv l ->. rewrite lookup_insert_ne; [done|]. congruence. }
  exists p, t, c, (<[p := parameters_of options t]> h2).
  split_and!; try done.
  - intros l Hl. rewrite lookup_insert_ne.
    + rewrite H2, H1 by by apply HhF. by apply Hp6.
    + intros <-. apply Hp. apply Hd2, Hd1. apply (framed_dom _ _ HF).
      by apply HhF.
  - intros l Hl. rewrite dom_insert_L. apply elem_of_union_r.
    apply Hd2, Hd1. apply (framed_dom _ _ HF). by apply HhF.
  - intros Hl. apply Hp. apply Hd2, Hd1. apply (framed_dom _ _ HF).
    by apply HhF.
  - intros Hl. apply HcF. by apply HhF.
  - by rewrite lookup_insert_eq.
  - rewrite (get_agree h2) by (apply Hag; congruence). done.
  - intros k v Hk Hv Hu. rewrite (get_agree h2) by (apply Hag; congruence).
    by apply Hhs.
Qed.

(** ** The lines the methods with required parameters start with *)

Lemma checked_run fuel required rest params callback h :
  closed h → valid h params →
  checked fuel required rest params callback h =
  if decide (present h params required)
  then rest (fresh_loc h) (chosen callback) (shallow_copy h params)
  else Some (CallCallback (chosen callback) [VError [required]],
             shallow_copy h params).
Proof.
  intros Hc Hv. unfold checked. unfold bind at 1.
  rewrite (extend_shallow fuel h params Hc Hv).
  unfold bind, getMissingParams, present.
  rewrite filter_cons, filter_nil, shallow_copy_get.
  destruct (decide (get h params required = VUndefined)) as [Hu|Hu].
  - rewrite decide_False by (by intros ?). done.
  - rewrite decide_True by done. done.
Qed.

(** ** Object literals *)

Lemma literal_run ps h : literal ps h = Some (fresh_loc h, lit h ps).
Proof. reflexivity. Qed.

Lemma lit_dom h ps : dom (lit h ps) = {[fresh_loc h]} ∪ dom h.
Proof. unfold lit. by rewrite dom_insert_L. Qed.

Lemma lit_subseteq h ps : dom h ⊆ dom (lit h ps).
Proof. rewrite lit_dom. apply union_subseteq_r. Qed.

Lemma lit_preserves h ps : preserves h (lit h ps).
Proof. apply preserves_insert_fresh. Qed.

Lemma lit_lookup h ps : lit h ps !! fresh_loc h = Some (Obj KPlain ps).
Proof. unfold lit. by rewrite lookup_insert_eq. Qed.

Lemma lit_closed h ps :
  closed h → Forall (λ kv, valid (lit h ps) kv.2) ps → closed (lit h ps).
Proof. intros Hc Hps. by apply closed_insert. Qed.

Lemma lit_valid h ps v : valid h v → valid (lit h ps) v.
Proof. apply valid_mono, lit_subseteq. Qed.

Lemma lit_valid_new h ps : valid (lit h ps) (VRef (fresh_loc h)).
Proof. simpl. rewrite lit_dom. apply elem_of_union_l, elem_of_singleton. done. Qed.

Lemma shallow_copy_subseteq h params : dom h ⊆ dom (shallow_copy h params).
Proof. rewrite shallow_copy_dom. apply union_subseteq_r. Qed.

Lemma shallow_copy_get_valid h params name :
  closed h → valid (shallow_copy h params) (get h params name).
Proof.
  intros Hc. eapply valid_mono; [apply shallow_copy_subseteq|].
  by apply closed_get_valid.
Qed.

Lemma preserves_refl h : preserves h h.
Proof. by intros l. Qed.

Lemma preserves_lookup h h' l o :
  preserves h h' → h !! l = Some o → h' !! l = Some o.
Proof. intros Hp Hl. rewrite Hp; [done|]. by apply elem_of_dom_2 in Hl. Qed.

Create HintDb store.

#[local] Hint Resolve lit_valid lit_valid_new shallow_copy_get_valid
  shallow_copy_closed lit_subseteq shallow_copy_subseteq lit_preserves
  shallow_copy_preserves preserves_refl : store.

(** Discharges the closedness of a store extended by literals. *)
Ltac closed_lits :=
  repeat (apply lit_closed;
          [|repeat (apply Forall_cons; split;
                    [first [done | eauto 10 with store]|]);
            apply Forall_nil_2]);
  eauto with store.

Lemma nonref_str s : nonref (VStr s).
Proof. by intros l. Qed.

#[local] Hint Resolve nonref_str : store.

Ltac nonref_headers :=
  repeat (apply Forall_cons; split; [intros ?; simpl; done|]);
  apply Forall_nil_2.

Lemma extends_shallow_copy h params :
  closed h → extends h (shallow_copy h params).
Proof.
  intros Hc. split_and!; [by apply shallow_copy_closed|
                          apply shallow_copy_subseteq|
                          apply shallow_copy_preserves].
Qed.

Lemma extends_lit h h' ps :
  extends h h' → Forall (λ kv, valid (lit h' ps) kv.2) ps →
  extends h (lit h' ps).
Proof.
  intros (Hc & Hd & Hp) Hps. split_and!.
  - by apply lit_closed.
  - etrans; [exact Hd|apply lit_subseteq].
  - eapply preserves_trans; [exact Hd|exact Hp|apply lit_preserves].
Qed.

Lemma shallow_copy_valid_new h params :
  valid (shallow_copy h params) (VRef (fresh_loc h)).
Proof.
  simpl. rewrite shallow_copy_dom. apply elem_of_union_l, elem_of_singleton. done.
Qed.

Lemma get_lit h ps v name : valid h v → get (lit h ps) v name = get h v name.
Proof.
  intros Hv. apply get_agree. intros l ->. by apply lit_preserves.
Qed.

Lemma valid_get_copy h params name :
  closed h →
  valid (shallow_copy h params) (get (shallow_copy h params) (VRef (fresh_loc h)) name).
Proof. intros Hc. rewrite shallow_copy_get. by apply shallow_copy_get_valid. Qed.

Lemma valid_get_empty h name :
  valid (lit h []) (get (lit h []) (VRef (fresh_loc h)) name).
Proof. unfold get. simpl. by rewrite lit_lookup. Qed.

#[local] Hint Resolve shallow_copy_valid_new valid_get_copy valid_get_empty : store.

(** Discharges [extends h h'] for a store built by literals on a copy. *)
Ltac extends_lits :=
  repeat (apply extends_lit;
          [|repeat (apply Forall_cons; split;
                    [first [done | eauto 10 with store]|]);
            apply Forall_nil_2]);
  first [by apply extends_shallow_copy | done].

(** Finds an object literal in the store it was added to, or in a later one. *)
Ltac lookup_lits :=
  repeat first
    [ apply lit_lookup
    | eapply preserves_lookup; [apply lit_preserves|] ].

Lemma finish_spec fuel this hs o cb h h3 :
  closed h → this ∈ dom h →
  nesting_within fuel h (get h (VRef this) "_options") = true → 0 < fuel →
  extends h h3 → Forall (λ kv, nonref kv.2) hs →
  ∃ p d c h',
    request_tail fuel this hs o cb h3 = Some (CreateRequest (VRef p) cb, h') ∧
    preserves h h' ∧ preserves h3 h' ∧
    (p ∉ dom h3) ∧ (d ∉ dom h3) ∧ (c ∉ dom h3) ∧ p ≠ d ∧ p ≠ c ∧
    h' !! p = Some (parameters_of o d) ∧
    get h' (VRef d) "headers" = VRef c ∧
    ∀ k v, k ≠ "headers" → assoc k hs = Some v → v ≠ VUndefined →
           get h' (VRef c) k = v.
Proof.
  intros Hc Hthis Hn Hfuel (Hc3 & Hd3 & Hp3) Hnr.
  destruct (request_tail_spec fuel this hs o cb h h3 Hc Hthis Hd3 Hp3 Hc3 Hn
              Hfuel Hnr)
    as (p & d & c & h' & Hrun & Hp' & Hd' & Hpn & Hdn & Hcn & Hpd & Hpc & Hlp
        & Hgd & Hgc).
  exists p, d, c, h'. split_and!; try done.
  eapply preserves_trans; [exact Hd3|exact Hp3|exact Hp'].
Qed.

(** ** The lines the two methods without required parameters start with *)

Lemma unchecked_run fuel rest params callback h :
  closed h → valid h params →
  unchecked fuel rest params callback h =
  rest (fresh_loc h) (chosen_first h params callback)
       (params_store h params callback).
Proof.
  intros Hc Hv. unfold unchecked, chosen_first, params_store, chosen.
  unfold bind at 1. unfold callback_first at 1. fold (shifted h params callback).
  assert (Hk : ∀ h', preserves h h' →
            isFunction h' params = isFunction h params).
  { intros h' Hp. unfold isFunction. f_equal. rewrite (kind_of_agree h h'); [done|].
    intros l ->. by apply Hp. }
  destruct (shifted h params callback) eqn:Hs.
  - unfold bind at 1. rewrite literal_run. unfold bind, callback_first.
    rewrite (Hk _ (lit_preserves h [])). fold (shifted h params callback).
    by rewrite Hs.
  - unfold bind at 1. rewrite (extend_shallow fuel h params Hc Hv).
    unfold bind, callback_first.
    rewrite (Hk _ (shallow_copy_preserves h params)).
    fold (shifted h params callback). by rewrite Hs.
Qed.

Lemma extends_params_store h params callback :
  closed h → extends h (params_store h params callback).
Proof.
  intros Hc. unfold params_store. destruct (shifted h params callback).
  - split_and!; [by apply lit_closed|apply lit_subseteq|apply lit_preserves].
  - by apply extends_shallow_copy.
Qed.

Lemma params_store_get h params callback name :
  get (params_store h params callback) (VRef (fresh_loc h)) name
  = field h params callback name.
Proof.
  unfold params_store, field. destruct (shifted h params callback).
  - unfold get. simpl. by rewrite lit_lookup.
  - apply shallow_copy_get.
Qed.

Lemma params_store_valid_new h params callback :
  valid (params_store h params callback) (VRef (fresh_loc h)).
Proof.
  unfold params_store. destruct (shifted h params callback).
  - apply lit_valid_new.
  - apply shallow_copy_valid_new.
Qed.

Lemma valid_field h params callback name :
  closed h → valid (params_store h params callback) (field h params callback name).
Proof.
  intros Hc. unfold field, params_store. destruct (shifted h params callback);
    [done|]. by apply shallow_copy_get_valid.
Qed.

#[local] Hint Resolve params_store_valid_new valid_field : store.

(** ** What each method builds *)

Lemma extends_fresh h h' : extends h h' → fresh_loc h' ∉ dom h.
Proof.
  intros (_ & Hd & _) Hin. apply Hd in Hin. by apply (fresh_loc_fresh h').
Qed.

Lemma extends_not_in h h' l : extends h h' → l ∉ dom h' → l ∉ dom h.
Proof. intros (_ & Hd & _) Hl Hin. by apply Hl, Hd. Qed.

(** Runs the literals of a method up to its last lines, then those. *)
Ltac run_literals :=
  cbv beta iota delta [bind prop literal];
  rewrite ?get_lit by eauto 10 with store;
  rewrite ?shallow_copy_get, ?params_store_get.

Ltac finish_with h :=
  match goal with
  | |- context [request_tail ?fuel ?this ?hs ?ot ?cb ?h3] =>
      let He := fresh "He" in
      assert (He : extends h h3) by extends_lits;
      destruct (finish_spec fuel this hs ot cb h h3)
        as (p & d & c & h' & -> & Hp & Hp3 & Hpn & Hdn & Hcn & Hpd & Hpc
            & Hlp & Hgd & Hgc);
      [done..|nonref_headers|];
      set (o := ot) in *
  end.

(** Closes the facts of a method specification once its run is known. *)
Ltac spec_goal :=
  first
    [ reflexivity
    | done
    | by eapply extends_not_in
    | match goal with
      | H : ∀ k v, _ → assoc k _ = Some v → _ → _ |- get _ _ _ = _ =>
          by apply H
      end
    | match goal with
      | H : preserves (lit _ _) _ |- _ !! _ = Some _ =>
          eapply preserves_lookup; [exact H|]; lookup_lits
      end
    | by apply extends_fresh
    | apply extends_fresh; extends_lits ].

Lemma translate_shape fuel this :
  translate fuel this =
  checked fuel "text" (λ _params _callback,
    text <- prop (VRef _params) "text" ;;
    model_id <- prop (VRef _params) "model_id" ;;
    source <- prop (VRef _params) "source" ;;
    target <- prop (VRef _params) "target" ;;
    body <- literal [("text", text); ("model_id", model_id);
                     ("source", source); ("target", target)] ;;
    options <- literal [("url", VStr "/v2/translate"); ("method", VStr "POST");
                        ("json", VBool true); ("body", VRef body)] ;;
    request_tail fuel this [("Accept", VStr "application/json");
                            ("Content-Type", VStr "application/json")]
      options _callback).
Proof. reflexivity. Qed.

Lemma translate_spec fuel this params callback h :
  callable fuel this params h → present h params "text" →
  ∃ p o b d c h',
    builds (translate fuel this params callback) h (chosen callback) p o d c h' ∧
    h' !! o = Some (Obj KPlain [("url", VStr "/v2/translate");
                                ("method", VStr "POST");
                                ("json", VBool true); ("body", VRef b)]) ∧
    h' !! b = Some (Obj KPlain [("text", get h params "text");
                                ("model_id", get h params "model_id");
                                ("source", get h params "source");
                                ("target", get h params "target")]) ∧
    (b ∉ dom h) ∧
    get h' (VRef c) "Accept" = VStr "application/json" ∧
    get h' (VRef c) "Content-Type" = VStr "application/json".
Proof.
  intros (Hc & Hv & Hthis & Hfuel & Hn) Hpres. unfold builds.
  rewrite translate_shape, checked_run, decide_True by done.
  run_literals. finish_with h.
  eexists p, o, _, d, c, h'. split_and!; spec_goal.
Qed.

Lemma identify_shape fuel this :
  identify fuel this =
  checked fuel "text" (λ _params _callback,
    body <- prop (VRef _params) "text" ;;
    options <- literal [("url", VStr "/v2/identify"); ("method", VStr "POST");
                        ("json", VBool false); ("body", body)] ;;
    request_tail fuel this [("Accept", VStr "application/json");
                            ("Content-Type", VStr "text/plain")]
      options _callback).
Proof. reflexivity. Qed.

Lemma identifyPlain_shape fuel this :
  identifyPlain fuel this =
  checked fuel "text" (λ _params _callback,
    body <- prop (VRef _params) "text" ;;
    options <- literal [("url", VStr "/v2/identify"); ("method", VStr "POST");
                        ("json", VBool false); ("body", body)] ;;
    request_tail fuel this [("Accept", VStr "text/plain");
                            ("Content-Type", VStr "text/plain")]
      options _callback).
Proof. reflexivity. Qed.

Lemma listIdentifiableLanguages_shape fuel this :
  listIdentifiableLanguages fuel this =
  unchecked fuel (λ _params _callback,
    options <- literal [("url", VStr "/v2/identifiable_languages");
                        ("method", VStr "GET")] ;;
    request_tail fuel this [("Accept", VStr "application/json")]
      options _callback).
Proof. reflexivity. Qed.

Lemma createModel_shape fuel this :
  createModel fuel this =
  checked fuel "base_model_id" (λ _params _callback,
    forced_glossary <- prop (VRef _params) "forced_glossary" ;;
    part1 <- literal [("data", forced_glossary);
                      ("contentType", VStr "application/octet-stream")] ;;
    parallel_corpus <- prop (VRef _params) "parallel_corpus" ;;
    part2 <- literal [("data", parallel_corpus);
                      ("contentType", VStr "application/octet-stream")] ;;
    monolingual_corpus <- prop (VRef _params) "monolingual_corpus" ;;
    part3 <- literal [("data", monolingual_corpus);
                      ("contentType", VStr "text/plain")] ;;
    formData <- literal [("forced_glossary", VRef part1);
                         ("parallel_corpus", VRef part2);
                         ("monolingual_corpus", VRef part3)] ;;
    base_model_id <- prop (VRef _params) "base_model_id" ;;
    name <- prop (VRef _params) "name" ;;
    query <- literal [("base_model_id", base_model_id); ("name", name)] ;;
    options <- literal [("url", VStr "/v2/models"); ("method", VStr "POST");
                        ("qs", VRef query); ("formData", VRef formData)] ;;
    request_tail fuel this [("Accept", VStr "application/json");
                            ("Content-Type", VStr "multipart/form-data")]
      options _callback).
Proof. reflexivity. Qed.

Lemma deleteModel_shape fuel this :
  deleteModel fuel this =
  checked fuel "model_id" (λ _params _callback,
    model_id <- prop (VRef _params) "model_id" ;;
    path <- literal [("model_id", model_id)] ;;
    options <- literal [("url", VStr "/v2/models/{model_id}");
                        ("method", VStr "DELETE"); ("path", VRef path)] ;;
    request_tail fuel this [("Accept", VStr "application/json")]
      options _callback).
Proof. reflexivity. Qed.

Lemma getModel_shape fuel this :
  getModel fuel this =
  checked fuel "model_id" (λ _params _callback,
    model_id <- prop (VRef _params) "model_id" ;;
    path <- literal [("model_id", model_id)] ;;
    options <- literal [("url", VStr "/v2/models/{model_id}");
                        ("method", VStr "GET"); ("path", VRef path)] ;;
    request_tail fuel this [("Accept", VStr "application/json")]
      options _callback).
Proof. reflexivity. Qed.

Lemma listModels_shape fuel this :
  listModels fuel this =
  unchecked fuel (λ _params _callback,
    source <- prop (VRef _params) "source" ;;
    target <- prop (VRef _params) "target" ;;
    default_models <- prop (VRef _params) "default_models" ;;
    query <- literal [("source", source); ("target", target);
                      ("default", default_models)] ;;
    options <- literal [("url", VStr "/v2/models"); ("method", VStr "GET");
                        ("qs", VRef query)] ;;
    request_tail fuel this [("Accept", VStr "application/json")]
      options _callback).
Proof. reflexivity. Qed.

Lemma identify_spec fuel this params callback h :
  callable fuel this params h → present h params "text" →
  ∃ p o d c h',
    builds (identify fuel this params callback) h (chosen callback) p o d c h' ∧
    h' !! o = Some (Obj KPlain [("url", VStr "/v2/identify");
                                ("method", VStr "POST");
                                ("json", VBool false);
                                ("body", get h params "text")]) ∧
    get h' (VRef c) "Accept" = VStr "application/json" ∧
    get h' (VRef c) "Content-Type" = VStr "text/plain".
Proof.
  intros (Hc & Hv & Hthis & Hfuel & Hn) Hpres. unfold builds.
  rewrite identify_shape, checked_run, decide_True by done.
  run_literals. finish_with h.
  eexists p, o, d, c, h'. split_and!; spec_goal.
Qed.

Lemma identifyPlain_spec fuel this params callback h :
  callable fuel this params h → present h params "text" →
  ∃ p o d c h',
    builds (identifyPlain fuel this params callback) h (chosen callback)
      p o d c h' ∧
    h' !! o = Some (Obj KPlain [("url", VStr "/v2/identify");
                                ("method", VStr "POST");
                                ("json", VBool false);
                                ("body", get h params "text")]) ∧
    get h' (VRef c) "Accept" = VStr "text/plain" ∧
    get h' (VRef c) "Content-Type" = VStr "text/plain".
Proof.
  intros (Hc & Hv & Hthis & Hfuel & Hn) Hpres. unfold builds.
  rewrite identifyPlain_shape, checked_run, decide_True by done.
  run_literals. finish_with h.
  eexists p, o, d, c, h'. split_and!; spec_goal.
Qed.

Lemma listIdentifiableLanguages_spec fuel this params callback h :
  callable fuel this params h →
  ∃ p o d c h',
    builds (listIdentifiableLanguages fuel this params callback) h
      (chosen_first h params callback) p o d c h' ∧
    h' !! o = Some (Obj KPlain [("url", VStr "/v2/identifiable_languages");
                                ("method", VStr "GET")]) ∧
    get h' (VRef c) "Accept" = VStr "application/json".
Proof.
  intros (Hc & Hv & Hthis & Hfuel & Hn). unfold builds.
  rewrite listIdentifiableLanguages_shape, unchecked_run by done.
  pose proof (extends_params_store h params callback Hc) as Hps.
  run_literals. finish_with h.
  eexists p, o, d, c, h'. split_and!; spec_goal.
Qed.

Lemma createModel_spec fuel this params callback h :
  callable fuel this params h → present h params "base_model_id" →
  ∃ p o q f f1 f2 f3 d c h',
    builds (createModel fuel this params callback) h (chosen callback)
      p o d c h' ∧
    h' !! o = Some (Obj KPlain [("url", VStr "/v2/models");
                                ("method", VStr "POST");
                                ("qs", VRef q); ("formData", VRef f)]) ∧
    h' !! q = Some (Obj KPlain [("base_model_id", get h params "base_model_id");
                                ("name", get h params "name")]) ∧
    h' !! f = Some (Obj KPlain [("forced_glossary", VRef f1);
                                ("parallel_corpus", VRef f2);
                                ("monolingual_corpus", VRef f3)]) ∧
    h' !! f1 = Some (Obj KPlain [("data", get h params "forced_glossary");
                                 ("contentType", VStr "application/octet-stream")]) ∧
    h' !! f2 = Some (Obj KPlain [("data", get h params "parallel_corpus");
                                 ("contentType", VStr "application/octet-stream")]) ∧
    h' !! f3 = Some (Obj KPlain [("data", get h params "monolingual_corpus");
                                 ("contentType", VStr "text/plain")]) ∧
    get h' (VRef c) "Accept" = VStr "application/json" ∧
    get h' (VRef c) "Content-Type" = VStr "multipart/form-data".
Proof.
  intros (Hc & Hv & Hthis & Hfuel & Hn) Hpres. unfold builds.
  rewrite createModel_shape, checked_run, decide_True by done.
  run_literals. finish_with h.
  eexists p, o, _, _, _, _, _, d, c, h'. split_and!; spec_goal.
Qed.

Lemma deleteModel_spec fuel this params callback h :
  callable fuel this params h → present h params "model_id" →
  ∃ p o a d c h',
    builds (deleteModel fuel this params callback) h (chosen callback)
      p o d c h' ∧
    h' !! o = Some (Obj KPlain [("url", VStr "/v2/models/{model_id}");
                                ("method", VStr "DELETE"); ("path", VRef a)]) ∧
    h' !! a = Some (Obj KPlain [("model_id", get h params "model_id")]) ∧
    get h' (VRef c) "Accept" = VStr "application/json".
Proof.
  intros (Hc & Hv & Hthis & Hfuel & Hn) Hpres. unfold builds.
  rewrite deleteModel_shape, checked_run, decide_True by done.
  run_literals. finish_with h.
  eexists p, o, _, d, c, h'. split_and!; spec_goal.
Qed.

Lemma getModel_spec fuel this params callback h :
  callable fuel this params h → present h params "model_id" →
  ∃ p o a d c h',
    builds (getModel fuel this params callback) h (chosen callback)
      p o d c h' ∧
    h' !! o = Some (Obj KPlain [("url", VStr "/v2/models/{model_id}");
                                ("method", VStr "GET"); ("path", VRef a)]) ∧
    h' !! a = Some (Obj KPlain [("model_id", get h params "model_id")]) ∧
    get h' (VRef c) "Accept" = VStr "application/json".
Proof.
  intros (Hc & Hv & Hthis & Hfuel & Hn) Hpres. unfold builds.
  rewrite getModel_shape, checked_run, decide_True by done.
  run_literals. finish_with h.
  eexists p, o, _, d, c, h'. split_and!; spec_goal.
Qed.

Lemma listModels_spec fuel this params callback h :
  callable fuel this params h →
  ∃ p o q d c h',
    builds (listModels fuel this params callback) h
      (chosen_first h params callback) p o d c h' ∧
    h' !! o = Some (Obj KPlain [("url", VStr "/v2/models");
                                ("method", VStr "GET"); ("qs", VRef q)]) ∧
    h' !! q = Some (Obj KPlain
                      [("source", field h params callback "source");
                       ("target", field h params callback "target");
                       ("default", field h params callback "default_models")]) ∧
    get h' (VRef c) "Accept" = VStr "application/json".
Proof.
  intros (Hc & Hv & Hthis & Hfuel & Hn). unfold builds.
  rewrite listModels_shape, unchecked_run by done.
  pose proof (extends_params_store h params callback Hc) as Hps.
  run_literals. finish_with h.
  eexists p, o, _, d, c, h'. split_and!; spec_goal.
Qed.

(** ** The last lines on two stores that differ out of reach *)

Lemma defaults_target_agree D h g :
  agree_off D h g → defaults_target g = defaults_target h.
Proof. apply agree_off_fresh. Qed.

Lemma defaults_headers_agree D h g :
  agree_off D h g → defaults_headers g = defaults_headers h.
Proof.
  intros Hag. unfold defaults_headers.
  rewrite (defaults_target_agree D h g Hag).
  apply (agree_off_fresh D). by apply agree_off_insert.
Qed.

Lemma defaults_literal_agree D h g hs hs' :
  agree_off D h g → defaults_literal g hs' = defaults_literal h hs.
Proof.
  intros Hag. unfold defaults_literal.
  rewrite (defaults_target_agree D h g Hag), (defaults_headers_agree D h g Hag).
  unfold fresh_loc. rewrite !dom_insert_L. by destruct Hag as [-> _].
Qed.

Lemma request_tail_agree D fuel this hs o cb h g :
  agree_off D h g → isolated D h → D ⊆ dom h → this ∈ dom h → this ∉ D →
  Forall (λ kv, nonref kv.2) hs →
  match request_tail fuel this hs o cb h, request_tail fuel this hs o cb g with
  | Some (tc, h'), Some (tc', g') => tc' = tc ∧ agree_off D h' g'
  | None, None => True
  | _, _ => False
  end.
Proof.
  intros Hag Hi HD Hthis HthisD Hnr.
  assert (Hthisg : this ∈ dom g) by (destruct Hag as [<- _]; done).
  rewrite !request_tail_run by done.
  rewrite (defaults_target_agree D h g Hag).
  rewrite (defaults_literal_agree D h g hs hs Hag).
  rewrite (get_agree h g (VRef this)).
  2:{ intros l [= <-]. symmetry. by apply Hag. }
  set (t := defaults_target h). set (df := defaults_literal h hs).
  assert (Ht : t ∉ dom h) by apply fresh_loc_fresh.
  assert (Hhd : defaults_headers h ∉ dom h).
  { intros Hin. apply (fresh_loc_fresh (<[t := Obj KPlain []]> h)).
    rewrite dom_insert_L. by apply elem_of_union_r. }
  assert (Hag6 : agree_off D (defaults_store h hs) (defaults_store g hs)).
  { unfold defaults_store.
    rewrite (defaults_target_agree D h g Hag), (defaults_headers_agree D h g Hag),
      (defaults_literal_agree D h g hs hs Hag).
    by do 3 apply agree_off_insert. }
  assert (Hi6 : isolated D (defaults_store h hs)).
  { unfold defaults_store. apply isolated_insert; [apply isolated_insert;
      [apply isolated_insert; [done|]|]|]; simpl.
    - intros k l' Hin. by apply elem_of_nil in Hin.
    - intros k l' Hin. rewrite Forall_forall in Hnr. by destruct (Hnr _ Hin l').
    - intros k l' [= -> ->]%list_elem_of_singleton. intros Hin. by apply Hhd, HD. }
  assert (Hd6 : dom h ⊆ dom (defaults_store h hs)).
  { unfold defaults_store. rewrite !dom_insert_L.
    do 3 (etrans; [|apply union_subseteq_r]). done. }
  assert (HD6 : D ⊆ dom (defaults_store h hs)) by (etrans; done).
  assert (HtD : t ∉ D) by (intros Hin; by apply Ht, HD).
  assert (Hopt : outside D (get h (VRef this) "_options")).
  { by apply outside_get. }
  pose proof (merge_agree fuel true D _ _ t _ Hag6 Hi6 HD6 HtD Hopt) as H1.
  destruct (merge fuel true t (get h (VRef this) "_options") (defaults_store h hs))
    as [h1|],
    (merge fuel true t (get h (VRef this) "_options") (defaults_store g hs))
    as [g1|]; try done.
  destruct H1 as (Hag1 & Hi1 & Hd1).
  assert (HD1 : D ⊆ dom h1) by (etrans; done).
  assert (HdfD : outside D (VRef df)).
  { simpl. intros Hin. apply HD in Hin.
    apply (fresh_loc_fresh (<[defaults_headers h := Obj KPlain hs]>
                              (<[t := Obj KPlain []]> h))).
    rewrite !dom_insert_L. by do 2 apply elem_of_union_r. }
  pose proof (merge_agree fuel true D _ _ t _ Hag1 Hi1 HD1 HtD HdfD) as H2.
  destruct (merge fuel true t (VRef df) h1) as [h2|],
           (merge fuel true t (VRef df) g1) as [g2|]; try done.
  destruct H2 as (Hag2 & Hi2 & Hd2).
  rewrite (agree_off_fresh D h2 g2 Hag2). split; [done|].
  by apply agree_off_insert.
Qed.

Lemma agree_off_lit h ps ps' :
  agree_off {[fresh_loc h]} (lit h ps) (lit h ps').
Proof.
  split; [by rewrite !lit_dom|]. intros l Hl%not_elem_of_singleton.
  unfold lit. by rewrite !lookup_insert_ne.
Qed.

Lemma isolated_lit h ps :
  closed h → isolated {[fresh_loc h]} (lit h ps).
Proof.
  intros Hc l o k l' Hl%not_elem_of_singleton Ho Hin.
  unfold lit in Ho. rewrite lookup_insert_ne in Ho by done.
  pose proof (closed_lookup h l o k (VRef l') Hc Ho Hin) as Hv. simpl in Hv.
  intros ->%elem_of_singleton. by apply (fresh_loc_fresh h).
Qed.

(** [getModel] leaves the store [deleteModel] leaves, but for the method. *)
Lemma deleteModel_getModel fuel this params callback h :
  callable fuel this params h → present h params "model_id" →
  ∃ p o a d c h',
    builds (deleteModel fuel this params callback) h (chosen callback)
      p o d c h' ∧
    h' !! o = Some (Obj KPlain [("url", VStr "/v2/models/{model_id}");
                                ("method", VStr "DELETE"); ("path", VRef a)]) ∧
    h' !! a = Some (Obj KPlain [("model_id", get h params "model_id")]) ∧
    get h' (VRef c) "Accept" = VStr "application/json" ∧
    getModel fuel this params callback h
      = Some (CreateRequest (VRef p) (chosen callback),
              setProperty h' o "method" (VStr "GET")).
Proof.
  intros (Hc & Hv & Hthis & Hfuel & Hn) Hpres. unfold builds.
  rewrite deleteModel_shape, getModel_shape, !checked_run, !decide_True by done.
  run_literals.
  set (h1 := shallow_copy h params).
  set (h2 := lit h1 [("model_id", get h params "model_id")]).
  set (o := fresh_loc h2).
  set (opsD := [("url", VStr "/v2/models/{model_id}");
                ("method", VStr "DELETE"); ("path", VRef (fresh_loc h1))]).
  set (opsG := [("url", VStr "/v2/models/{model_id}");
                ("method", VStr "GET"); ("path", VRef (fresh_loc h1))]).
  set (hs := [("Accept", VStr "application/json")]).
  assert (He2 : extends h h2) by (unfold h2, h1; extends_lits).
  assert (HeD : extends h (lit h2 opsD)) by (unfold opsD, h2, h1; extends_lits).
  assert (HeG : extends h (lit h2 opsG)) by (unfold opsG, h2, h1; extends_lits).
  assert (Hnr : Forall (λ kv : string * value, nonref kv.2) hs)
    by (unfold hs; nonref_headers).
  destruct (finish_spec fuel this hs o (chosen callback) h (lit h2 opsD)
              Hc Hthis Hn Hfuel HeD Hnr)
    as (p & d & c & h' & HrunD & Hp & Hp3 & Hpn & Hdn & Hcn & Hpd & Hpc & Hlp
        & Hgd & Hgc).
  destruct (finish_spec fuel this hs o (chosen callback) h (lit h2 opsG)
              Hc Hthis Hn Hfuel HeG Hnr)
    as (p' & d' & c' & g' & HrunG & Hp' & Hp3' & _ & _ & _ & _ & _ & _ & _ & _).
  assert (Hthis2 : this ∈ dom h2) by (by apply He2).
  pose proof (request_tail_agree {[o]} fuel this hs o (chosen callback)
                (lit h2 opsD) (lit h2 opsG)) as Hrel.
  rewrite HrunD, HrunG in Hrel.
  destruct Hrel as [[= ->] [Hdom Hag]].
  { apply agree_off_lit. }
  { apply isolated_lit. apply He2. }
  { rewrite lit_dom. apply union_subseteq_l. }
  { by apply lit_subseteq. }
  { intros ->%elem_of_singleton. by apply (fresh_loc_fresh h2). }
  { done. }
  rewrite HrunD, HrunG.
  assert (HoD : h' !! o = Some (Obj KPlain opsD)).
  { eapply preserves_lookup; [exact Hp3|]. apply lit_lookup. }
  assert (HoG : g' !! o = Some (Obj KPlain opsG)).
  { eapply preserves_lookup; [exact Hp3'|]. apply lit_lookup. }
  exists p, o, (fresh_loc h1), d, c, h'. split_and!.
  - done.
  - done.
  - by apply (extends_not_in h _ p HeD).
  - by apply (extends_fresh h h2).
  - by apply (extends_not_in h _ d HeD).
  - by apply (extends_not_in h _ c HeD).
  - done.
  - done.
  - done.
  - eapply preserves_lookup; [exact Hp3|]. unfold h2. lookup_lits.
  - by apply Hgc.
  - do 3 f_equal. apply map_eq. intros l.
    destruct (decide (l = o)) as [->|Hne].
    + by rewrite setProperty_lookup_eq, HoD, HoG.
    + rewrite setProperty_lookup_ne by done. symmetry. apply Hag.
      by apply not_elem_of_singleton.
Qed.

(** ** Setting properties twice *)

Lemma set_prop_keys name v ps :
  name ∈ (set_prop name v ps).*1 ∧ ∀ k, k ∈ ps.*1 → k ∈ (set_prop name v ps).*1.
Proof.
  induction ps as [|[k w] ps [IH1 IH2]]; simpl.
  - split; [left|]. by intros k ?%elem_of_nil.
  - case_decide; simpl.
    + subst. split; [left|]. done.
    + split; [by right|]. intros k' [->|Hin]%elem_of_cons; [left|right; auto].
Qed.

Lemma set_prop_twice name v v' ps :
  set_prop name v' (set_prop name v ps) = set_prop name v' ps.
Proof.
  induction ps as [|[k w] ps IH]; simpl.
  - by rewrite decide_True.
  - case_decide; simpl.
    + by rewrite decide_True.
    + rewrite decide_False by done. by rewrite IH.
Qed.

(** Two settings commute when the first key is already there: neither is
    then appended after the other. *)
Lemma set_prop_comm k1 k2 v1 v2 ps :
  k1 ≠ k2 → k1 ∈ ps.*1 →
  set_prop k1 v1 (set_prop k2 v2 ps) = set_prop k2 v2 (set_prop k1 v1 ps).
Proof.
  intros Hne. induction ps as [|[k w] ps IH]; simpl.
  - by intros ?%elem_of_nil.
  - intros Hin. destruct (decide (k = k2)) as [->|H2]; simpl.
    + rewrite !decide_False by done. simpl. by rewrite decide_True.
    + destruct (decide (k = k1)) as [->|H1]; simpl.
      * by rewrite decide_False.
      * rewrite decide_False by done. f_equal. apply IH.
        apply elem_of_cons in Hin as [->|Hin]; [done|exact Hin].
Qed.

Lemma assign_two k1 k2 v1 v2 ps :
  k1 ≠ k2 → v1 ≠ VUndefined → v2 ≠ VUndefined →
  assign [(k1, v1); (k2, v2)] [k1; k2] ps = set_prop k2 v2 (set_prop k1 v1 ps).
Proof.
  intros Hne H1 H2. simpl.
  rewrite (decide_True (P := k1 = k1)), (decide_True (P := k2 = k2)),
    (decide_False (P := k1 = k2)) by done.
  simpl. by rewrite !decide_False by done.
Qed.

Lemma assign_accept_change k1 k2 v1 v1' v2 ps :
  k1 ≠ k2 → v1 ≠ VUndefined → v1' ≠ VUndefined → v2 ≠ VUndefined →
  assign [(k1, v1'); (k2, v2)] [k1; k2] ps
  = set_prop k1 v1' (assign [(k1, v1); (k2, v2)] [k1; k2] ps).
Proof.
  intros Hne H1 H1' H2. rewrite !assign_two by done.
  rewrite (set_prop_comm k1 k2 v1' v2 (set_prop k1 v1 ps)); [|done|].
  - by rewrite set_prop_twice.
  - apply (proj1 (set_prop_keys k1 v1 ps)).
Qed.

Lemma assign_accept_change_under k1 k2 k3 v1 v1' v2 v3 ps :
  k1 ≠ k2 → k1 ≠ k3 → v1 ≠ VUndefined → v1' ≠ VUndefined → v2 ≠ VUndefined →
  set_prop k3 v3 (assign [(k1, v1'); (k2, v2)] [k1; k2] ps)
  = set_prop k1 v1' (set_prop k3 v3 (assign [(k1, v1); (k2, v2)] [k1; k2] ps)).
Proof.
  intros Hne Hne3 H1 H1' H2.
  rewrite (assign_accept_change k1 k2 v1 v1' v2) by done.
  rewrite (set_prop_comm k1 k3 v1' v3 (assign [(k1, v1); (k2, v2)] [k1; k2] ps));
    [done|done|].
  rewrite assign_two by done.
  apply (proj2 (set_prop_keys k2 v2 _)), (proj1 (set_prop_keys k1 v1 ps)).
Qed.

(** ** Replacing an object of the same kind under a merge of the defaults *)

Lemma kind_of_insert_same h l o o' v :
  h !! l = Some o → okind o' = okind o →
  kind_of (<[l:=o']> h) v = kind_of h v.
Proof.
  intros Hl Hk. destruct v as [| | | | | |l0]; try done. simpl.
  rewrite lookup_insert. case_decide; [|done]. subst. rewrite Hl. simpl.
  by rewrite Hk.
Qed.

Lemma fresh_loc_insert_same h l o o' :
  h !! l = Some o → fresh_loc (<[l:=o']> h) = fresh_loc h.
Proof.
  intros Hl. unfold fresh_loc. rewrite dom_insert_L.
  apply elem_of_dom_2 in Hl. f_equal. apply subseteq_union_1_L.
  by apply singleton_subseteq_l.
Qed.

Lemma clone_of_insert h l o o' src copy :
  h !! l = Some o → okind o' = okind o →
  (clone_of h src copy).1 ≠ l →
  clone_of (<[l:=o']> h) src copy
  = ((clone_of h src copy).1, <[l:=o']> (clone_of h src copy).2).
Proof.
  intros Hl Hk. unfold clone_of, isArray, isPlainObject, alloc_in.
  rewrite !(kind_of_insert_same h l o o') by done.
  rewrite (fresh_loc_insert_same h l o o') by done.
  assert (Hfresh : fresh_loc h ≠ l).
  { intros <-. by rewrite fresh_loc_lookup in Hl. }
  assert (Hcomm : ∀ k, <[fresh_loc h := Obj k []]> (<[l:=o']> h)
                       = <[l:=o']> (<[fresh_loc h := Obj k []]> h)).
  { intros k. apply map_eq. intros i. rewrite !lookup_insert.
    repeat case_decide; congruence. }
  destruct (bool_decide (kind_of h copy = Some KArray));
    destruct src as [| | | | | |l0]; intros Hne;
    try (simpl; by rewrite Hcomm).
  - destruct (bool_decide (kind_of h (VRef l0) = Some KArray)); simpl in *;
      [done|by rewrite Hcomm].
  - destruct (bool_decide (kind_of h (VRef l0) = Some KPlain)); simpl in *;
      [done|by rewrite Hcomm].
Qed.

Lemma clone_of_preserves h src copy : preserves h (clone_of h src copy).2.
Proof.
  unfold clone_of, alloc_in.
  destruct (isArray h copy); destruct src as [| | | | | |l];
    try apply preserves_insert_fresh.
  - destruct (isArray h (VRef l));
      [apply preserves_refl|apply preserves_insert_fresh].
  - destruct (isPlainObject h (VRef l));
      [apply preserves_refl|apply preserves_insert_fresh].
Qed.

(** Changing one header of the literal changes that header of the merged
    object, and nothing else. *)
Lemma merge_headers_change h t hd k1 k2 v1 v1' v2 :
  let hs := [(k1, v1); (k2, v2)] in
  let hs' := [(k1, v1'); (k2, v2)] in
  let c := (clone_of h (get h (VRef t) "headers") (VRef hd)).1 in
  h !! hd = Some (Obj KPlain hs) → t ≠ hd → c ≠ hd →
  k1 ≠ k2 → k1 ≠ "headers" →
  v1 ≠ VUndefined → v1' ≠ VUndefined → v2 ≠ VUndefined →
  merge_headers (<[hd := Obj KPlain hs']> h) t hd hs'
  = setProperty (setProperty (merge_headers h t hd hs) hd k1 v1') c k1 v1'.
Proof.
  intros hs hs' c Hhd Hthd Hchd Hk Hkh Hv1 Hv1' Hv2. unfold merge_headers.
  rewrite (get_agree h (<[hd := Obj KPlain hs']> h) (VRef t)).
  2:{ intros l [= <-]. by rewrite lookup_insert_ne. }
  rewrite (clone_of_insert h hd (Obj KPlain hs) (Obj KPlain hs')) by done.
  pose proof (clone_of_preserves h (get h (VRef t) "headers") (VRef hd)) as Hp.
  fold c in Hp |- *. simpl.
  set (x := (clone_of h (get h (VRef t) "headers") (VRef hd)).2) in *.
  assert (Hxhd : x !! hd = Some (Obj KPlain hs)).
  { by apply (preserves_lookup h). }
  apply map_eq. intros l. unfold setProperty.
  destruct (decide (l = hd)) as [->|Hl1].
  - rewrite !(lookup_alter_ne _ _ t hd), !(lookup_alter_ne _ _ c hd) by done.
    rewrite lookup_insert_eq, lookup_alter_eq.
    rewrite !(lookup_alter_ne _ _ t hd), !(lookup_alter_ne _ _ c hd) by done.
    rewrite Hxhd. simpl. by rewrite decide_True.
  - destruct (decide (l = c)) as [->|Hl2].
    + rewrite (lookup_alter_eq _ _ c).
      rewrite (lookup_alter_ne _ _ hd c) by done.
      destruct (decide (t = c)) as [Htc|Htc].
      * rewrite Htc, !lookup_alter_eq, lookup_insert_ne by done.
        destruct (x !! c) as [o|]; simpl; [|done]. do 2 f_equal.
        by apply assign_accept_change_under.
      * rewrite !(lookup_alter_ne _ _ t c) by done.
        rewrite !lookup_alter_eq, lookup_insert_ne by done.
        destruct (x !! c) as [o|]; simpl; [|done]. do 2 f_equal.
        by apply assign_accept_change.
    + rewrite (lookup_alter_ne _ _ c l), (lookup_alter_ne _ _ hd l) by done.
      destruct (decide (t = l)) as [<-|Hl3].
      * rewrite !lookup_alter_eq, !lookup_alter_ne, lookup_insert_ne by done.
        done.
      * rewrite !lookup_alter_ne, lookup_insert_ne by done. done.
Qed.

Lemma setProperty_insert_ne h l p o name v :
  l ≠ p →
  setProperty (<[p:=o]> h) l name v = <[p:=o]> (setProperty h l name v).
Proof.
  intros Hne. apply map_eq. intros i. unfold setProperty.
  destruct (decide (i = l)) as [->|Hi].
  - by rewrite lookup_alter_eq, !lookup_insert_ne, lookup_alter_eq by done.
  - rewrite lookup_alter_ne by done. rewrite !lookup_insert.
    case_decide; [done|]. by rewrite lookup_alter_ne.
Qed.

(** The first merge of the deep [extend]: from [this._options]. *)
Lemma options_merge_spec fuel this hs h0 h :
  closed h0 → this ∈ dom h0 → dom h0 ⊆ dom h → preserves h0 h → closed h →
  nesting_within fuel h0 (get h0 (VRef this) "_options") = true →
  Forall (λ kv, nonref kv.2) hs →
  let t := defaults_target h in
  let F := dom (defaults_store h hs) ∖ {[t]} in
  ∃ h1, merge fuel true t (get h (VRef this) "_options") (defaults_store h hs)
          = Some h1 ∧
        deep_post F (defaults_store h hs) h1.
Proof.
  intros Hc0 Hthis Hdom Hpres Hc Hnest Hnr. cbv zeta.
  pose proof (defaults_store_facts h hs Hc Hnr) as Hfacts. cbv zeta in Hfacts.
  set (t := defaults_target h) in *. set (h6 := defaults_store h hs) in *.
  set (F := dom h6 ∖ {[t]}) in *.
  destruct Hfacts as (HF & Ht6 & HtF & HhdF & HdfF & HhF & Ht & Hhd & Hdf
                      & Hlt & Hlhd & Hldf & Hp6).
  assert (Hopt : get h (VRef this) "_options" = get h0 (VRef this) "_options").
  { apply get_agree. intros l [= <-]. by apply Hpres. }
  rewrite Hopt. set (_options := get h0 (VRef this) "_options") in *.
  assert (Hv0 : valid h0 _options) by by apply closed_get_valid.
  assert (Hw0 : within (dom h0) _options) by (by destruct _options).
  assert (Hw : within F _options).
  { destruct _options; try done. simpl in *. by apply HhF, Hdom. }
  assert (Hn6 : nesting_within fuel h6 _options = true).
  { rewrite (nesting_within_agree fuel h0 h6 (dom h0)); try done.
    - by apply closed_framed.
    - intros l Hl. rewrite Hp6 by by apply Hdom. by apply Hpres. }
  apply (merge_deep_frame fuel F h6 t _options HF Ht6 HtF Hw Hn6).
Qed.

Lemma request_tail_change fuel this k1 k2 v1 v1' v2 o cb h0 h :
  let hs := [(k1, v1); (k2, v2)] in
  let hs' := [(k1, v1'); (k2, v2)] in
  closed h0 → this ∈ dom h0 → dom h0 ⊆ dom h → preserves h0 h → closed h →
  nesting_within fuel h0 (get h0 (VRef this) "_options") = true → 0 < fuel →
  nonref v1 → nonref v1' → nonref v2 →
  v1 ≠ VUndefined → v1' ≠ VUndefined → v2 ≠ VUndefined →
  k1 ≠ k2 → k1 ≠ "headers" →
  ∃ p d c h',
    request_tail fuel this hs o cb h = Some (CreateRequest (VRef p) cb, h') ∧
    request_tail fuel this hs' o cb h
      = Some (CreateRequest (VRef p) cb,
              setProperty (setProperty h' (defaults_headers h) k1 v1') c k1 v1') ∧
    h' !! p = Some (parameters_of o d) ∧
    get h' (VRef d) "headers" = VRef c ∧
    h' !! defaults_headers h = Some (Obj KPlain hs) ∧
    (defaults_headers h ∉ dom h) ∧ p ≠ defaults_headers h.
Proof.
  intros hs hs' Hc0 Hthis Hdom Hpres Hc Hnest Hfuel Hn1 Hn1' Hn2 Hv1 Hv1' Hv2 Hk Hkh.
  assert (Hnr : Forall (λ kv : string * value, nonref kv.2) hs).
  { unfold hs. repeat (apply Forall_cons; split; [done|]). apply Forall_nil_2. }
  assert (Hnr' : Forall (λ kv : string * value, nonref kv.2) hs').
  { unfold hs'. repeat (apply Forall_cons; split; [done|]). apply Forall_nil_2. }
  rewrite !request_tail_run by by apply Hdom.
  assert (Hsame : agree_off ∅ h h) by done.
  rewrite (defaults_literal_agree ∅ h h hs hs' Hsame).
  destruct (options_merge_spec fuel this hs h0 h Hc0 Hthis Hdom Hpres Hc Hnest Hnr)
    as (h1 & Hm1 & HF1 & Hd1 & H1).
  destruct (options_merge_spec fuel this hs' h0 h Hc0 Hthis Hdom Hpres Hc Hnest Hnr')
    as (g1 & Hm1' & HF1' & Hd1' & H1').
  pose proof (defaults_store_facts h hs Hc Hnr) as Hfacts.
  pose proof (defaults_store_facts h hs' Hc Hnr') as Hfacts'.
  cbv zeta in Hfacts, Hfacts'.
  rewrite (defaults_literal_agree ∅ h h hs hs' Hsame) in Hfacts'.
  set (t := defaults_target h) in *. set (hd := defaults_headers h) in *.
  set (df := defaults_literal h hs) in *.
  set (h6 := defaults_store h hs) in *. set (g6 := defaults_store h hs') in *.
  set (F := dom h6 ∖ {[t]}) in *. set (F' := dom g6 ∖ {[t]}) in *.
  destruct Hfacts as (HF & Ht6 & HtF & HhdF & HdfF & HhF & Ht & Hhd & Hdf
                      & Hlt & Hlhd & Hldf & Hp6).
  destruct Hfacts' as (HF' & Ht6' & HtF' & HhdF' & HdfF' & HhF' & _ & _ & _
                       & Hlt' & Hlhd' & Hldf' & Hp6').
  rewrite Hm1, Hm1'.
  (* the two stores agree but for the literals *)
  assert (Hthd : t ≠ hd) by (intros Heq; apply HtF; by rewrite Heq).
  assert (Htdf : t ≠ df) by (intros Heq; apply HtF; by rewrite Heq).
  assert (Hag6 : agree_off {[hd; df]} h6 g6).
  { split.
    - unfold h6, g6, defaults_store.
      rewrite (defaults_literal_agree ∅ h h hs hs' Hsame).
      by rewrite !dom_insert_L.
    - intros l Hl. unfold h6, g6, defaults_store.
      rewrite (defaults_literal_agree ∅ h h hs hs' Hsame). fold t hd df.
      rewrite not_elem_of_union, !not_elem_of_singleton in Hl.
      destruct Hl as [Hl1 Hl2].
      by rewrite !(lookup_insert_ne _ df), !(lookup_insert_ne _ hd) by done. }
  assert (Hi6 : isolated {[hd; df]} h6).
  { intros l ob k l' Hl Ho Hin.
    rewrite not_elem_of_union, !not_elem_of_singleton in Hl.
    destruct Hl as [Hl1 Hl2].
    destruct (decide (l = t)) as [->|Hlt0].
    { rewrite Hlt in Ho. simplify_eq. by apply elem_of_nil in Hin. }
    assert (Hlh : l ∈ dom h).
    { apply elem_of_dom_2 in Ho. unfold h6, defaults_store in Ho.
      fold t hd df in Ho.
      rewrite !dom_insert_L, !elem_of_union, !elem_of_singleton in Ho.
      by destruct Ho as [?|[?|[?|?]]]. }
    rewrite (Hp6 l Hlh) in Ho.
    pose proof (closed_lookup h l ob k (VRef l') Hc Ho Hin) as Hval.
    simpl in Hval. rewrite not_elem_of_union, !not_elem_of_singleton.
    split; intros ->; done. }
  assert (HD6 : ({[hd; df]} : gset loc) ⊆ dom h6).
  { apply union_subseteq. split; apply singleton_subseteq_l.
    - by apply (framed_dom _ _ HF).
    - by apply (framed_dom _ _ HF). }
  assert (HtD : t ∉ ({[hd; df]} : gset loc)).
  { rewrite not_elem_of_union, !not_elem_of_singleton. done. }
  assert (Hopt : outside {[hd; df]} (get h (VRef this) "_options")).
  { assert (Hval : valid h (get h (VRef this) "_options"))
      by by apply closed_get_valid.
    destruct (get h (VRef this) "_options"); try done. simpl in *.
    rewrite not_elem_of_union, !not_elem_of_singleton. split; intros ->; done. }
  pose proof (merge_agree fuel true {[hd; df]} h6 g6 t _ Hag6 Hi6 HD6 HtD Hopt)
    as Hrel.
  rewrite Hm1, Hm1' in Hrel. destruct Hrel as ([Hdom1 Hag1] & _ & _).
  assert (Hh1hd : h1 !! hd = Some (Obj KPlain hs)) by (by rewrite H1).
  assert (Hg1 : g1 = <[hd := Obj KPlain hs']> h1).
  { apply map_eq. intros l. rewrite lookup_insert.
    destruct (decide (hd = l)) as [<-|Hne1]; [by rewrite H1'|].
    destruct (decide (l = df)) as [->|Hne2].
    - by rewrite H1, H1', Hldf, Hldf'.
    - symmetry. apply Hag1.
      rewrite not_elem_of_union, !not_elem_of_singleton. done. }
  (* the literal under either *)
  destruct fuel as [|fuel]; [lia|].
  assert (Ht1 : t ∈ dom h1) by by apply Hd1.
  assert (Ht1' : t ∈ dom g1) by by apply Hd1'.
  rewrite (merge_defaults fuel h1 F t df hd hs); try done.
  2:{ by rewrite H1. }
  rewrite (merge_defaults fuel g1 F' t df hd hs'); try done.
  2:{ by rewrite H1'. }
  2:{ by rewrite H1'. }
  pose proof (merge_headers_spec h1 F t hd hs HF1 Ht1 HtF) as Hm.
  cbv zeta in Hm.
  set (c := (clone_of h1 (get h1 (VRef t) "headers") (VRef hd)).1) in *.
  destruct Hm as (HcF & Hc2 & Hd2 & _ & H2 & Hget & _ & _).
  assert (Hchd : c ≠ hd) by (intros Heq; apply HcF; by rewrite Heq).
  rewrite Hg1.
  pose proof (merge_headers_change h1 t hd k1 k2 v1 v1' v2) as Hch.
  cbv zeta in Hch. fold hs hs' c in Hch. rewrite Hch by done. clear Hch.
  set (h2 := merge_headers h1 t hd hs) in *.
  assert (Hfresh : fresh_loc (setProperty (setProperty h2 hd k1 v1') c k1 v1')
                   = fresh_loc h2).
  { unfold fresh_loc. by rewrite !setProperty_dom. }
  rewrite Hfresh. set (p := fresh_loc h2).
  assert (Hp : p ∉ dom h2) by apply fresh_loc_fresh.
  assert (Hpt : p ≠ t).
  { intros Heq. apply Hp. rewrite Heq. by apply Hd2. }
  assert (Hpc : p ≠ c).
  { intros Heq. apply Hp. by rewrite Heq. }
  assert (Hphd : p ≠ hd).
  { intros Heq. apply Hp. rewrite Heq. apply Hd2, Hd1.
    by apply (framed_dom _ _ HF). }
  exists p, t, c, (<[p := parameters_of o t]> h2). split_and!.
  - done.
  - by rewrite !setProperty_insert_ne by done.
  - by rewrite lookup_insert_eq.
  - rewrite (get_agree h2); [done|]. intros l [= <-].
    by rewrite lookup_insert_ne.
  - rewrite lookup_insert_ne by done. by rewrite H2, H1.
  - done.
  - done.
Qed.

(** [identifyPlain] leaves the store [identify] leaves, but for the [Accept]
    header: of the header literal [hd] and of the merged headers [c]. *)
Lemma identify_identifyPlain fuel this params callback h :
  callable fuel this params h → present h params "text" →
  ∃ p o d c hd h',
    builds (identify fuel this params callback) h (chosen callback) p o d c h' ∧
    h' !! o = Some (Obj KPlain [("url", VStr "/v2/identify");
                                ("method", VStr "POST");
                                ("json", VBool false);
                                ("body", get h params "text")]) ∧
    get h' (VRef c) "Accept" = VStr "application/json" ∧
    get h' (VRef c) "Content-Type" = VStr "text/plain" ∧
    h' !! hd = Some (Obj KPlain [("Accept", VStr "application/json");
                                 ("Content-Type", VStr "text/plain")]) ∧
    (hd ∉ dom h) ∧ o ≠ hd ∧ o ≠ c ∧ p ≠ hd ∧ p ≠ c ∧
    identifyPlain fuel this params callback h
      = Some (CreateRequest (VRef p) (chosen callback),
              setProperty (setProperty h' hd "Accept" (VStr "text/plain"))
                c "Accept" (VStr "text/plain")).
Proof.
  intros (Hc & Hv & Hthis & Hfuel & Hn) Hpres. unfold builds.
  rewrite identify_shape, identifyPlain_shape, !checked_run, !decide_True by done.
  run_literals.
  set (h1 := shallow_copy h params).
  set (ops := [("url", VStr "/v2/identify"); ("method", VStr "POST");
               ("json", VBool false); ("body", get h params "text")]).
  set (o := fresh_loc h1).
  assert (He : extends h (lit h1 ops)) by (unfold ops, h1; extends_lits).
  set (hs := [("Accept", VStr "application/json");
              ("Content-Type", VStr "text/plain")]).
  assert (Hnr : Forall (λ kv : string * value, nonref kv.2) hs)
    by (unfold hs; nonref_headers).
  destruct (finish_spec fuel this hs o (chosen callback) h (lit h1 ops)
              Hc Hthis Hn Hfuel He Hnr)
    as (p & d & c & h' & Hrun & Hp & Hp3 & Hpn & Hdn & Hcn & Hpd & Hpc & Hlp
        & Hgd & Hgc).
  destruct He as (Hc3 & Hd3 & Hp3h).
  destruct (request_tail_change fuel this "Accept" "Content-Type"
              (VStr "application/json") (VStr "text/plain") (VStr "text/plain")
              o (chosen callback) h (lit h1 ops))
    as (p' & d' & c' & h'' & Hrun' & Hplain & Hlp' & Hgd' & Hhd & Hhdn & Hphd);
    try done.
  fold hs in Hrun', Hhd. rewrite Hrun in Hrun'. injection Hrun' as <- <-.
  rewrite Hlp in Hlp'. injection Hlp' as <-.
  rewrite Hgd in Hgd'. injection Hgd' as <-.
  rewrite Hrun, Hplain.
  exists p, o, d, c, (defaults_headers (lit h1 ops)), h'. split_and!.
  - done.
  - done.
  - intros Hin. by apply Hpn, Hd3.
  - intros Hin. apply (fresh_loc_fresh h1), shallow_copy_subseteq, Hin.
  - intros Hin. by apply Hdn, Hd3.
  - intros Hin. by apply Hcn, Hd3.
  - done.
  - done.
  - eapply preserves_lookup; [exact Hp3|]. apply lit_lookup.
  - by apply Hgc.
  - by apply Hgc.
  - done.
  - intros Hin. by apply Hhdn, Hd3.
  - intros Heq. apply Hhdn. rewrite <-Heq. apply lit_valid_new.
  - intros Heq. apply Hcn. rewrite <-Heq. apply lit_valid_new.
  - done.
  - done.
  - done.
Qed.

(** ** All methods at once *)

Lemma get_lookup h l o name :
  h !! l = Some o → get h (VRef l) name = default VUndefined (assoc name (oprops o)).
Proof. intros Hl. unfold get. simpl. by rewrite Hl. Qed.

(** Every method whose required parameters are there builds its request. *)
Lemma method_builds e fuel this params callback h :
  callable fuel this params h → Forall (present h params) (requiredParams e) →
  ∃ p o d c h',
    builds (method e fuel this params callback) h (handler_of e h params callback)
      p o d c h' ∧
    get h' (VRef o) "method" = VStr (verb_of e) ∧
    get h' (VRef o) "url" = VStr (url_of e) ∧
    get h' (VRef c) "Accept" = VStr (accept_of e).
Proof.
  intros Hcall Hreq. destruct e; simpl in *;
    try (apply Forall_cons in Hreq as [Hreq _]).
  - destruct (translate_spec fuel this params callback h Hcall Hreq)
      as (p & o & b & d & c & h' & Hb & Ho & _ & _ & Ha & _).
    exists p, o, d, c, h'. by rewrite !(get_lookup h' o _ _ Ho).
  - destruct (identify_spec fuel this params callback h Hcall Hreq)
      as (p & o & d & c & h' & Hb & Ho & Ha & _).
    exists p, o, d, c, h'. by rewrite !(get_lookup h' o _ _ Ho).
  - destruct (identifyPlain_spec fuel this params callback h Hcall Hreq)
      as (p & o & d & c & h' & Hb & Ho & Ha & _).
    exists p, o, d, c, h'. by rewrite !(get_lookup h' o _ _ Ho).
  - destruct (listIdentifiableLanguages_spec fuel this params callback h Hcall)
      as (p & o & d & c & h' & Hb & Ho & Ha).
    exists p, o, d, c, h'. by rewrite !(get_lookup h' o _ _ Ho).
  - destruct (createModel_spec fuel this params callback h Hcall Hreq)
      as (p & o & q & f & f1 & f2 & f3 & d & c & h' & Hb & Ho & _ & _ & _ & _
          & _ & Ha & _).
    exists p, o, d, c, h'. by rewrite !(get_lookup h' o _ _ Ho).
  - destruct (deleteModel_spec fuel this params callback h Hcall Hreq)
      as (p & o & a & d & c & h' & Hb & Ho & _ & Ha).
    exists p, o, d, c, h'. by rewrite !(get_lookup h' o _ _ Ho).
  - destruct (getModel_spec fuel this params callback h Hcall Hreq)
      as (p & o & a & d & c & h' & Hb & Ho & _ & Ha).
    exists p, o, d, c, h'. by rewrite !(get_lookup h' o _ _ Ho).
  - destruct (listModels_spec fuel this params callback h Hcall)
      as (p & o & q & d & c & h' & Hb & Ho & _ & Ha).
    exists p, o, d, c, h'. by rewrite !(get_lookup h' o _ _ Ho).
Qed.

(** Every method stops at the first required parameter that is missing. *)
Lemma method_rejects e fuel this params callback h :
  closed h → valid h params →
  ¬ Forall (present h params) (requiredParams e) →
  method e fuel this params callback h
  = Some (CallCallback (chosen callback) [VError (requiredParams e)],
          shallow_copy h params).
Proof.
  intros Hc Hv Hreq.
  assert (Hone : ∀ r, ¬ Forall (present h params) [r] → ¬ present h params r).
  { intros r Hn Hp. apply Hn. by apply Forall_singleton. }
  destruct e; simpl in *; try (by destruct Hreq; apply Forall_nil_2);
    apply Hone in Hreq.
  - by rewrite translate_shape, checked_run, decide_False.
  - by rewrite identify_shape, checked_run, decide_False.
  - by rewrite identifyPlain_shape, checked_run, decide_False.
  - by rewrite createModel_shape, checked_run, decide_False.
  - by rewrite deleteModel_shape, checked_run, decide_False.
  - by rewrite getModel_shape, checked_run, decide_False.
Qed.

Lemma example_callable params :
  bool_decide (valid example_store params) = true →
  callable 2 1 params example_store.
Proof.
  intros Hv%bool_decide_eq_true. split_and!; [|done|..].
  - apply (bool_decide_eq_true_1 (closed example_store)). vm_compute.
    reflexivity.
  - apply (bool_decide_eq_true_1 (1%positive ∈ dom example_store)). vm_compute.
    reflexivity.
  - lia.
  - vm_compute. reflexivity.
Defined.

(** * The claims *)

(** C1: validation is a presence check.  A method whose required fields
    are all there builds its request whatever the fields hold; one with a
    required field missing calls the callback with the missing-parameters
    error and builds no request.  [translate] in particular asks for [text]
    only. *)
Theorem validation_is_presence_check e fuel this params callback h :
  callable fuel this params h →
  (Forall (present h params) (requiredParams e) →
   ∃ p h', method e fuel this params callback h
           = Some (CreateRequest (VRef p) (handler_of e h params callback), h'))
  ∧ (¬ Forall (present h params) (requiredParams e) →
     method e fuel this params callback h
     = Some (CallCallback (chosen callback) [VError (requiredParams e)],
             shallow_copy h params)).
Proof.
  intros Hcall. split.
  - intros Hreq.
    destruct (method_builds e fuel this params callback h Hcall Hreq)
      as (p & o & d & c & h' & (Hrun & _) & _).
    by exists p, h'.
  - destruct Hcall as (Hc & Hv & _). by apply method_rejects.
Qed.

(** [translate] with [text] and nothing else: no [model_id], no [source],
    no [target], and yet a request. *)
Lemma validation_is_presence_check_witness :
  callable 2 1 (VRef 4) example_store ∧
  ¬ present example_store (VRef 4) "model_id" ∧
  ¬ present example_store (VRef 4) "source" ∧
  ¬ present example_store (VRef 4) "target" ∧
  ∃ p h', translate 2 1 (VRef 4) VUndefined example_store
          = Some (CreateRequest (VRef p) NoopCallback, h').
Proof.
  assert (Hcall : callable 2 1 (VRef 4) example_store)
    by (apply example_callable; vm_compute; reflexivity).
  split_and!; [exact Hcall|by intros H; apply H; vm_compute..|].
  destruct (validation_is_presence_check Translate 2 1 (VRef 4) VUndefined
              example_store Hcall) as [Hbuild _].
  apply Hbuild. apply Forall_singleton. intros H. vm_compute in H. discriminate.
Defined.

(** C2: every method, its presence check passed (or at once, for the two
    methods without one), ends in [createRequest(parameters, _callback)], on
    the new object [parameters = {options, defaultOptions}] and the caller's
    callback, and returns what [createRequest] returns, whatever that
    function does. *)
Theorem delegates_to_createRequest
    (createRequest : value → handler → heap → value * heap)
    (call : value → list value → heap → value * heap)
    e fuel this params callback h :
  callable fuel this params h → Forall (present h params) (requiredParams e) →
  ∃ p o d c h',
    builds (method e fuel this params callback) h (handler_of e h params callback)
      p o d c h' ∧
    returns createRequest call (method e fuel this params callback) h
    = Some (createRequest (VRef p) (handler_of e h params callback) h').
Proof.
  intros Hcall Hreq.
  destruct (method_builds e fuel this params callback h Hcall Hreq)
    as (p & o & d & c & h' & Hb & _).
  exists p, o, d, c, h'. split; [done|].
  destruct Hb as (Hrun & _). unfold returns. by rewrite Hrun.
Qed.

Lemma delegates_to_createRequest_witness :
  callable 2 1 (VRef 6) example_store ∧
  Forall (present example_store (VRef 6)) (requiredParams ListModels) ∧
  ∃ p o d c h',
    builds (listModels 2 1 (VRef 6) VUndefined) example_store
      (UserCallback (VRef 6)) p o d c h' ∧
    returns (λ _ _ h, (VNull, h)) (λ _ _ h, (VNull, h))
      (listModels 2 1 (VRef 6) VUndefined) example_store
    = Some (VNull, h').
Proof.
  assert (Hcall : callable 2 1 (VRef 6) example_store)
    by (apply example_callable; vm_compute; reflexivity).
  split_and!; [exact Hcall|apply Forall_nil_2|].
  apply (delegates_to_createRequest (λ _ _ h, (VNull, h)) (λ _ _ h, (VNull, h))
           ListModels 2 1 (VRef 6) VUndefined example_store Hcall).
  apply Forall_nil_2.
Defined.

(** C3: [translate], given [text], posts to [/v2/translate] a JSON body of
    exactly the fields [text], [model_id], [source] and [target], each
    holding what [params] holds under that name ([undefined] when it holds
    nothing), with [json] set and [application/json] for both default
    headers. *)
Theorem translate_request fuel this params callback h :
  callable fuel this params h → present h params "text" →
  ∃ p o b d c h',
    builds (translate fuel this params callback) h (chosen callback) p o d c h' ∧
    h' !! o = Some (Obj KPlain [("url", VStr "/v2/translate");
                                ("method", VStr "POST");
                                ("json", VBool true); ("body", VRef b)]) ∧
    h' !! b = Some (Obj KPlain [("text", get h params "text");
                                ("model_id", get h params "model_id");
                                ("source", get h params "source");
                                ("target", get h params "target")]) ∧
    get h' (VRef c) "Accept" = VStr "application/json" ∧
    get h' (VRef c) "Content-Type" = VStr "application/json".
Proof.
  intros Hcall Hreq.
  destruct (translate_spec fuel this params callback h Hcall Hreq)
    as (p & o & b & d & c & h' & Hb & Ho & Hbody & _ & Ha & Hct).
  by exists p, o, b, d, c, h'.
Qed.

Lemma translate_request_witness :
  callable 2 1 (VRef 4) example_store ∧
  present example_store (VRef 4) "text" ∧
  ∃ p o b d c h',
    builds (translate 2 1 (VRef 4) VUndefined) example_store NoopCallback
      p o d c h' ∧
    h' !! o = Some (Obj KPlain [("url", VStr "/v2/translate");
                                ("method", VStr "POST");
                                ("json", VBool true); ("body", VRef b)]) ∧
    h' !! b = Some (Obj KPlain [("text", VRef 5);
                                ("model_id", VUndefined);
                                ("source", VUndefined);
                                ("target", VUndefined)]) ∧
    get h' (VRef c) "Accept" = VStr "application/json" ∧
    get h' (VRef c) "Content-Type" = VStr "application/json".
Proof.
  assert (Hcall : callable 2 1 (VRef 4) example_store)
    by (apply example_callable; vm_compute; reflexivity).
  assert (Hreq : present example_store (VRef 4) "text")
    by (intros H; vm_compute in H; discriminate).
  split_and!; [exact Hcall|exact Hreq|].
  exact (translate_request 2 1 (VRef 4) VUndefined example_store Hcall Hreq).
Defined.

(** C4: [listModels] sends [source] and [target] under their own names and
    [default_models] under [default], in the query string of a GET to
    [/v2/models]; [createModel] sends [base_model_id] and [name] in that of a
    POST to [/v2/models]; neither query string holds anything else.  (The
    fields of [listModels] read [undefined] when a function was passed for
    [params] and taken as the callback.) *)
Theorem query_string_fields fuel this params callback h :
  callable fuel this params h →
  (∃ p o q d c h',
     builds (listModels fuel this params callback) h
       (chosen_first h params callback) p o d c h' ∧
     h' !! o = Some (Obj KPlain [("url", VStr "/v2/models");
                                 ("method", VStr "GET"); ("qs", VRef q)]) ∧
     h' !! q = Some (Obj KPlain
                       [("source", field h params callback "source");
                        ("target", field h params callback "target");
                        ("default", field h params callback "default_models")]) ∧
     (shifted h params callback = false →
      ∀ name, field h params callback name = get h params name))
  ∧ (present h params "base_model_id" →
     ∃ p o q f d c h',
       builds (createModel fuel this params callback) h (chosen callback)
         p o d c h' ∧
       h' !! o = Some (Obj KPlain [("url", VStr "/v2/models");
                                   ("method", VStr "POST");
                                   ("qs", VRef q); ("formData", VRef f)]) ∧
       h' !! q = Some (Obj KPlain
                         [("base_model_id", get h params "base_model_id");
                          ("name", get h params "name")])).
Proof.
  intros Hcall. split.
  - destruct (listModels_spec fuel this params callback h Hcall)
      as (p & o & q & d & c & h' & Hb & Ho & Hq & _).
    exists p, o, q, d, c, h'. split_and!; try done.
    intros Hs name. unfold field. by rewrite Hs.
  - intros Hreq.
    destruct (createModel_spec fuel this params callback h Hcall Hreq)
      as (p & o & q & f & f1 & f2 & f3 & d & c & h' & Hb & Ho & Hq & _).
    by exists p, o, q, f, d, c, h'.
Qed.

Lemma query_string_fields_witness :
  callable 2 1 (VRef 8) example_store ∧
  present example_store (VRef 8) "base_model_id" ∧
  (∃ p o q d c h',
     builds (listModels 2 1 (VRef 8) (VRef 6)) example_store
       (UserCallback (VRef 6)) p o d c h' ∧
     h' !! o = Some (Obj KPlain [("url", VStr "/v2/models");
                                 ("method", VStr "GET"); ("qs", VRef q)]) ∧
     h' !! q = Some (Obj KPlain [("source", VUndefined);
                                 ("target", VUndefined);
                                 ("default", VUndefined)]))
  ∧ (∃ p o q f d c h',
       builds (createModel 2 1 (VRef 8) (VRef 6)) example_store
         (UserCallback (VRef 6)) p o d c h' ∧
       h' !! o = Some (Obj KPlain [("url", VStr "/v2/models");
                                   ("method", VStr "POST");
                                   ("qs", VRef q); ("formData", VRef f)]) ∧
       h' !! q = Some (Obj KPlain [("base_model_id", VStr "en-es");
                                   ("name", VStr "mine")])).
Proof.
  assert (Hcall : callable 2 1 (VRef 8) example_store)
    by (apply example_callable; vm_compute; reflexivity).
  assert (Hreq : present example_store (VRef 8) "base_model_id")
    by (intros H; vm_compute in H; discriminate).
  destruct (query_string_fields 2 1 (VRef 8) (VRef 6) example_store Hcall)
    as [Hlist Hcreate].
  split_and!; [exact Hcall|exact Hreq| |exact (Hcreate Hreq)].
  destruct Hlist as (p & o & q & d & c & h' & Hb & Ho & Hq & _).
  by exists p, o, q, d, c, h'.
Defined.

(** C5: given [model_id], [deleteModel] and [getModel] build a request on
    [/v2/models/{model_id}] whose path holds [model_id] alone, with
    [Accept: application/json]; the store [getModel] leaves is the one
    [deleteModel] leaves with [GET] for [DELETE] in [options.method], and
    both hand the same [parameters] to [createRequest]. *)
Theorem model_requests_differ_in_method fuel this params callback h :
  callable fuel this params h → present h params "model_id" →
  ∃ p o a d c h',
    builds (deleteModel fuel this params callback) h (chosen callback)
      p o d c h' ∧
    h' !! o = Some (Obj KPlain [("url", VStr "/v2/models/{model_id}");
                                ("method", VStr "DELETE"); ("path", VRef a)]) ∧
    h' !! a = Some (Obj KPlain [("model_id", get h params "model_id")]) ∧
    get h' (VRef c) "Accept" = VStr "application/json" ∧
    getModel fuel this params callback h
      = Some (CreateRequest (VRef p) (chosen callback),
              setProperty h' o "method" (VStr "GET")) ∧
    setProperty h' o "method" (VStr "GET") !! o
      = Some (Obj KPlain [("url", VStr "/v2/models/{model_id}");
                          ("method", VStr "GET"); ("path", VRef a)]).
Proof.
  intros Hcall Hreq.
  destruct (deleteModel_getModel fuel this params callback h Hcall Hreq)
    as (p & o & a & d & c & h' & Hb & Ho & Ha & Hacc & Hget).
  exists p, o, a, d, c, h'. split_and!; try done.
  by rewrite setProperty_lookup_eq, Ho.
Qed.

Lemma model_requests_differ_in_method_witness :
  callable 2 1 (VRef 7) example_store ∧
  present example_store (VRef 7) "model_id" ∧
  ∃ p o a d c h',
    builds (deleteModel 2 1 (VRef 7) (VRef 6)) example_store
      (UserCallback (VRef 6)) p o d c h' ∧
    h' !! o = Some (Obj KPlain [("url", VStr "/v2/models/{model_id}");
                                ("method", VStr "DELETE"); ("path", VRef a)]) ∧
    h' !! a = Some (Obj KPlain [("model_id", VStr "en-es-conversational")]) ∧
    get h' (VRef c) "Accept" = VStr "application/json" ∧
    getModel 2 1 (VRef 7) (VRef 6) example_store
      = Some (CreateRequest (VRef p) (UserCallback (VRef 6)),
              setProperty h' o "method" (VStr "GET")) ∧
    setProperty h' o "method" (VStr "GET") !! o
      = Some (Obj KPlain [("url", VStr "/v2/models/{model_id}");
                          ("method", VStr "GET"); ("path", VRef a)]).
Proof.
  assert (Hcall : callable 2 1 (VRef 7) example_store)
    by (apply example_callable; vm_compute; reflexivity).
  assert (Hreq : present example_store (VRef 7) "model_id")
    by (intros H; vm_compute in H; discriminate).
  split_and!; [exact Hcall|exact Hreq|].
  exact (model_requests_differ_in_method 2 1 (VRef 7) (VRef 6) example_store
           Hcall Hreq).
Defined.

(** C6: given [base_model_id], [createModel] assembles a form of exactly
    the parts [forced_glossary], [parallel_corpus] and [monolingual_corpus],
    each wrapping what [params] holds under that name, there or not, with
    content types [application/octet-stream], [application/octet-stream] and
    [text/plain], and defaults [Content-Type] to [multipart/form-data]. *)
Theorem createModel_form_data fuel this params callback h :
  callable fuel this params h → present h params "base_model_id" →
  ∃ p o q f f1 f2 f3 d c h',
    builds (createModel fuel this params callback) h (chosen callback)
      p o d c h' ∧
    h' !! o = Some (Obj KPlain [("url", VStr "/v2/models");
                                ("method", VStr "POST");
                                ("qs", VRef q); ("formData", VRef f)]) ∧
    h' !! f = Some (Obj KPlain [("forced_glossary", VRef f1);
                                ("parallel_corpus", VRef f2);
                                ("monolingual_corpus", VRef f3)]) ∧
    h' !! f1 = Some (Obj KPlain [("data", get h params "forced_glossary");
                                 ("contentType", VStr "application/octet-stream")]) ∧
    h' !! f2 = Some (Obj KPlain [("data", get h params "parallel_corpus");
                                 ("contentType", VStr "application/octet-stream")]) ∧
    h' !! f3 = Some (Obj KPlain [("data", get h params "monolingual_corpus");
                                 ("contentType", VStr "text/plain")]) ∧
    get h' (VRef c) "Content-Type" = VStr "multipart/form-data".
Proof.
  intros Hcall Hreq.
  destruct (createModel_spec fuel this params callback h Hcall Hreq)
    as (p & o & q & f & f1 & f2 & f3 & d & c & h' & Hb & Ho & _ & Hf & Hf1 & Hf2
        & Hf3 & _ & Hct).
  by exists p, o, q, f, f1, f2, f3, d, c, h'.
Qed.

Lemma createModel_form_data_witness :
  callable 2 1 (VRef 8) example_store ∧
  present example_store (VRef 8) "base_model_id" ∧
  ∃ p o q f f1 f2 f3 d c h',
    builds (createModel 2 1 (VRef 8) VUndefined) example_store NoopCallback
      p o d c h' ∧
    h' !! o = Some (Obj KPlain [("url", VStr "/v2/models");
                                ("method", VStr "POST");
                                ("qs", VRef q); ("formData", VRef f)]) ∧
    h' !! f = Some (Obj KPlain [("forced_glossary", VRef f1);
                                ("parallel_corpus", VRef f2);
                                ("monolingual_corpus", VRef f3)]) ∧
    h' !! f1 = Some (Obj KPlain [("data", VUndefined);
                                 ("contentType", VStr "application/octet-stream")]) ∧
    h' !! f2 = Some (Obj KPlain [("data", VUndefined);
                                 ("contentType", VStr "application/octet-stream")]) ∧
    h' !! f3 = Some (Obj KPlain [("data", VUndefined);
                                 ("contentType", VStr "text/plain")]) ∧
    get h' (VRef c) "Content-Type" = VStr "multipart/form-data".
Proof.
  assert (Hcall : callable 2 1 (VRef 8) example_store)
    by (apply example_callable; vm_compute; reflexivity).
  assert (Hreq : present example_store (VRef 8) "base_model_id")
    by (intros H; vm_compute in H; discriminate).
  split_and!; [exact Hcall|exact Hreq|].
  exact (createModel_form_data 2 1 (VRef 8) VUndefined example_store Hcall Hreq).
Defined.

Lemma serves_intro e fuel this params h :
  callable fuel this params h → Forall (present h params) (requiredParams e) →
  serves e (verb_of e) (url_of e) (accept_of e).
Proof.
  intros Hcall Hreq.
  destruct (method_builds e fuel this params VUndefined h Hcall Hreq)
    as (p & o & d & c & h' & (Hrun & _ & _ & _ & _ & _ & Hp & Hd) & Hm & Hu & Ha).
  exists fuel, this, params, VUndefined, h, p, (handler_of e h params VUndefined),
    h', o, d, c.
  split_and!; try done.
  - by rewrite (get_lookup h' p _ _ Hp).
  - by rewrite (get_lookup h' p _ _ Hp).
Qed.

Lemma serves_inv e verb url accept :
  serves e verb url accept →
  verb = verb_of e ∧ url = url_of e ∧ accept = accept_of e.
Proof.
  intros (fuel & this & params & callback & h & p & cb & h' & o & d & c & Hcall
          & Hrun & Hpo & Hm & Hu & Hpd & Hdc & Ha).
  destruct (decide (Forall (present h params) (requiredParams e))) as [Hreq|Hreq].
  - destruct (method_builds e fuel this params callback h Hcall Hreq)
      as (p0 & o0 & d0 & c0 & h0 & (Hrun0 & _ & _ & _ & _ & _ & Hp0 & Hd0)
          & Hm0 & Hu0 & Ha0).
    rewrite Hrun in Hrun0.
    assert (p0 = p ∧ h0 = h') as [-> ->] by (split; congruence).
    rewrite (get_lookup h' p _ _ Hp0) in Hpo.
    rewrite (get_lookup h' p _ _ Hp0) in Hpd. simpl in Hpo, Hpd.
    assert (o0 = o) as -> by congruence.
    assert (d0 = d) as -> by congruence.
    assert (c0 = c) as -> by congruence.
    split_and!; congruence.
  - destruct Hcall as (Hc & Hv & _).
    rewrite (method_rejects e fuel this params callback h Hc Hv Hreq) in Hrun.
    discriminate.
Qed.

(** C7, as the spec has it, fails: [identify] and [identifyPlain] both build
    a POST to [/v2/identify]. *)
Lemma one_method_per_endpoint_fails :
  targets Identify "POST" "/v2/identify" ∧
  targets IdentifyPlain "POST" "/v2/identify" ∧
  Identify ≠ IdentifyPlain ∧
  ¬ (∀ verb url e1 e2, targets e1 verb url → targets e2 verb url → e1 = e2).
Proof.
  assert (Hcall : callable 2 1 (VRef 9) example_store)
    by (apply example_callable; vm_compute; reflexivity).
  assert (Hreq : Forall (present example_store (VRef 9)) ["text"]).
  { apply Forall_singleton. intros H. vm_compute in H. discriminate. }
  assert (H1 : targets Identify "POST" "/v2/identify").
  { exists "application/json".
    apply (serves_intro Identify 2 1 (VRef 9) example_store Hcall Hreq). }
  assert (H2 : targets IdentifyPlain "POST" "/v2/identify").
  { exists "text/plain".
    apply (serves_intro IdentifyPlain 2 1 (VRef 9) example_store Hcall Hreq). }
  split_and!; [exact H1|exact H2|discriminate|].
  intros Hone. by pose proof (Hone _ _ _ _ H1 H2).
Qed.

(** C7, amended: two methods that build a request of the same HTTP method
    to the same URL are one method, unless the URL is [/v2/identify], which
    [identify] and [identifyPlain] both post to, asking for different
    [Accept] types. *)
Theorem one_method_per_endpoint_and_accept e1 e2 verb url accept1 accept2 :
  serves e1 verb url accept1 → serves e2 verb url accept2 →
  e1 = e2 ∨
  (verb = "POST" ∧ url = "/v2/identify" ∧ accept1 ≠ accept2 ∧
   ((e1 = Identify ∧ e2 = IdentifyPlain) ∨ (e1 = IdentifyPlain ∧ e2 = Identify))).
Proof.
  intros (-> & -> & ->)%serves_inv (Hv & Hu & ->)%serves_inv.
  destruct e1, e2; simpl in *; try discriminate; try (by left);
    right; split_and!; try done; auto.
Qed.

Lemma one_method_per_endpoint_and_accept_witness :
  serves Translate "POST" "/v2/translate" "application/json" ∧
  serves IdentifyPlain "POST" "/v2/identify" "text/plain" ∧
  serves Identify "POST" "/v2/identify" "application/json" ∧
  (Translate = Translate ∨
   ("POST" = "POST" ∧ "/v2/translate" = "/v2/identify" ∧
    "application/json" ≠ "application/json" ∧
    ((Translate = Identify ∧ Translate = IdentifyPlain)
     ∨ (Translate = IdentifyPlain ∧ Translate = Identify)))) ∧
  (IdentifyPlain = Identify ∨
   ("POST" = "POST" ∧ "/v2/identify" = "/v2/identify" ∧
    "text/plain" ≠ "application/json" ∧
    ((IdentifyPlain = Identify ∧ Identify = IdentifyPlain)
     ∨ (IdentifyPlain = IdentifyPlain ∧ Identify = Identify)))).
Proof.
  assert (Hcall4 : callable 2 1 (VRef 4) example_store)
    by (apply example_callable; vm_compute; reflexivity).
  assert (Hcall9 : callable 2 1 (VRef 9) example_store)
    by (apply example_callable; vm_compute; reflexivity).
  assert (Hreq4 : Forall (present example_store (VRef 4)) ["text"]).
  { apply Forall_singleton. intros H. vm_compute in H. discriminate. }
  assert (Hreq9 : Forall (present example_store (VRef 9)) ["text"]).
  { apply Forall_singleton. intros H. vm_compute in H. discriminate. }
  pose proof (serves_intro Translate 2 1 (VRef 4) example_store Hcall4 Hreq4)
    as Ht.
  pose proof (serves_intro IdentifyPlain 2 1 (VRef 9) example_store Hcall9 Hreq9)
    as Hp.
  pose proof (serves_intro Identify 2 1 (VRef 9) example_store Hcall9 Hreq9)
    as Hi.
  split_and!; [exact Ht|exact Hp|exact Hi| |].
  - exact (one_method_per_endpoint_and_accept _ _ _ _ _ _ Ht Ht).
  - exact (one_method_per_endpoint_and_accept _ _ _ _ _ _ Hp Hi).
Defined.

Lemma get_defined_dom h l name : get h (VRef l) name ≠ VUndefined → l ∈ dom h.
Proof.
  unfold get. simpl. intros Hg. apply elem_of_dom.
  destruct (h !! l); [done|]. by destruct Hg.
Qed.

(** C8: on the same arguments, [identify] and [identifyPlain] build the same
    request, a POST to [/v2/identify] of [params.text], [json] unset,
    [Content-Type: text/plain], but for [Accept]: the store [identifyPlain]
    leaves is the one [identify] leaves with [text/plain] for
    [application/json] under [Accept], in the header literal [hd] and in the
    merged headers [c], and nowhere else. *)
Theorem identify_and_identifyPlain fuel this params callback h :
  callable fuel this params h → present h params "text" →
  ∃ p o d c hd h1 h2,
    builds (identify fuel this params callback) h (chosen callback) p o d c h1 ∧
    identifyPlain fuel this params callback h
      = Some (CreateRequest (VRef p) (chosen callback), h2) ∧
    h2 = setProperty (setProperty h1 hd "Accept" (VStr "text/plain"))
           c "Accept" (VStr "text/plain") ∧
    h1 !! hd = Some (Obj KPlain [("Accept", VStr "application/json");
                                 ("Content-Type", VStr "text/plain")]) ∧
    (hd ∉ dom h) ∧
    h1 !! o = Some (Obj KPlain [("url", VStr "/v2/identify");
                                ("method", VStr "POST");
                                ("json", VBool false);
                                ("body", get h params "text")]) ∧
    h2 !! o = h1 !! o ∧ h2 !! p = h1 !! p ∧
    get h1 (VRef c) "Content-Type" = VStr "text/plain" ∧
    get h2 (VRef c) "Content-Type" = VStr "text/plain" ∧
    get h1 (VRef c) "Accept" = VStr "application/json" ∧
    get h2 (VRef c) "Accept" = VStr "text/plain".
Proof.
  intros Hcall Hreq.
  destruct (identify_identifyPlain fuel this params callback h Hcall Hreq)
    as (p & o & d & c & hd & h1 & Hb & Ho & Ha & Hct & Hhd & Hhdn & Hohd & Hoc
        & Hphd & Hpc & Hplain).
  exists p, o, d, c, hd, h1,
    (setProperty (setProperty h1 hd "Accept" (VStr "text/plain"))
       c "Accept" (VStr "text/plain")).
  split_and!; try done.
  - by rewrite !setProperty_lookup_ne.
  - by rewrite !setProperty_lookup_ne.
  - by rewrite !get_setProperty_ne_key.
  - apply get_setProperty_eq. rewrite setProperty_dom.
    apply (get_defined_dom h1 c "Accept"). by rewrite Ha.
Qed.

Lemma identify_and_identifyPlain_witness :
  callable 2 1 (VRef 9) example_store ∧
  present example_store (VRef 9) "text" ∧
  ∃ p o d c hd h1 h2,
    builds (identify 2 1 (VRef 9) VUndefined) example_store NoopCallback
      p o d c h1 ∧
    identifyPlain 2 1 (VRef 9) VUndefined example_store
      = Some (CreateRequest (VRef p) NoopCallback, h2) ∧
    h2 = setProperty (setProperty h1 hd "Accept" (VStr "text/plain"))
           c "Accept" (VStr "text/plain") ∧
    h1 !! hd = Some (Obj KPlain [("Accept", VStr "application/json");
                                 ("Content-Type", VStr "text/plain")]) ∧
    (hd ∉ dom example_store) ∧
    h1 !! o = Some (Obj KPlain [("url", VStr "/v2/identify");
                                ("method", VStr "POST");
                                ("json", VBool false);
                                ("body", VStr "this is a test")]) ∧
    h2 !! o = h1 !! o ∧ h2 !! p = h1 !! p ∧
    get h1 (VRef c) "Content-Type" = VStr "text/plain" ∧
    get h2 (VRef c) "Content-Type" = VStr "text/plain" ∧
    get h1 (VRef c) "Accept" = VStr "application/json" ∧
    get h2 (VRef c) "Accept" = VStr "text/plain".
Proof.
  assert (Hcall : callable 2 1 (VRef 9) example_store)
    by (apply example_callable; vm_compute; reflexivity).
  assert (Hreq : present example_store (VRef 9) "text")
    by (intros H; vm_compute in H; discriminate).
  split_and!; [exact Hcall|exact Hreq|].
  exact (identify_and_identifyPlain 2 1 (VRef 9) VUndefined example_store
           Hcall Hreq).
Defined.

(** C9: no method writes to an object that was there before the call: the
    store it hands to [createRequest], or to the callback, keeps every
    object of the caller's store, [params] and [this._options] among them;
    what a method builds is new. *)
Theorem methods_preserve_store e fuel this params callback h :
  callable fuel this params h →
  ∃ tc h',
    method e fuel this params callback h = Some (tc, h') ∧
    preserves h h' ∧
    (∀ l, params = VRef l → h' !! l = h !! l) ∧
    h' !! this = h !! this ∧
    (∀ l, get h (VRef this) "_options" = VRef l → h' !! l = h !! l) ∧
    get h' (VRef this) "_options" = get h (VRef this) "_options" ∧
    (∀ p cb, tc = CreateRequest (VRef p) cb →
             (p ∉ dom h) ∧ ∃ o d c,
               h' !! p = Some (parameters_of o d) ∧
               get h' (VRef d) "headers" = VRef c ∧
               (o ∉ dom h) ∧ (d ∉ dom h) ∧ (c ∉ dom h)).
Proof.
  intros Hcall.
  assert (Hall : ∀ tc h', method e fuel this params callback h = Some (tc, h') →
            preserves h h' →
            preserves h h' ∧
            (∀ l, params = VRef l → h' !! l = h !! l) ∧
            h' !! this = h !! this ∧
            (∀ l, get h (VRef this) "_options" = VRef l → h' !! l = h !! l) ∧
            get h' (VRef this) "_options" = get h (VRef this) "_options").
  { intros tc h' _ Hp. destruct Hcall as (Hc & Hv & Hthis & _).
    split_and!; try done.
    - intros l ->. by apply Hp.
    - by apply Hp.
    - intros l Hl. apply Hp.
      pose proof (closed_get_valid h (VRef this) "_options" Hc) as Hval.
      by rewrite Hl in Hval.
    - apply get_agree. intros l [= <-]. by apply Hp. }
  destruct (decide (Forall (present h params) (requiredParams e))) as [Hreq|Hreq].
  - destruct (method_builds e fuel this params callback h Hcall Hreq)
      as (p & o & d & c & h' & (Hrun & Hp & Hpn & Hon & Hdn & Hcn & Hlp & Hgd) & _).
    exists (CreateRequest (VRef p) (handler_of e h params callback)), h'.
    destruct (Hall _ _ Hrun Hp) as (? & ? & ? & ? & ?).
    split_and!; try done.
    intros p0 cb [= <- <-]. split; [done|]. by exists o, d, c.
  - destruct Hcall as (Hc & Hv & Hthis & Hrest).
    pose proof (method_rejects e fuel this params callback h Hc Hv Hreq) as Hrun.
    eexists _, _. split; [exact Hrun|].
    destruct (Hall _ _ Hrun (shallow_copy_preserves h params)) as (? & ? & ? & ? & ?).
    split_and!; try done.
Qed.

Lemma methods_preserve_store_witness :
  callable 2 1 (VRef 4) example_store ∧
  ∃ tc h',
    translate 2 1 (VRef 4) (VRef 6) example_store = Some (tc, h') ∧
    preserves example_store h' ∧
    (∀ l, VRef 4 = VRef l → h' !! l = example_store !! l) ∧
    h' !! 1%positive = example_store !! 1%positive ∧
    (∀ l, get example_store (VRef 1) "_options" = VRef l →
          h' !! l = example_store !! l) ∧
    get h' (VRef 1) "_options" = get example_store (VRef 1) "_options" ∧
    (∀ p cb, tc = CreateRequest (VRef p) cb →
             (p ∉ dom example_store) ∧ ∃ o d c,
               h' !! p = Some (parameters_of o d) ∧
               get h' (VRef d) "headers" = VRef c ∧
               (o ∉ dom example_store) ∧ (d ∉ dom example_store) ∧
               (c ∉ dom example_store)).
Proof.
  assert (Hcall : callable 2 1 (VRef 4) example_store)
    by (apply example_callable; vm_compute; reflexivity).
  split; [exact Hcall|].
  exact (methods_preserve_store Translate 2 1 (VRef 4) (VRef 6) example_store
           Hcall).
Defined.

(** C10, as the spec has it, fails: [listModels] called with a function for
    [params] and no callback takes the function for its callback, not a
    no-op. *)
Lemma omitted_callback_is_noop_fails :
  callable 2 1 (VRef 6) example_store ∧
  (∃ p h', listModels 2 1 (VRef 6) VUndefined example_store
           = Some (CreateRequest (VRef p) (UserCallback (VRef 6)), h')) ∧
  ¬ (∀ e fuel this params h tc h',
       callable fuel this params h →
       method e fuel this params VUndefined h = Some (tc, h') →
       handler_in tc = NoopCallback).
Proof.
  assert (Hcall : callable 2 1 (VRef 6) example_store)
    by (apply example_callable; vm_compute; reflexivity).
  destruct (method_builds ListModels 2 1 (VRef 6) VUndefined example_store Hcall)
    as (p & o & d & c & h' & (Hrun & _) & _); [apply Forall_nil_2|].
  split_and!; [exact Hcall|by exists p, h'|].
  intros Hnoop.
  pose proof (Hnoop ListModels _ _ _ _ _ _ Hcall Hrun) as Hh. discriminate Hh.
Qed.

(** C10, amended: with the callback left out, a method whose required
    parameter is missing returns [undefined] and calls neither
    [createRequest] nor anything of the caller's: the error goes to a no-op.
    Every method takes that no-op for its callback then, except the two
    without required parameters when a function is passed for [params],
    which they take for the callback. *)
Theorem omitted_callback_is_noop
    (createRequest : value → handler → heap → value * heap)
    (call : value → list value → heap → value * heap)
    e fuel this params h :
  callable fuel this params h →
  (requiredParams e ≠ [] ∨ isFunction h params = false →
   ∃ tc h', method e fuel this params VUndefined h = Some (tc, h') ∧
            handler_in tc = NoopCallback)
  ∧ (¬ Forall (present h params) (requiredParams e) →
     method e fuel this params VUndefined h
     = Some (CallCallback NoopCallback [VError (requiredParams e)],
             shallow_copy h params) ∧
     returns createRequest call (method e fuel this params VUndefined) h
     = Some (VUndefined, shallow_copy h params)).
Proof.
  intros Hcall. split.
  - intros Hnf.
    destruct (decide (Forall (present h params) (requiredParams e))) as [Hreq|Hreq].
    + destruct (method_builds e fuel this params VUndefined h Hcall Hreq)
        as (p & o & d & c & h' & (Hrun & _) & _).
      eexists _, _. split; [exact Hrun|]. unfold handler_in.
      destruct e; try reflexivity; unfold handler_of, chosen_first, shifted;
        (destruct Hnf as [Hnf|Hnf]; [by destruct Hnf|by rewrite Hnf]).
    + destruct Hcall as (Hc & Hv & _).
      rewrite (method_rejects e fuel this params VUndefined h Hc Hv Hreq).
      by eexists _, _.
  - intros Hreq. destruct Hcall as (Hc & Hv & _). unfold returns.
    by rewrite (method_rejects e fuel this params VUndefined h Hc Hv Hreq).
Qed.

Lemma omitted_callback_is_noop_witness :
  callable 2 1 (VRef 10) example_store ∧
  ¬ Forall (present example_store (VRef 10)) (requiredParams CreateModel) ∧
  (∃ tc h', createModel 2 1 (VRef 10) VUndefined example_store = Some (tc, h') ∧
            handler_in tc = NoopCallback) ∧
  createModel 2 1 (VRef 10) VUndefined example_store
  = Some (CallCallback NoopCallback [VError ["base_model_id"]],
          shallow_copy example_store (VRef 10)) ∧
  returns (λ _ _ h, (VStr "request", h)) (λ _ _ h, (VStr "called", h))
    (createModel 2 1 (VRef 10) VUndefined) example_store
  = Some (VUndefined, shallow_copy example_store (VRef 10)).
Proof.
  assert (Hcall : callable 2 1 (VRef 10) example_store)
    by (apply example_callable; vm_compute; reflexivity).
  assert (Hreq : ¬ Forall (present example_store (VRef 10))
                     (requiredParams CreateModel)).
  { intros [Hp _]%Forall_cons. apply Hp. vm_compute. reflexivity. }
  destruct (omitted_callback_is_noop
              (λ _ _ h, (VStr "request", h)) (λ _ _ h, (VStr "called", h))
              CreateModel 2 1 (VRef 10) example_store Hcall) as [Hnoop Hrej].
  split_and!; [exact Hcall|exact Hreq| |apply (Hrej Hreq)..].
  apply Hnoop. left. discriminate.
Defined.

(** * Further properties *)

(** ** A deep copy stays one while the store changes elsewhere *)

Lemma mirrors_weaken h0 h1 A A' v w :
  mirrors h0 h1 A v w → A ⊆ A' → mirrors h0 h1 A' v w.
Proof.
  intros Hm. revert A'. induction Hm as [A v Hr|A v x Hr Hx Hk Hch IH]; intros A' HA.
  - by constructor.
  - constructor; [done|by apply HA|done|].
    intros name. apply IH. clear -HA. set_unfold. intros l [? ?]. auto.
Qed.

Lemma mirrors_stable h0 h1 h1' A v w :
  mirrors h0 h1 A v w → (∀ l, l ∈ A → h1' !! l = h1 !! l) →
  mirrors h0 h1' A v w.
Proof.
  induction 1 as [A v Hr|A v x Hr Hx Hk Hch IH]; intros Hag.
  - by constructor.
  - constructor; [done|done| |].
    + rewrite <-Hk. apply kind_of_agree. intros l [= <-]. by apply Hag.
    + intros name. rewrite (get_agree h1 h1') by (intros l [= <-]; by apply Hag).
      apply IH. intros l Hl. apply Hag. by apply elem_of_difference in Hl as [? _].
Qed.

Lemma mirrors_base F h0 h0' h1 A v w :
  framed h0' F → within F v → (∀ l, l ∈ F → h0 !! l = h0' !! l) →
  mirrors h0 h1 A v w → mirrors h0' h1 A v w.
Proof.
  intros HF Hv Hag Hm. induction Hm as [A v Hr|A v x Hr Hx Hk Hch IH].
  - constructor. rewrite <-Hr. symmetry. apply recursable_agree.
    intros l ->. by apply Hag.
  - assert (Hag' : ∀ l, v = VRef l → h0 !! l = h0' !! l).
    { intros l ->. by apply Hag. }
    constructor; [|done| |].
    + rewrite <-Hr. symmetry. by apply recursable_agree.
    + rewrite Hk. by apply kind_of_agree.
    + intros name. rewrite <-(get_agree h0' h0) by done.
      apply IH. rewrite (get_agree h0' h0) by done. by apply within_get.
Qed.

Lemma string_props_keys s : NoDup (string_props s).*1.
Proof.
  unfold string_props. rewrite fmap_imap.
  rewrite (imap_ext _ (λ i _, pretty i)) by done.
  rewrite (imap_seq_0 _ (λ i, pretty i)).
  apply NoDup_fmap_2; [apply _|apply NoDup_seq].
Qed.

Lemma keys_distinct F h v :
  sources_distinct F h → within F v → NoDup (keys h v).
Proof.
  intros Hs Hv. unfold keys. destruct v as [| | | |s| |l]; simpl;
    try apply NoDup_nil_2.
  - apply string_props_keys.
  - destruct (h !! l) as [o|] eqn:Ho; [|apply NoDup_nil_2]. by apply (Hs l o).
Qed.

Lemma within_subseteq G F v : G ⊆ F → within G v → within F v.
Proof. intros HGF. destruct v; simpl; try done. apply HGF. Qed.

Lemma sources_own_props G h v k c :
  sources_distinct G h → within G v → (k, c) ∈ own_props h v → within G c.
Proof.
  intros Hs Hv. destruct v as [| | | |s| |l]; simpl; try by intros ?%elem_of_nil.
  - unfold string_props. intros (i & a & Heq & _)%elem_of_lookup_imap.
    by simplify_eq.
  - destruct (h !! l) as [o|] eqn:Ho; [|by intros ?%elem_of_nil].
    intros Hin. destruct c; try done. simpl. by apply (Hs l o Hv Ho) in Hin.
Qed.

Lemma sources_get G h v name :
  sources_distinct G h → within G v → within G (get h v name).
Proof.
  intros Hs Hv. destruct (get_undefined_or_own h v name) as [->|Hin]; [done|].
  by eapply sources_own_props.
Qed.

Lemma assoc_distinct k v (ps : list (string * value)) :
  NoDup ps.*1 → (k, v) ∈ ps → assoc k ps = Some v.
Proof.
  induction ps as [|[k' v'] ps IH]; simpl; intros Hnd Hin.
  - by apply elem_of_nil in Hin.
  - apply NoDup_cons in Hnd as [Hk' Hnd].
    apply elem_of_cons in Hin as [Heq|Hin].
    + simplify_eq. by rewrite decide_True.
    + rewrite decide_False; [by apply IH|].
      intros ->. apply Hk'. apply list_elem_of_fmap. by exists (k, v).
Qed.

Lemma get_not_key h v name : name ∉ keys h v → get h v name = VUndefined.
Proof.
  intros Hn. unfold get. destruct (assoc name (own_props h v)) eqn:E; [|done].
  apply assoc_elem_of in E. destruct Hn. apply list_elem_of_fmap.
  by exists (name, v0).
Qed.

Lemma sources_distinct_agree F h h' :
  sources_distinct F h → (∀ l, l ∈ F → h' !! l = h !! l) →
  sources_distinct F h'.
Proof. intros Hs Hag l o Hl Ho. rewrite Hag in Ho by done. by apply (Hs l o). Qed.

Section merge_copied.
Variable rec : loc → value → heap → option heap.
Variable okc : heap → value → Prop.
Variables F G : gset loc.

Hypothesis sources_framed : G ⊆ F.
Hypothesis rec_spec : ∀ h target c k h',
  framed h F → sources_distinct G h → h !! target = Some (Obj k []) →
  target ∉ F → within G c → rec target c h = Some h' →
  copied F h target c h' ∧ okc h c.
Hypothesis okc_agree : ∀ h h' c,
  framed h F → within F c → (∀ l, l ∈ F → h' !! l = h !! l) →
  okc h' c → okc h c.

Lemma merge_key_copied h target options name h' :
  framed h F → sources_distinct G h → target ∈ dom h → target ∉ F →
  within G options → get h (VRef target) name = VUndefined →
  merge_key rec true target options name h = Some h' →
  framed h' F ∧ dom h ⊆ dom h' ∧
  (∀ l, l ∈ dom h → l ≠ target → h' !! l = h !! l) ∧
  kind_of h' (VRef target) = kind_of h (VRef target) ∧
  mirrors h h' (dom h' ∖ dom h) (get h options name) (get h' (VRef target) name) ∧
  (∀ name', name' ≠ name →
            get h' (VRef target) name' = get h (VRef target) name') ∧
  (recursable h (get h options name) = true → okc h (get h options name)).
Proof.
  intros HF Hs Ht HtF HoptG Hsrc. unfold merge_key. rewrite Hsrc.
  assert (Hopt : within F options) by by apply (within_subseteq G).
  set (copy := get h options name) in *.
  assert (HcopyG : within G copy) by by apply sources_get.
  assert (Hcopy : within F copy) by by apply (within_subseteq G).
  assert (Hct : copy ≠ VRef target).
  { intros Heq. rewrite Heq in Hcopy. done. }
  rewrite decide_False by done.
  fold (recursable h copy). rewrite andb_true_l.
  destruct (truthy copy && recursable h copy) eqn:Hb.
  - apply andb_true_iff in Hb as [_ Hrec].
    set (k := if isArray h copy then KArray else KPlain).
    set (x := fresh_loc h). set (h1 := <[x := Obj k []]> h).
    assert (Hclone : clone_of h VUndefined copy = (x, h1)).
    { unfold clone_of, alloc_in. unfold h1, k. by destruct (isArray h copy). }
    rewrite Hclone.
    assert (Hx : x ∉ dom h) by apply fresh_loc_fresh.
    assert (HxF : x ∉ F).
    { intros Hin. by apply Hx, (framed_dom h F HF). }
    assert (Hxt : x ≠ target) by (by intros ->).
    assert (Hd1 : dom h1 = {[x]} ∪ dom h) by (unfold h1; by rewrite dom_insert_L).
    assert (Hp1 : preserves h h1) by apply preserves_insert_fresh.
    assert (HF1 : framed h1 F) by by apply framed_alloc.
    assert (Hag1 : ∀ l, l ∈ F → h1 !! l = h !! l).
    { intros l Hl. apply Hp1. by apply (framed_dom h F HF). }
    assert (Hs1 : sources_distinct G h1).
    { apply (sources_distinct_agree G h); [done|]. intros l Hl. by apply Hag1, sources_framed. }
    assert (Hl1 : h1 !! x = Some (Obj k [])) by (unfold h1; by rewrite lookup_insert_eq).
    destruct (rec x copy h1) as [h2|] eqn:Hrun; [|done].
    intros [= <-].
    destruct (rec_spec h1 x copy k h2 HF1 Hs1 Hl1 HxF HcopyG Hrun)
      as ((HF2 & Hd2 & H2 & Hk2 & reg & Hreg & _ & Hm) & Hok).
    assert (Hkx : kind_of h1 (VRef x) = kind_of h copy).
    { simpl. rewrite Hl1. simpl. unfold k, recursable, isPlainObject, isArray in *.
      destruct (bool_decide (kind_of h copy = Some KArray)) eqn:Ha.
      - by apply bool_decide_eq_true in Ha.
      - rewrite orb_false_r in Hrec. by apply bool_decide_eq_true in Hrec. }
    split_and!.
    + apply framed_setProperty; [done..|]. by intros ?.
    + rewrite setProperty_dom. etrans; [|exact Hd2]. rewrite Hd1.
      apply union_subseteq_r.
    + intros l Hl Hne. rewrite setProperty_lookup_ne by done.
      rewrite H2; [by apply Hp1| |by intros ->]. rewrite Hd1.
      by apply elem_of_union_r.
    + rewrite setProperty_kind_of.
      rewrite (kind_of_agree h1 h2), (kind_of_agree h h1); [done| |].
      * intros l [= <-]. by apply Hp1.
      * intros l [= <-]. apply H2; [|done]. rewrite Hd1. by apply elem_of_union_r.
    + rewrite get_setProperty_eq by (apply Hd2; rewrite Hd1; by apply elem_of_union_r).
      apply mirrors_copy; [done| | |].
      * rewrite setProperty_dom. apply elem_of_difference. split; [|done].
        apply Hd2. rewrite Hd1. apply elem_of_union_l. by apply elem_of_singleton.
      * by rewrite setProperty_kind_of, Hk2.
      * intros name'.
        assert (Hsub : reg name' ⊆ (dom (setProperty h2 target name (VRef x)) ∖ dom h)
                                    ∖ {[x]}).
        { rewrite setProperty_dom. intros l Hl. apply Hreg in Hl.
          apply elem_of_difference in Hl as [Hl2 Hl1']. rewrite Hd1 in Hl1'.
          apply not_elem_of_union in Hl1' as [Hlx Hlh].
          apply elem_of_difference. split; [|done].
          by apply elem_of_difference. }
        apply (mirrors_weaken _ _ (reg name')); [|done].
        rewrite (get_agree h2 (setProperty h2 target name (VRef x)) (VRef x) name')
          by (intros l [= <-]; by apply setProperty_lookup_ne).
        apply (mirrors_stable _ h2).
        2:{ intros l Hl. apply setProperty_lookup_ne. intros <-.
            apply Hreg in Hl. apply elem_of_difference in Hl as [_ Hl].
            apply Hl. rewrite Hd1. by apply elem_of_union_r. }
        rewrite <-(get_agree h h1 copy name') by (intros l ->; by apply Hag1).
        apply (mirrors_base F h1 h); try done.
        by apply within_get.
    + intros name' Hne. rewrite get_setProperty_ne_key by done.
      rewrite (get_agree h1 h2), (get_agree h h1); [done| |].
      * intros l [= <-]. by apply Hp1.
      * intros l [= <-]. apply H2; [|done]. rewrite Hd1. by apply elem_of_union_r.
    + intros _. by apply (okc_agree h h1).
  - assert (Hnr : recursable h copy = false).
    { apply andb_false_iff in Hb as [Hb|Hb]; [|done]. by destruct copy. }
    case_decide as Hu.
    + intros [= <-]. split_and!; try done.
      * rewrite Hu, Hsrc. apply mirrors_same. done.
      * by rewrite Hnr.
    + intros [= <-]. split_and!.
      * apply framed_setProperty; [done..|]. by intros _.
      * by rewrite setProperty_dom.
      * intros l Hl Hne. by rewrite setProperty_lookup_ne.
      * by rewrite setProperty_kind_of.
      * rewrite get_setProperty_eq by done. by apply mirrors_same.
      * intros name' Hne. by rewrite get_setProperty_ne_key.
      * by rewrite Hnr.
Qed.

Lemma merge_keys_copied names : ∀ h target options h',
  framed h F → sources_distinct G h → target ∈ dom h → target ∉ F →
  within G options → NoDup names →
  (∀ name, name ∈ names → get h (VRef target) name = VUndefined) →
  merge_keys rec true target options names h = Some h' →
  framed h' F ∧ dom h ⊆ dom h' ∧
  (∀ l, l ∈ dom h → l ≠ target → h' !! l = h !! l) ∧
  kind_of h' (VRef target) = kind_of h (VRef target) ∧
  (∃ reg : string → gset loc,
     (∀ name, reg name ⊆ dom h' ∖ dom h) ∧
     (∀ n1 n2, n1 ≠ n2 → reg n1 ## reg n2) ∧
     ∀ name, name ∈ names →
             mirrors h h' (reg name) (get h options name)
               (get h' (VRef target) name)) ∧
  (∀ name, name ∉ names →
           get h' (VRef target) name = get h (VRef target) name) ∧
  (∀ name, name ∈ names → recursable h (get h options name) = true →
           okc h (get h options name)).
Proof.
  induction names as [|name ns IH];
    intros h target options h' HF Hs Ht HtF HoptG Hnd Hpend; simpl.
  all: assert (Hopt : within F options) by by apply (within_subseteq G).
  - intros [= <-]. split_and!; try done.
    + exists (λ _, ∅). split_and!; try done. by intros n ?%elem_of_nil.
    + by intros n ?%elem_of_nil.
  - destruct (merge_key rec true target options name h) as [h1|] eqn:Hkey; [|done].
    intros Hrest. apply NoDup_cons in Hnd as [Hname Hnd].
    destruct (merge_key_copied h target options name h1 HF Hs Ht HtF HoptG)
      as (HF1 & Hd1 & H1 & Hk1 & Hm1 & Hoth1 & Hok1); [by apply Hpend; left|done|].
    assert (Hag1 : ∀ l, l ∈ F → h1 !! l = h !! l).
    { intros l Hl. apply H1; [by apply (framed_dom h F HF)|by intros ->]. }
    assert (Hopt1 : ∀ n, get h1 options n = get h options n).
    { intros n. apply get_agree. intros l ->. by apply Hag1. }
    destruct (IH h1 target options h') as (HF' & Hd' & H' & Hk' & (reg' & Hreg' & Hdis' & Hm')
                                            & Hoth' & Hok'); try done.
    { apply (sources_distinct_agree G h); [done|]. intros l Hl.
      by apply Hag1, sources_framed. }
    { by apply Hd1. }
    { intros n Hn. rewrite Hoth1; [apply Hpend; by right|]. by intros ->. }
    split_and!; try done.
    + etrans; [exact Hd1|exact Hd'].
    + intros l Hl Hne. rewrite H', H1; try done. by apply Hd1.
    + etrans; [exact Hk'|exact Hk1].
    + exists (λ n, if decide (n = name) then dom h1 ∖ dom h else reg' n).
      split_and!.
      * intros n. case_decide.
        -- intros l [Hl1 Hl]%elem_of_difference. apply elem_of_difference.
           split; [by apply Hd'|done].
        -- intros l [Hl' Hl1]%Hreg'%elem_of_difference. apply elem_of_difference.
           split; [done|]. intros Hl. by apply Hl1, Hd1.
      * intros n1 n2 Hne. repeat case_decide; simplify_eq.
        -- intros l [Hl1 _]%elem_of_difference [_ Hl2]%Hreg'%elem_of_difference.
           done.
        -- intros l [_ Hl2]%Hreg'%elem_of_difference [Hl1 _]%elem_of_difference.
           done.
        -- by apply Hdis'.
      * intros n Hn. case_decide as Heq.
        -- subst n. rewrite Hoth' by done.
           apply (mirrors_stable _ h1); [done|].
           intros l [Hl1 Hl]%elem_of_difference. apply H'; [done|].
           by intros ->.
        -- apply elem_of_cons in Hn as [?|Hn]; [done|].
           apply (mirrors_base F h1 h); try done.
           ++ by apply within_get.
           ++ rewrite <-Hopt1. by apply Hm'.
    + intros n Hn. apply not_elem_of_cons in Hn as [Hne Hn].
      by rewrite Hoth', Hoth1.
    + intros n Hn. apply elem_of_cons in Hn as [->|Hn]; [done|].
      intros Hr. apply (okc_agree h h1); try done.
      * by apply within_get.
      * rewrite <-Hopt1. apply Hok'; [done|]. rewrite Hopt1.
        rewrite <-Hr. apply recursable_agree. intros l Hl. apply Hag1.
        assert (Hw : within F (get h options n)) by by apply within_get.
        by rewrite Hl in Hw.
Qed.
End merge_copied.

(** A deep merge into an empty object that returns has built a deep copy of
    its source out of new objects, has written to nothing else, and found
    the source nested within its call stack. *)
Lemma merge_copied fuel : ∀ F G h target options k h',
  G ⊆ F → framed h F → sources_distinct G h → h !! target = Some (Obj k []) →
  target ∉ F → within G options →
  merge fuel true target options h = Some h' →
  copied F h target options h' ∧ nesting_within fuel h options = true.
Proof.
  induction fuel as [|fuel IH];
    intros F G h target options k h' HGF HF Hs Hl HtF HoptG;
    rewrite merge_unfold; unfold merge_with.
  all: assert (Hopt : within F options) by by apply (within_subseteq G).
  all: assert (Ht : target ∈ dom h) by by apply elem_of_dom_2 in Hl.
  all: assert (Hempty : ∀ name, get h (VRef target) name = VUndefined)
    by (intros name; unfold get; simpl; by rewrite Hl).
  all: destruct (nullish options) eqn:Hnull.
  1,3: intros [= <-]; split.
  1,3: split_and!; try done; exists (λ _, ∅); split_and!; try done;
       intros name; rewrite Hempty; destruct options; try done; by apply mirrors_same.
  1,2: by destruct options.
  - intros Hrun.
    apply (merge_keys_copied _ (λ _ _, False) F G) in Hrun
      as (HF' & Hd' & H' & Hk' & (reg & Hreg & Hdis & Hm) & Hoth & Hok); try done.
    2:{ by apply (keys_distinct G). }
    split.
    + split_and!; try done. exists reg. split_and!; try done.
      intros name. destruct (decide (name ∈ keys h options)) as [Hin|Hnin];
        [by apply Hm|].
      rewrite Hoth, Hempty, get_not_key by done. by apply mirrors_same.
    + simpl. apply forallb_forall. intros [n v] Hin%list_elem_of_In. simpl.
      assert (Hget : get h options n = v).
      { unfold get. rewrite (assoc_distinct n v); [done| |done].
        by apply (keys_distinct G). }
      destruct (recursable h v) eqn:Hr; [|done]. exfalso.
      rewrite <-Hget in Hr. apply (Hok n); [|done].
      apply list_elem_of_fmap. by exists (n, v).
  - intros Hrun.
    apply (merge_keys_copied _ (λ h c, nesting_within fuel h c = true) F G) in Hrun
      as (HF' & Hd' & H' & Hk' & (reg & Hreg & Hdis & Hm) & Hoth & Hok); try done.
    2:{ intros h0 t0 c0 k0 h0' ??????. by apply (IH F G h0 t0 c0 k0). }
    2:{ intros h0 h0' c0 ??? <-. symmetry. by apply (nesting_within_agree fuel h0 h0' F). }
    2:{ by apply (keys_distinct G). }
    split.
    + split_and!; try done. exists reg. split_and!; try done.
      intros name. destruct (decide (name ∈ keys h options)) as [Hin|Hnin];
        [by apply Hm|].
      rewrite Hoth, Hempty, get_not_key by done. by apply mirrors_same.
    + simpl. apply forallb_forall. intros [n v] Hin%list_elem_of_In. simpl.
      assert (Hget : get h options n = v).
      { unfold get. rewrite (assoc_distinct n v); [done| |done].
        by apply (keys_distinct G). }
      destruct (recursable h v) eqn:Hr; [|done]. simpl.
      rewrite <-Hget in Hr. rewrite <-Hget. apply (Hok n); [|done].
      apply list_elem_of_fmap. by exists (n, v).
Qed.

(** ** What [defaultOptions] holds *)

Lemma headers_store_facts h1 t hd hs options c h1' oc :
  clone_of h1 (get h1 (VRef t) "headers") (VRef hd) = (c, h1') →
  t ∈ dom h1 → c ≠ t → h1' !! c = Some oc →
  (∀ l, l ∈ dom h1 → l ≠ c → h1' !! l = h1 !! l) → dom h1 ⊆ dom h1' →
  let h2 := merge_headers h1 t hd hs in
  let p := fresh_loc h2 in
  let h' := <[p := parameters_of options t]> h2 in
  dom h1 ⊆ dom h' ∧ (p ∉ dom h1) ∧ p ≠ c ∧
  h' !! p = Some (parameters_of options t) ∧
  get h' (VRef t) "headers" = VRef c ∧
  (∀ k, get h' (VRef c) k
        = default VUndefined (assoc k (assign hs hs.*1 (oprops oc)))) ∧
  (∀ l, l ∈ dom h1 → l ≠ t → l ≠ c → h' !! l = h1 !! l) ∧
  (∀ k, k ≠ "headers" → get h' (VRef t) k = get h1 (VRef t) k).
Proof.
  intros Hclone Ht Hct Hoc Hag Hd1. cbv zeta. unfold merge_headers.
  rewrite Hclone. simpl.
  set (A := λ o, Obj (okind o) (assign hs hs.*1 (oprops o))).
  set (h2 := setProperty (alter A c h1') t "headers" (VRef c)).
  set (p := fresh_loc h2).
  assert (Hd2 : dom h2 = dom h1').
  { unfold h2. by rewrite setProperty_dom, dom_alter_L. }
  assert (Hp : p ∉ dom h2) by apply fresh_loc_fresh.
  assert (Hc2 : c ∈ dom h2).
  { rewrite Hd2. by apply elem_of_dom_2 in Hoc. }
  assert (Hpc : p ≠ c) by (by intros ->).
  assert (Hp1 : p ∉ dom h1).
  { intros Hin. apply Hp. rewrite Hd2. by apply Hd1. }
  assert (Hpt : p ≠ t) by (by intros ->).
  assert (Hins : ∀ l, l ≠ p → <[p := parameters_of options t]> h2 !! l = h2 !! l).
  { intros l Hl. by rewrite lookup_insert_ne. }
  split_and!; try done.
  - intros l Hl. rewrite dom_insert_L. apply elem_of_union_r. rewrite Hd2.
    by apply Hd1.
  - by rewrite lookup_insert_eq.
  - rewrite (get_agree h2) by (intros l [= <-]; by apply Hins).
    apply get_setProperty_eq. rewrite dom_alter_L. by apply Hd1.
  - intros k. rewrite (get_agree h2) by (intros l [= <-]; by apply Hins).
    unfold get. simpl. unfold h2. rewrite setProperty_lookup_ne by done.
    rewrite lookup_alter_eq, Hoc. done.
  - intros l Hl Hlt Hlc. rewrite Hins by (by intros ->).
    unfold h2. rewrite setProperty_lookup_ne, lookup_alter_ne by done.
    by apply Hag.
  - intros k Hk. rewrite (get_agree h2) by (intros l [= <-]; by apply Hins).
    unfold h2. rewrite get_setProperty_ne_key by done.
    apply get_agree. intros l [= <-]. rewrite lookup_alter_ne by done.
    by apply Hag.
Qed.

Lemma merge_needs_fuel h t df hd hs :
  h !! df = Some (Obj KPlain [("headers", VRef hd)]) →
  h !! hd = Some (Obj KPlain hs) → hd ≠ t →
  merge 0 true t (VRef df) h = None.
Proof.
  intros Hdf Hhd Hne. rewrite merge_unfold. unfold merge_with, keys. simpl.
  rewrite Hdf. simpl. unfold merge_key.
  assert (Hcopy : get h (VRef df) "headers" = VRef hd).
  { unfold get. simpl. by rewrite Hdf. }
  rewrite Hcopy. rewrite decide_False by (intros [= ->]; done).
  assert (Hplain : isPlainObject h (VRef hd) = true).
  { unfold isPlainObject. simpl. rewrite Hhd. done. }
  rewrite Hplain. simpl.
  by destruct (clone_of h (get h (VRef t) "headers") (VRef hd)).
Qed.

(** What [defaultOptions] and its headers hold when [createRequest] is
    called, and what the call needed of the stack. *)
Lemma request_tail_content fuel this hs options cb h0 h p h' :
  closed h0 → distinct_keys h0 → this ∈ dom h0 → dom h0 ⊆ dom h →
  preserves h0 h → closed h → Forall (λ kv, nonref kv.2) hs →
  request_tail fuel this hs options cb h = Some (CreateRequest (VRef p) cb, h') →
  let _options := get h0 (VRef this) "_options" in
  let inherited := get h0 _options "headers" in
  ∃ d c,
    h' !! p = Some (parameters_of options d) ∧
    get h' (VRef d) "headers" = VRef c ∧
    0 < fuel ∧ nesting_within fuel h0 _options = true ∧
    (∀ k, k ≠ "headers" →
          mirrors h0 h' (dom h' ∖ dom h) (get h0 _options k) (get h' (VRef d) k)) ∧
    (∀ k v, assoc k hs = Some v → v ≠ VUndefined → get h' (VRef c) k = v) ∧
    (∀ k, assoc k hs = None →
          if isPlainObject h0 inherited
          then mirrors h0 h' (dom h' ∖ dom h) (get h0 inherited k)
                 (get h' (VRef c) k)
          else get h' (VRef c) k = VUndefined).
Proof.
  intros Hc0 Hdk Hthis Hdom Hpres Hc Hnr Hrun. cbv zeta.
  rewrite request_tail_run in Hrun by by apply Hdom.
  pose proof (defaults_store_facts h hs Hc Hnr) as Hfacts. cbv zeta in Hfacts.
  set (t := defaults_target h) in *. set (hd := defaults_headers h) in *.
  set (df := defaults_literal h hs) in *. set (h6 := defaults_store h hs) in *.
  set (F := dom h6 ∖ {[t]}) in *.
  destruct Hfacts as (HF & Ht6 & HtF & HhdF & HdfF & HhF & Ht & Hhd & Hdf
                      & Hlt & Hlhd & Hldf & Hp6).
  assert (Hopt : get h (VRef this) "_options" = get h0 (VRef this) "_options").
  { apply get_agree. intros l [= <-]. by apply Hpres. }
  rewrite Hopt in Hrun. set (_options := get h0 (VRef this) "_options") in *.
  set (lh := get h0 _options "headers").
  destruct (merge fuel true t _options h6) as [h1|] eqn:Hm1; [|done].
  destruct (merge fuel true t (VRef df) h1) as [h2|] eqn:Hm2; [|done].
  assert (Hv0 : valid h0 _options) by by apply closed_get_valid.
  assert (Hag0 : ∀ l, l ∈ dom h0 → h6 !! l = h0 !! l).
  { intros l Hl. rewrite Hp6 by by apply Hdom. by apply Hpres. }
  assert (HGF : dom h0 ⊆ F) by (etrans; [exact Hdom|exact HhF]).
  assert (Hs6 : sources_distinct (dom h0) h6).
  { intros l o Hl Ho. rewrite Hag0 in Ho by done. split.
    - by apply (map_Forall_lookup_1 _ _ _ _ Hdk Ho).
    - intros k l' Hin. by apply (closed_lookup h0 l o k (VRef l') Hc0 Ho Hin). }
  assert (HF0 : framed h0 (dom h0)) by by apply closed_framed.
  destruct (merge_copied fuel F (dom h0) h6 t _options KPlain h1)
    as ((HF1 & Hd1 & H1 & Hk1 & reg & Hreg & Hdis & Hmir) & Hnest); try done.
  assert (Hnest0 : nesting_within fuel h0 _options = true).
  { by rewrite <-(nesting_within_agree fuel h0 h6 (dom h0)). }
  assert (Hht : hd ≠ t).
  { intros Heq. apply HtF. by rewrite <-Heq. }
  assert (Hdt : df ≠ t).
  { intros Heq. apply HtF. by rewrite <-Heq. }
  assert (Hhd1 : h1 !! hd = Some (Obj KPlain hs)).
  { rewrite H1; [done| |done]. by apply (framed_dom h6 F HF). }
  assert (Hdf1 : h1 !! df = Some (Obj KPlain [("headers", VRef hd)])).
  { rewrite H1; [done| |done]. by apply (framed_dom h6 F HF). }
  assert (Ht1 : t ∈ dom h1) by by apply Hd1.
  destruct fuel as [|fuel].
  { by rewrite (merge_needs_fuel h1 t df hd hs) in Hm2. }
  rewrite (merge_defaults fuel h1 F t df hd hs) in Hm2 by done.
  injection Hm2 as <-. injection Hrun as <- <-.
  set (src := get h1 (VRef t) "headers").
  assert (Harr : isArray h1 (VRef hd) = false).
  { unfold isArray. simpl. by rewrite Hhd1. }
  assert (Hlh6 : get h6 _options "headers" = lh).
  { apply get_agree. intros l Hl. apply Hag0. by rewrite Hl in Hv0. }
  assert (Hwlh : valid h0 lh) by by apply closed_get_valid.
  assert (Hplain6 : ∀ v, valid h0 v → isPlainObject h6 v = isPlainObject h0 v).
  { intros v Hv. unfold isPlainObject. f_equal. rewrite (kind_of_agree h0 h6); [done|].
    intros l ->. by apply Hag0. }
  assert (Hplain1 : ∀ v, within F v → isPlainObject h1 v = isPlainObject h6 v).
  { intros v Hv. unfold isPlainObject. f_equal. rewrite (kind_of_agree h6 h1); [done|].
    intros l ->. apply H1; [by apply (framed_dom h6 F HF)|by intros ->]. }
  assert (Hnew : (fresh_loc h1, <[fresh_loc h1 := Obj KPlain []]> h1)
                 = alloc_in h1 (Obj KPlain [])) by done.
  assert (Hcases :
    (isPlainObject h0 lh = true ∧ ∃ x, src = VRef x ∧ x ∈ reg "headers" ∧
       clone_of h1 src (VRef hd) = (x, h1) ∧
       ∀ name, mirrors h6 h1 (reg "headers" ∖ {[x]}) (get h6 lh name)
                 (get h1 (VRef x) name))
    ∨ (isPlainObject h0 lh = false ∧
       clone_of h1 src (VRef hd)
       = (fresh_loc h1, <[fresh_loc h1 := Obj KPlain []]> h1))).
  { pose proof (Hmir "headers") as Mh. rewrite Hlh6 in Mh. fold src in Mh.
    unfold clone_of. rewrite Harr.
    inversion Mh as [A v Hrec Heq1 Heq2 Heq3|A v x Hrec Hx Hkx Hch Heq1 Heq2 Heq3].
    - right. unfold recursable in Hrec. apply orb_false_iff in Hrec as [Hpl _].
      rewrite <-Hplain6 by done. split; [done|].
      destruct lh as [| | | | | |l]; try done.
      rewrite Hplain1, Hpl; [done|]. simpl. by apply HGF.
    - destruct (isPlainObject h1 (VRef x)) eqn:Hpx.
      + left. split.
        * rewrite <-Hplain6 by done. unfold isPlainObject in *. by rewrite <-Hkx.
        * exists x. split_and!; try done.
      + right. split; [|done].
        rewrite <-Hplain6 by done. unfold isPlainObject in *. by rewrite <-Hkx. }
  assert (Hregt : ∀ k l, l ∈ reg k → l ∈ dom h1 ∧ l ≠ t ∧ l ∉ dom h).
  { intros k l Hl. apply Hreg, elem_of_difference in Hl as [Hl1 Hl6].
    split_and!; [done|by intros ->|]. intros Hl. apply Hl6.
    by apply (framed_dom h6 F HF), HhF. }
  assert (Hbase : ∀ A v w h2, valid h0 v →
            mirrors h6 h2 A v w → mirrors h0 h2 A v w).
  { intros A v w h2 Hv. by apply (mirrors_base (dom h0)). }
  assert (Hopt6 : ∀ k, get h6 _options k = get h0 _options k).
  { intros k. apply get_agree. intros l Hl. apply Hag0. by rewrite Hl in Hv0. }
  destruct Hcases as [(Hpl & x & Hsrc & Hx & Hclone & Hch)|(Hpl & Hclone)].
  - destruct (Hregt _ _ Hx) as (Hx1 & Hxt & Hxh).
    apply elem_of_dom in Hx1 as Hox. destruct Hox as [ox Hox].
    destruct (headers_store_facts h1 t hd hs options x h1 ox)
      as (Hd' & Hp1 & Hpx & Hlp & Hgh & Hgc & Hag' & Hgt); try done.
    set (h' := <[fresh_loc (merge_headers h1 t hd hs) := parameters_of options t]>
                 (merge_headers h1 t hd hs)) in *.
    assert (Hsub : ∀ k, reg k ⊆ dom h' ∖ dom h).
    { intros k l Hl. destruct (Hregt _ _ Hl) as (? & ? & ?).
      apply elem_of_difference. split; [by apply Hd'|done]. }
    exists t, x. split_and!; try done; [lia|..].
    + intros k Hk. rewrite Hgt by done.
      apply (mirrors_weaken _ _ (reg k)); [|by apply Hsub].
      apply Hbase; [by apply closed_get_valid|]. rewrite <-Hopt6.
      apply (mirrors_stable _ h1); [by apply Hmir|].
      intros l Hl. destruct (Hregt _ _ Hl) as (? & ? & ?).
      apply Hag'; [done..|]. intros ->. by apply (Hdis k "headers" Hk x).
    + intros k v Hv Hu. rewrite Hgc, assoc_assign, Hv. simpl.
      rewrite decide_True; [done|]. split; [|done].
      apply list_elem_of_fmap. exists (k, v). split; [done|]. by apply assoc_elem_of.
    + intros k Hk. rewrite Hpl.
      assert (Hold : get h' (VRef x) k = get h1 (VRef x) k).
      { rewrite Hgc, assoc_assign, Hk. simpl. rewrite decide_False by (by intros [_ ?]).
        unfold get. simpl. by rewrite Hox. }
      rewrite Hold.
      apply (mirrors_weaken _ _ (reg "headers" ∖ {[x]})).
      2:{ intros l [Hl _]%elem_of_difference. by apply (Hsub "headers"). }
      apply Hbase; [by apply closed_get_valid|].
      rewrite <-(get_agree h0 h6 lh k) by (intros l Hl; apply Hag0; by rewrite Hl in Hwlh).
      apply (mirrors_stable _ h1); [by apply Hch|].
      intros l [Hl Hlx]%elem_of_difference. destruct (Hregt _ _ Hl) as (? & ? & ?).
      apply Hag'; [done..|]. intros ->. apply Hlx. by apply elem_of_singleton.
  - set (c := fresh_loc h1) in *.
    assert (Hc1 : c ∉ dom h1) by apply fresh_loc_fresh.
    destruct (headers_store_facts h1 t hd hs options c
                (<[c := Obj KPlain []]> h1) (Obj KPlain []))
      as (Hd' & Hp1 & Hpx & Hlp & Hgh & Hgc & Hag' & Hgt); try done.
    { by intros ->. }
    { by rewrite lookup_insert_eq. }
    { intros l Hl Hne. by rewrite lookup_insert_ne. }
    { rewrite dom_insert_L. apply union_subseteq_r. }
    set (h' := <[fresh_loc (merge_headers h1 t hd hs) := parameters_of options t]>
                 (merge_headers h1 t hd hs)) in *.
    assert (Hsub : ∀ k, reg k ⊆ dom h' ∖ dom h).
    { intros k l Hl. destruct (Hregt _ _ Hl) as (? & ? & ?).
      apply elem_of_difference. split; [by apply Hd'|done]. }
    exists t, c. split_and!; try done; [lia|..].
    + intros k Hk. rewrite Hgt by done.
      apply (mirrors_weaken _ _ (reg k)); [|by apply Hsub].
      apply Hbase; [by apply closed_get_valid|]. rewrite <-Hopt6.
      apply (mirrors_stable _ h1); [by apply Hmir|].
      intros l Hl. destruct (Hregt _ _ Hl) as (? & ? & ?).
      apply Hag'; [done..|]. by intros ->.
    + intros k v Hv Hu. rewrite Hgc, assoc_assign, Hv. simpl.
      rewrite decide_True; [done|]. split; [|done].
      apply list_elem_of_fmap. exists (k, v). split; [done|]. by apply assoc_elem_of.
    + intros k Hk. rewrite Hpl.
      rewrite Hgc, assoc_assign, Hk. simpl. by rewrite decide_False by (by intros [_ ?]).
Qed.

Lemma headers_of_nonref e : Forall (λ kv, nonref kv.2) (headers_of e).
Proof. destruct e; simpl; nonref_headers. Qed.

Lemma headers_of_defined e k v : assoc k (headers_of e) = Some v → v ≠ VUndefined.
Proof.
  destruct e; simpl; repeat case_decide; intros ?; by simplify_eq.
Qed.

(** Every method whose required parameters are there runs its last lines on
    a store that extends the caller's by its own literals. *)
Lemma method_tail e this params callback h :
  closed h → valid h params → Forall (present h params) (requiredParams e) →
  ∃ h3 o,
    extends h h3 ∧ (o ∉ dom h) ∧ o ∈ dom h3 ∧
    ∀ fuel, method e fuel this params callback h
            = request_tail fuel this (headers_of e) o
                (handler_of e h params callback) h3.
Proof.
  intros Hc Hv Hreq.
  pose proof (extends_params_store h params callback Hc) as Hps.
  destruct e; simpl in *; try (apply Forall_cons in Hreq as [Hreq _]);
    eexists _, _; split_and!.
  all: try (intros fuel;
            first [ rewrite translate_shape, checked_run, decide_True by done
                  | rewrite identify_shape, checked_run, decide_True by done
                  | rewrite identifyPlain_shape, checked_run, decide_True by done
                  | rewrite createModel_shape, checked_run, decide_True by done
                  | rewrite deleteModel_shape, checked_run, decide_True by done
                  | rewrite getModel_shape, checked_run, decide_True by done
                  | rewrite listIdentifiableLanguages_shape, unchecked_run by done
                  | rewrite listModels_shape, unchecked_run by done ];
            run_literals; reflexivity).
  all: try (by extends_lits).
  all: try (apply extends_fresh; extends_lits).
  all: try apply lit_valid_new.
Qed.

Lemma request_tail_result fuel this hs options cb h tc h' :
  this ∈ dom h →
  request_tail fuel this hs options cb h = Some (tc, h') →
  ∃ p, tc = CreateRequest (VRef p) cb.
Proof.
  intros Hthis. rewrite request_tail_run by done.
  destruct (merge fuel true _ _ _) as [h1|]; [|done].
  destruct (merge fuel true _ _ h1) as [h2|]; [|done].
  intros [= <- <-]. by eexists.
Qed.

(** What a method that builds its request has put into [defaultOptions]. *)
Lemma method_content e fuel this params callback h p o d c h' :
  callable fuel this params h → distinct_keys h →
  Forall (present h params) (requiredParams e) →
  builds (method e fuel this params callback) h
    (handler_of e h params callback) p o d c h' →
  let _options := get h (VRef this) "_options" in
  let inherited := get h _options "headers" in
  (∀ k, k ≠ "headers" →
        mirrors h h' (dom h' ∖ dom h) (get h _options k) (get h' (VRef d) k)) ∧
  (∀ k v, assoc k (headers_of e) = Some v → get h' (VRef c) k = v) ∧
  (∀ k, assoc k (headers_of e) = None →
        if isPlainObject h inherited
        then mirrors h h' (dom h' ∖ dom h) (get h inherited k) (get h' (VRef c) k)
        else get h' (VRef c) k = VUndefined).
Proof.
  intros (Hc & Hv & Hthis & Hfuel & Hn) Hdk Hreq
    (Hrun & Hp & Hpn & Hon & Hdn & Hcn & Hlp & Hgd). cbv zeta.
  destruct (method_tail e this params callback h Hc Hv Hreq)
    as (h3 & o3 & (Hc3 & Hd3 & Hp3) & Ho3 & Ho3' & Htail).
  rewrite Htail in Hrun.
  destruct (request_tail_content fuel this (headers_of e) o3
              (handler_of e h params callback) h h3 p h')
    as (d' & c' & Hlp' & Hgd' & _ & _ & Hmir & Hset & Hinh); try done.
  { apply headers_of_nonref. }
  cbv zeta in Hmir, Hinh.
  rewrite Hlp in Hlp'. injection Hlp' as -> <-.
  rewrite Hgd in Hgd'. injection Hgd' as <-.
  assert (Hsub : dom h' ∖ dom h3 ⊆ dom h' ∖ dom h).
  { intros l [Hl Hl3]%elem_of_difference. apply elem_of_difference.
    split; [done|]. intros Hlh. by apply Hl3, Hd3. }
  split_and!.
  - intros k Hk. apply (mirrors_weaken _ _ (dom h' ∖ dom h3)); [|done].
    by apply Hmir.
  - intros k v Hk. apply Hset; [done|]. by apply (headers_of_defined e k).
  - intros k Hk. specialize (Hinh k Hk).
    destruct (isPlainObject h (get h (get h (VRef this) "_options") "headers"));
      [|done].
    by apply (mirrors_weaken _ _ (dom h' ∖ dom h3)).
Qed.

(** ** Instance options and headers in the request *)

Lemma self_reference_unbounded h l k :
  get h (VRef l) k = VRef l → recursable h (VRef l) = true →
  ∀ n, nesting_within n h (VRef l) = false.
Proof.
  intros Hget Hrec n.
  destruct (get_undefined_or_own h (VRef l) k) as [Hu|Hin]; [congruence|].
  rewrite Hget in Hin. apply list_elem_of_In in Hin.
  induction n as [|n IH]; simpl;
    (destruct (forallb _ _) eqn:Hall; [|done]);
    rewrite forallb_forall in Hall; specialize (Hall _ Hin); simpl in Hall.
  - rewrite Hrec in Hall. done.
  - rewrite Hrec in Hall. simpl in Hall. simpl in IH. congruence.
Qed.

Lemma example_distinct_keys : distinct_keys example_store.
Proof.
  apply (bool_decide_eq_true_1 (distinct_keys example_store)). vm_compute.
  reflexivity.
Defined.

Lemma mirrors_leaf h0 h1 A v w :
  mirrors h0 h1 A v w → recursable h0 v = false → w = v.
Proof. intros Hm Hr. destruct Hm; [done|congruence]. Qed.

(** X1: every option of the instance other than [headers] reaches
    [defaultOptions] as a deep copy: a value that is no plain object and no
    array as it is, a plain object or an array as a new object of the same
    kind whose properties are deep copies in turn. *)
Theorem instance_options_deep_copied e fuel this params callback h :
  callable fuel this params h → distinct_keys h →
  Forall (present h params) (requiredParams e) →
  ∃ p o d c h',
    builds (method e fuel this params callback) h
      (handler_of e h params callback) p o d c h' ∧
    ∀ k, k ≠ "headers" →
         mirrors h h' (dom h' ∖ dom h)
           (get h (get h (VRef this) "_options") k) (get h' (VRef d) k).
Proof.
  intros Hcall Hdk Hreq.
  destruct (method_builds e fuel this params callback h Hcall Hreq)
    as (p & o & d & c & h' & Hb & _).
  exists p, o, d, c, h'. split; [done|].
  by destruct (method_content e fuel this params callback h p o d c h'
                 Hcall Hdk Hreq Hb) as (Hm & _).
Qed.

Lemma instance_options_deep_copied_witness :
  callable 2 1 (VRef 4) example_store ∧ distinct_keys example_store ∧
  Forall (present example_store (VRef 4)) (requiredParams Translate) ∧
  ∃ p o d c h',
    builds (translate 2 1 (VRef 4) VUndefined) example_store NoopCallback
      p o d c h' ∧
    get h' (VRef d) "url"
    = VStr "https://gateway.watsonplatform.net/language-translator/api" ∧
    get h' (VRef d) "username" = VStr "user" ∧
    get h' (VRef d) "password" = VStr "pass" ∧
    get h' (VRef d) "version" = VUndefined.
Proof.
  assert (Hcall : callable 2 1 (VRef 4) example_store)
    by (apply example_callable; vm_compute; reflexivity).
  assert (Hreq : Forall (present example_store (VRef 4)) (requiredParams Translate)).
  { apply Forall_singleton. intros H. vm_compute in H. discriminate. }
  split_and!; [exact Hcall|exact example_distinct_keys|exact Hreq|].
  destruct (instance_options_deep_copied Translate 2 1 (VRef 4) VUndefined
              example_store Hcall example_distinct_keys Hreq)
    as (p & o & d & c & h' & Hb & Hm).
  exists p, o, d, c, h'.
  split_and!; [exact Hb|..];
    match goal with
    | |- get _ _ ?k = ?v =>
        apply (mirrors_leaf example_store h' (dom h' ∖ dom example_store) v);
        [exact (Hm k ltac:(discriminate))|reflexivity]
    end.
Defined.

(** X2: the headers of [defaultOptions] are the instance's default headers
    with the method's own on top: a header the method sets holds the
    method's value; any other holds a deep copy of what the instance's
    [headers] object holds under that name, and nothing when the instance
    has no such plain object. *)
Theorem default_headers_merged e fuel this params callback h :
  callable fuel this params h → distinct_keys h →
  Forall (present h params) (requiredParams e) →
  ∃ p o d c h',
    builds (method e fuel this params callback) h
      (handler_of e h params callback) p o d c h' ∧
    (∀ k v, assoc k (headers_of e) = Some v → get h' (VRef c) k = v) ∧
    (∀ k, assoc k (headers_of e) = None →
          let inherited := get h (get h (VRef this) "_options") "headers" in
          if isPlainObject h inherited
          then mirrors h h' (dom h' ∖ dom h) (get h inherited k)
                 (get h' (VRef c) k)
          else get h' (VRef c) k = VUndefined).
Proof.
  intros Hcall Hdk Hreq.
  destruct (method_builds e fuel this params callback h Hcall Hreq)
    as (p & o & d & c & h' & Hb & _).
  exists p, o, d, c, h'. split; [done|].
  by destruct (method_content e fuel this params callback h p o d c h'
                 Hcall Hdk Hreq Hb) as (_ & Hset & Hinh).
Qed.

Lemma default_headers_merged_witness :
  callable 2 1 (VRef 9) example_store ∧ distinct_keys example_store ∧
  Forall (present example_store (VRef 9)) (requiredParams IdentifyPlain) ∧
  ∃ p o d c h',
    builds (identifyPlain 2 1 (VRef 9) VUndefined) example_store NoopCallback
      p o d c h' ∧
    get h' (VRef c) "Accept" = VStr "text/plain" ∧
    get h' (VRef c) "Content-Type" = VStr "text/plain" ∧
    get h' (VRef c) "X-Watson-Learning-Opt-Out" = VBool true.
Proof.
  assert (Hcall : callable 2 1 (VRef 9) example_store)
    by (apply example_callable; vm_compute; reflexivity).
  assert (Hreq : Forall (present example_store (VRef 9))
                   (requiredParams IdentifyPlain)).
  { apply Forall_singleton. intros H. vm_compute in H. discriminate. }
  split_and!; [exact Hcall|exact example_distinct_keys|exact Hreq|].
  destruct (default_headers_merged IdentifyPlain 2 1 (VRef 9) VUndefined
              example_store Hcall example_distinct_keys Hreq)
    as (p & o & d & c & h' & Hb & Hset & Hinh).
  exists p, o, d, c, h'. split_and!; [exact Hb|by apply Hset..|].
  apply (mirrors_leaf example_store h' (dom h' ∖ dom example_store) (VBool true));
    [|reflexivity].
  exact (Hinh "X-Watson-Learning-Opt-Out" eq_refl).
Defined.

(** A method that returns had the call stack it needs. *)
Lemma method_returns_stack e fuel this params callback h :
  closed h → valid h params → this ∈ dom h → distinct_keys h →
  Forall (present h params) (requiredParams e) →
  is_Some (method e fuel this params callback h) →
  0 < fuel ∧ nesting_within fuel h (get h (VRef this) "_options") = true.
Proof.
  intros Hc Hv Hthis Hdk Hreq [[tc h'] Hrun].
  destruct (method_tail e this params callback h Hc Hv Hreq)
    as (h3 & o3 & (Hc3 & Hd3 & Hp3) & Ho3 & Ho3' & Htail).
  rewrite Htail in Hrun.
  assert (Hthis3 : this ∈ dom h3) by by apply Hd3.
  destruct (request_tail_result _ _ _ _ _ _ _ _ Hthis3 Hrun) as [p ->].
  destruct (request_tail_content fuel this (headers_of e) o3
              (handler_of e h params callback) h h3 p h')
    as (d' & c' & _ & _ & Hfuel & Hn & _); try done.
  apply headers_of_nonref.
Qed.

(** X3: a method whose required parameters are there returns exactly when
    the call stack has room for the header literal and for the nesting of
    plain objects and arrays in the instance options; nothing else makes
    it fail. *)
Theorem request_needs_stack e fuel this params callback h :
  closed h → valid h params → this ∈ dom h → distinct_keys h →
  Forall (present h params) (requiredParams e) →
  is_Some (method e fuel this params callback h) ↔
  0 < fuel ∧ nesting_within fuel h (get h (VRef this) "_options") = true.
Proof.
  intros Hc Hv Hthis Hdk Hreq. split.
  - by apply method_returns_stack.
  - intros [Hfuel Hn].
    destruct (method_builds e fuel this params callback h) as
      (p & o & d & c & h' & (Hrun & _) & _); [done..|].
    by rewrite Hrun.
Qed.

Lemma request_needs_stack_witness :
  closed example_store ∧ valid example_store (VRef 4) ∧
  1%positive ∈ dom example_store ∧ distinct_keys example_store ∧
  Forall (present example_store (VRef 4)) (requiredParams Translate) ∧
  is_Some (translate 2 1 (VRef 4) VUndefined example_store) ∧
  ¬ is_Some (translate 0 1 (VRef 4) VUndefined example_store).
Proof.
  assert (Hcall : callable 2 1 (VRef 4) example_store)
    by (apply example_callable; vm_compute; reflexivity).
  destruct Hcall as (Hc & Hv & Hthis & _).
  assert (Hreq : Forall (present example_store (VRef 4)) (requiredParams Translate)).
  { apply Forall_singleton. intros H. vm_compute in H. discriminate. }
  split_and!; [exact Hc|exact Hv|exact Hthis|exact example_distinct_keys|exact Hreq|..].
  - apply (request_needs_stack Translate 2 1 (VRef 4) VUndefined example_store
             Hc Hv Hthis example_distinct_keys Hreq).
    split; [lia|vm_compute; reflexivity].
  - intros Hs.
    destruct (request_needs_stack Translate 0 1 (VRef 4) VUndefined example_store
                Hc Hv Hthis example_distinct_keys Hreq) as [Hneeds _].
    destruct (Hneeds Hs) as [Hfuel _]. lia.
Defined.

(** X4: on an instance whose options hold themselves no call stack is deep
    enough: a method whose required parameters are there never returns. *)
Theorem cyclic_options_overflow e fuel this params callback h l k :
  closed h → valid h params → this ∈ dom h → distinct_keys h →
  Forall (present h params) (requiredParams e) →
  get h (VRef this) "_options" = VRef l →
  recursable h (VRef l) = true → get h (VRef l) k = VRef l →
  method e fuel this params callback h = None.
Proof.
  intros Hc Hv Hthis Hdk Hreq Hopt Hrec Hself.
  destruct (method e fuel this params callback h) as [r|] eqn:Hrun; [|done].
  destruct (method_returns_stack e fuel this params callback h Hc Hv Hthis Hdk Hreq)
    as [_ Hn]; [by rewrite Hrun|].
  rewrite Hopt, (self_reference_unbounded h l k Hself Hrec) in Hn. done.
Qed.

Lemma cyclic_store_facts :
  closed cyclic_store ∧ distinct_keys cyclic_store ∧
  1%positive ∈ dom cyclic_store ∧ valid cyclic_store (VRef 3) ∧
  valid cyclic_store (VRef 2).
Proof.
  split_and!.
  - apply (bool_decide_eq_true_1 (closed cyclic_store)). vm_compute. reflexivity.
  - apply (bool_decide_eq_true_1 (distinct_keys cyclic_store)). vm_compute.
    reflexivity.
  - apply (bool_decide_eq_true_1 (1%positive ∈ dom cyclic_store)). vm_compute.
    reflexivity.
  - apply (bool_decide_eq_true_1 (valid cyclic_store (VRef 3))). vm_compute.
    reflexivity.
  - apply (bool_decide_eq_true_1 (valid cyclic_store (VRef 2))). vm_compute.
    reflexivity.
Defined.

Lemma cyclic_options_overflow_witness :
  closed cyclic_store ∧ valid cyclic_store (VRef 3) ∧
  1%positive ∈ dom cyclic_store ∧ distinct_keys cyclic_store ∧
  Forall (present cyclic_store (VRef 3)) (requiredParams Identify) ∧
  get cyclic_store (VRef 1) "_options" = VRef 2 ∧
  recursable cyclic_store (VRef 2) = true ∧
  get cyclic_store (VRef 2) "self" = VRef 2 ∧
  identify 1000 1 (VRef 3) VUndefined cyclic_store = None.
Proof.
  destruct cyclic_store_facts as (Hc & Hdk & Hthis & Hv & _).
  assert (Hreq : Forall (present cyclic_store (VRef 3)) (requiredParams Identify)).
  { apply Forall_singleton. intros H. vm_compute in H. discriminate. }
  split_and!; [exact Hc|exact Hv|exact Hthis|exact Hdk|exact Hreq|
               reflexivity|reflexivity|reflexivity|].
  exact (cyclic_options_overflow Identify 1000 1 (VRef 3) VUndefined cyclic_store
           2 "self" Hc Hv Hthis Hdk Hreq eq_refl eq_refl eq_refl).
Defined.

(** ** One call after another *)

Lemma closed_setProperty h l name v :
  closed h → valid h v → closed (setProperty h l name v).
Proof.
  intros Hc Hv l' o'. unfold setProperty at 1. rewrite lookup_alter.
  assert (Hmono : ∀ w, valid h w → valid (setProperty h l name v) w).
  { intros w. apply valid_mono. by rewrite setProperty_dom. }
  case_decide as Heq.
  - subst l'. destruct (h !! l) as [o|] eqn:Ho; simpl; [|done].
    intros [= <-]. simpl. apply Forall_forall. intros [k w] Hin. simpl.
    apply Hmono. apply elem_of_set_prop in Hin as [Hin|[= -> ->]]; [|done].
    by apply (closed_lookup h l o k w).
  - intros Ho. simpl. apply Forall_forall. intros [k w] Hin. simpl.
    apply Hmono. by apply (closed_lookup h l' o' k w).
Qed.

Lemma clone_of_closed h src copy :
  closed h →
  let r := clone_of h src copy in
  closed r.2 ∧ dom h ⊆ dom r.2 ∧ r.1 ∈ dom r.2.
Proof.
  intros Hc. cbv zeta.
  assert (Hreuse : ∀ l, recursable h (VRef l) = true →
            closed h ∧ dom h ⊆ dom h ∧ l ∈ dom h).
  { intros l Hr. split_and!; try done.
    apply recursable_ref in Hr as (l0 & ? & ?). by simplify_eq. }
  assert (Halloc : ∀ k,
            closed (<[fresh_loc h := Obj k []]> h) ∧
            dom h ⊆ dom (<[fresh_loc h := Obj k []]> h) ∧
            fresh_loc h ∈ dom (<[fresh_loc h := Obj k []]> h)).
  { intros k. split_and!.
    - apply closed_insert; [done|]. apply Forall_nil_2.
    - rewrite dom_insert_L. apply union_subseteq_r.
    - rewrite dom_insert_L. apply elem_of_union_l. by apply elem_of_singleton. }
  unfold clone_of, alloc_in.
  destruct (isArray h copy); destruct src as [| | | | | |l]; try (by apply Halloc).
  - destruct (isArray h (VRef l)) eqn:Ha; [|by apply Halloc].
    simpl. apply Hreuse. unfold recursable. rewrite Ha. apply orb_true_r.
  - destruct (isPlainObject h (VRef l)) eqn:Ha; [|by apply Halloc].
    simpl. apply Hreuse. unfold recursable. by rewrite Ha.
Qed.

Section merge_closed.
Variable rec : loc → value → heap → option heap.
Variable deep : bool.

Hypothesis rec_spec : ∀ h target c h',
  closed h → target ∈ dom h → valid h c → rec target c h = Some h' →
  closed h' ∧ dom h ⊆ dom h'.

Lemma merge_key_closed h target options name h' :
  closed h → target ∈ dom h →
  merge_key rec deep target options name h = Some h' →
  closed h' ∧ dom h ⊆ dom h'.
Proof.
  intros Hc Ht. unfold merge_key.
  set (copy := get h options name).
  assert (Hcopy : valid h copy) by by apply closed_get_valid.
  case_decide; [by intros [= <-]|].
  destruct (deep && truthy copy && _).
  - pose proof (clone_of_closed h (get h (VRef target) name) copy Hc) as Hcl.
    destruct (clone_of h (get h (VRef target) name) copy) as [clone h1].
    simpl in Hcl. destruct Hcl as (Hc1 & Hd1 & Hcl1).
    destruct (rec clone copy h1) as [h2|] eqn:Hrun; [|done].
    intros [= <-].
    destruct (rec_spec h1 clone copy h2) as (Hc2 & Hd2); try done.
    { by apply (valid_mono h). }
    split.
    + apply closed_setProperty; [done|]. simpl. by apply Hd2.
    + rewrite setProperty_dom. etrans; [exact Hd1|exact Hd2].
  - case_decide; intros [= <-]; [done|]. split.
    + by apply closed_setProperty.
    + by rewrite setProperty_dom.
Qed.

Lemma merge_keys_closed names : ∀ h target options h',
  closed h → target ∈ dom h →
  merge_keys rec deep target options names h = Some h' →
  closed h' ∧ dom h ⊆ dom h'.
Proof.
  induction names as [|name names IH]; intros h target options h' Hc Ht; simpl.
  - by intros [= <-].
  - destruct (merge_key rec deep target options name h) as [h1|] eqn:Hkey; [|done].
    destruct (merge_key_closed h target options name h1 Hc Ht Hkey) as (Hc1 & Hd1).
    intros Hrest.
    destruct (IH h1 target options h' Hc1 (Hd1 _ Ht) Hrest) as (Hc' & Hd').
    split; [done|]. etrans; [exact Hd1|exact Hd'].
Qed.
End merge_closed.

(** [extend] keeps the store free of dangling references. *)
Lemma merge_closed fuel deep : ∀ h target options h',
  closed h → target ∈ dom h →
  merge fuel deep target options h = Some h' →
  closed h' ∧ dom h ⊆ dom h'.
Proof.
  induction fuel as [|fuel IH]; intros h target options h' Hc Ht;
    rewrite merge_unfold; unfold merge_with;
    (destruct (nullish options); [by intros [= <-]|]).
  - apply merge_keys_closed; try done.
  - apply merge_keys_closed; try done.
    intros h0 t0 c0 h0' ???. by apply IH.
Qed.

Lemma nonref_valid h v : nonref v → valid h v.
Proof. destruct v as [| | | | | |l]; try done. intros H. by destruct (H l). Qed.

Lemma request_tail_closed fuel this hs options cb h tc h' :
  closed h → this ∈ dom h → options ∈ dom h →
  Forall (λ kv, nonref kv.2) hs →
  request_tail fuel this hs options cb h = Some (tc, h') →
  closed h' ∧ dom h ⊆ dom h'.
Proof.
  intros Hc Hthis Ho Hnr. rewrite request_tail_run by done.
  assert (Hc6 : closed (defaults_store h hs)).
  { change (defaults_store h hs)
      with (lit (lit (lit h []) hs) [("headers", VRef (fresh_loc (lit h [])))]).
    apply lit_closed; [apply lit_closed; [apply lit_closed; [done|apply Forall_nil_2]|]|].
    - eapply Forall_impl; [exact Hnr|]. intros kv Hkv. by apply nonref_valid.
    - apply Forall_singleton. simpl. apply lit_subseteq, lit_valid_new. }
  assert (Hd6 : dom h ⊆ dom (defaults_store h hs)).
  { change (defaults_store h hs)
      with (lit (lit (lit h []) hs) [("headers", VRef (fresh_loc (lit h [])))]).
    etrans; [|apply lit_subseteq]. etrans; [|apply lit_subseteq]. apply lit_subseteq. }
  assert (Ht6 : defaults_target h ∈ dom (defaults_store h hs)).
  { change (defaults_store h hs)
      with (lit (lit (lit h []) hs) [("headers", VRef (fresh_loc (lit h [])))]).
    apply lit_subseteq, lit_subseteq. apply (lit_valid_new h []). }
  destruct (merge fuel true _ _ (defaults_store h hs)) as [h1|] eqn:Hm1; [|done].
  destruct (merge_closed _ _ _ _ _ _ Hc6 Ht6 Hm1) as (Hc1 & Hd1).
  destruct (merge fuel true _ _ h1) as [h2|] eqn:Hm2; [|done].
  destruct (merge_closed _ _ _ _ _ _ Hc1 (Hd1 _ Ht6) Hm2) as (Hc2 & Hd2).
  intros [= <- <-].
  assert (Hd : dom h ⊆ dom h2).
  { etrans; [exact Hd6|]. etrans; [exact Hd1|exact Hd2]. }
  split.
  - apply closed_insert; [done|]. unfold parameters_of. simpl.
    repeat (apply Forall_cons; split); [..|apply Forall_nil_2]; simpl;
      rewrite dom_insert_L; apply elem_of_union_r.
    + by apply Hd.
    + by apply Hd2, Hd1.
  - etrans; [exact Hd|]. rewrite dom_insert_L. apply union_subseteq_r.
Qed.

(** A call leaves the store as the next call needs it. *)
Lemma method_leaves_callable e fuel this params callback h tc h' :
  callable fuel this params h →
  method e fuel this params callback h = Some (tc, h') →
  closed h' ∧ dom h ⊆ dom h' ∧ preserves h h' ∧
  ∀ params', valid h' params' → callable fuel this params' h'.
Proof.
  intros Hcall Hrun.
  assert (Hfacts : closed h' ∧ dom h ⊆ dom h' ∧ preserves h h').
  { destruct (decide (Forall (present h params) (requiredParams e))) as [Hreq|Hreq].
    - destruct (method_builds e fuel this params callback h Hcall Hreq)
        as (p & o & d & c & h'' & (Hrun' & Hp & _) & _).
      rewrite Hrun in Hrun'. injection Hrun' as -> ->.
      destruct Hcall as (Hc & Hv & Hthis & _).
      destruct (method_tail e this params callback h Hc Hv Hreq)
        as (h3 & o3 & (Hc3 & Hd3 & Hp3) & Ho3 & Ho3' & Htail).
      rewrite Htail in Hrun.
      destruct (request_tail_closed _ _ _ _ _ _ _ _ Hc3 (Hd3 _ Hthis) Ho3'
                  (headers_of_nonref e) Hrun) as (Hc' & Hd').
      split_and!; [done| |done]. etrans; [exact Hd3|exact Hd'].
    - destruct Hcall as (Hc & Hv & _).
      rewrite (method_rejects e fuel this params callback h Hc Hv Hreq) in Hrun.
      injection Hrun as <- <-. split_and!.
      + by apply shallow_copy_closed.
      + apply shallow_copy_subseteq.
      + apply shallow_copy_preserves. }
  destruct Hfacts as (Hc' & Hd' & Hp'). split_and!; try done.
  intros params' Hv'. destruct Hcall as (Hc & Hv & Hthis & Hfuel & Hn).
  split_and!; try done; [by apply Hd'|].
  assert (Hopt : get h' (VRef this) "_options" = get h (VRef this) "_options").
  { apply get_agree. intros l [= <-]. by apply Hp'. }
  rewrite Hopt, (nesting_within_agree fuel h h' (dom h)); try done.
  - by apply closed_framed.
  - by apply closed_get_valid.
Qed.

(** X5: two calls in a row on one instance both build their request; the
    second leaves every object of the store the first left, its request
    among them, as it was, and builds its own out of new objects. *)
Theorem successive_calls_independent e1 e2 fuel this params1 params2 cb1 cb2 h :
  callable fuel this params1 h → valid h params2 →
  Forall (present h params1) (requiredParams e1) →
  Forall (present h params2) (requiredParams e2) →
  ∃ p1 o1 d1 c1 h1 p2 o2 d2 c2 h2,
    builds (method e1 fuel this params1 cb1) h (handler_of e1 h params1 cb1)
      p1 o1 d1 c1 h1 ∧
    builds (method e2 fuel this params2 cb2) h1 (handler_of e2 h1 params2 cb2)
      p2 o2 d2 c2 h2 ∧
    p1 ∈ dom h1 ∧ o1 ∈ dom h1 ∧ d1 ∈ dom h1 ∧ c1 ∈ dom h1 ∧
    preserves h1 h2 ∧
    (p2 ∉ dom h1) ∧ (o2 ∉ dom h1) ∧ (d2 ∉ dom h1) ∧ (c2 ∉ dom h1).
Proof.
  intros Hcall Hv2 Hreq1 Hreq2.
  destruct (method_builds e1 fuel this params1 cb1 h Hcall Hreq1)
    as (p1 & o1 & d1 & c1 & h1 & Hb1 & _).
  pose proof Hb1 as (Hrun1 & Hp1 & _ & _ & _ & _ & Hlp1 & Hgd1).
  destruct (method_leaves_callable e1 fuel this params1 cb1 h _ h1 Hcall Hrun1)
    as (Hc1 & Hd1 & _ & Hnext).
  assert (Hv2' : valid h1 params2) by by apply (valid_mono h).
  assert (Hreq2' : Forall (present h1 params2) (requiredParams e2)).
  { eapply Forall_impl; [exact Hreq2|]. intros name. unfold present.
    rewrite (get_agree h h1); [done|]. intros l ->. by apply Hp1. }
  destruct (method_builds e2 fuel this params2 cb2 h1 (Hnext _ Hv2') Hreq2')
    as (p2 & o2 & d2 & c2 & h2 & Hb2 & _).
  pose proof Hb2 as (_ & Hp2 & Hpn & Hon & Hdn & Hcn & _).
  exists p1, o1, d1, c1, h1, p2, o2, d2, c2, h2.
  assert (Hd1' : d1 ∈ dom h1).
  { pose proof (closed_lookup h1 p1 _ "defaultOptions" (VRef d1) Hc1 Hlp1) as H.
    apply H. simpl. right. left. }
  split_and!; try done.
  - by apply elem_of_dom_2 in Hlp1.
  - pose proof (closed_lookup h1 p1 _ "options" (VRef o1) Hc1 Hlp1) as H.
    apply H. simpl. left.
  - pose proof (closed_get_valid h1 (VRef d1) "headers" Hc1) as H.
    by rewrite Hgd1 in H.
Qed.

Lemma successive_calls_independent_witness :
  callable 2 1 (VRef 4) example_store ∧ valid example_store (VRef 7) ∧
  Forall (present example_store (VRef 4)) (requiredParams Translate) ∧
  Forall (present example_store (VRef 7)) (requiredParams GetModel) ∧
  ∃ p1 o1 d1 c1 h1 p2 o2 d2 c2 h2,
    builds (translate 2 1 (VRef 4) VUndefined) example_store NoopCallback
      p1 o1 d1 c1 h1 ∧
    builds (getModel 2 1 (VRef 7) (VRef 6)) h1 (UserCallback (VRef 6))
      p2 o2 d2 c2 h2 ∧
    p1 ∈ dom h1 ∧ o1 ∈ dom h1 ∧ d1 ∈ dom h1 ∧ c1 ∈ dom h1 ∧
    preserves h1 h2 ∧
    (p2 ∉ dom h1) ∧ (o2 ∉ dom h1) ∧ (d2 ∉ dom h1) ∧ (c2 ∉ dom h1).
Proof.
  assert (Hcall : callable 2 1 (VRef 4) example_store)
    by (apply example_callable; vm_compute; reflexivity).
  assert (Hv : valid example_store (VRef 7))
    by (apply (bool_decide_eq_true_1 (valid example_store (VRef 7)));
        vm_compute; reflexivity).
  assert (Hreq1 : Forall (present example_store (VRef 4)) (requiredParams Translate)).
  { apply Forall_singleton. intros H. vm_compute in H. discriminate. }
  assert (Hreq2 : Forall (present example_store (VRef 7)) (requiredParams GetModel)).
  { apply Forall_singleton. intros H. vm_compute in H. discriminate. }
  split_and!; [exact Hcall|exact Hv|exact Hreq1|exact Hreq2|].
  exact (successive_calls_independent Translate GetModel 2 1 (VRef 4) (VRef 7)
           VUndefined (VRef 6) example_store Hcall Hv Hreq1 Hreq2).
Defined.

(** ** A deeper call stack changes nothing *)

Section merge_fuel.
Variables rec rec' : loc → value → heap → option heap.
Variable deep : bool.

Hypothesis rec_le : ∀ target c h h',
  rec target c h = Some h' → rec' target c h = Some h'.

Lemma merge_key_fuel target options name h h' :
  merge_key rec deep target options name h = Some h' →
  merge_key rec' deep target options name h = Some h'.
Proof.
  unfold merge_key. case_decide; [done|].
  destruct (deep && _ && _); [|done].
  destruct (clone_of h _ _) as [clone h1].
  destruct (rec clone _ h1) as [h2|] eqn:Hrun; [|done].
  by rewrite (rec_le _ _ _ _ Hrun).
Qed.

Lemma merge_keys_fuel names : ∀ target options h h',
  merge_keys rec deep target options names h = Some h' →
  merge_keys rec' deep target options names h = Some h'.
Proof.
  induction names as [|name names IH]; intros target options h h'; simpl; [done|].
  destruct (merge_key rec deep target options name h) as [h1|] eqn:Hkey; [|done].
  rewrite (merge_key_fuel _ _ _ _ _ Hkey). apply IH.
Qed.
End merge_fuel.

Lemma merge_fuel_S fuel deep : ∀ target options h h',
  merge fuel deep target options h = Some h' →
  merge (S fuel) deep target options h = Some h'.
Proof.
  induction fuel as [|fuel IH]; intros target options h h'.
  - change (merge 1 deep) with (merge_with (merge 0 deep) deep).
    change (merge 0 deep target options h)
      with (merge_with (λ _ _ _, None) deep target options h).
    unfold merge_with at 1 2. destruct (nullish options); [done|].
    by apply merge_keys_fuel.
  - change (merge (S (S fuel)) deep) with (merge_with (merge (S fuel) deep) deep).
    change (merge (S fuel) deep target options h)
      with (merge_with (merge fuel deep) deep target options h).
    unfold merge_with at 1 2. destruct (nullish options); [done|].
    apply merge_keys_fuel. apply IH.
Qed.

Lemma merge_fuel_le (fuel fuel' : nat) deep target options h h' :
  (fuel ≤ fuel')%nat →
  merge fuel deep target options h = Some h' →
  merge fuel' deep target options h = Some h'.
Proof.
  induction 1 as [|fuel' Hle IH]; [done|].
  intros Hrun. by apply merge_fuel_S, IH.
Qed.

Lemma request_tail_fuel_le (fuel fuel' : nat) this hs options cb h r :
  this ∈ dom h → (fuel ≤ fuel')%nat →
  request_tail fuel this hs options cb h = Some r →
  request_tail fuel' this hs options cb h = Some r.
Proof.
  intros Hthis Hle. rewrite !request_tail_run by done.
  destruct (merge fuel true _ _ (defaults_store h hs)) as [h1|] eqn:Hm1; [|done].
  rewrite (merge_fuel_le _ _ _ _ _ _ _ Hle Hm1).
  destruct (merge fuel true _ _ h1) as [h2|] eqn:Hm2; [|done].
  by rewrite (merge_fuel_le _ _ _ _ _ _ _ Hle Hm2).
Qed.

(** X8: a deeper call stack changes nothing: what a method yields with
    enough of it, it yields with any more. *)
Theorem deeper_stack_same_result e (fuel fuel' : nat) this params callback h :
  callable fuel this params h → (fuel ≤ fuel')%nat →
  method e fuel' this params callback h = method e fuel this params callback h.
Proof.
  intros Hcall Hle.
  destruct (decide (Forall (present h params) (requiredParams e))) as [Hreq|Hreq].
  - destruct (method_builds e fuel this params callback h Hcall Hreq)
      as (p & o & d & c & h' & (Hrun & _) & _).
    destruct Hcall as (Hc & Hv & Hthis & _).
    destruct (method_tail e this params callback h Hc Hv Hreq)
      as (h3 & o3 & (Hc3 & Hd3 & Hp3) & Ho3 & Ho3' & Htail).
    rewrite Hrun. rewrite Htail in Hrun. rewrite Htail.
    by apply (request_tail_fuel_le fuel); [apply Hd3|..].
  - destruct Hcall as (Hc & Hv & _).
    by rewrite !(method_rejects e _ this params callback h Hc Hv Hreq).
Qed.

Lemma deeper_stack_same_result_witness :
  callable 2 1 (VRef 4) example_store ∧ (2 ≤ 50)%nat ∧
  translate 50 1 (VRef 4) VUndefined example_store
  = translate 2 1 (VRef 4) VUndefined example_store.
Proof.
  assert (Hcall : callable 2 1 (VRef 4) example_store)
    by (apply example_callable; vm_compute; reflexivity).
  assert (Hle : (2 ≤ 50)%nat) by lia.
  split_and!; [exact Hcall|exact Hle|].
  exact (deeper_stack_same_result Translate 2 50 1 (VRef 4) VUndefined
           example_store Hcall Hle).
Defined.

(** ** The requests of the class *)

Lemma headers_of_names e k v : assoc k (headers_of e) = Some v → k ≠ "headers".
Proof.
  destruct e; simpl; repeat case_decide; intros ?; by simplify_eq.
Qed.

Lemma method_headers e fuel this params callback h p o d c h' :
  callable fuel this params h → Forall (present h params) (requiredParams e) →
  builds (method e fuel this params callback) h
    (handler_of e h params callback) p o d c h' →
  ∀ k v, assoc k (headers_of e) = Some v → get h' (VRef c) k = v.
Proof.
  intros (Hc & Hv & Hthis & Hfuel & Hn) Hreq
    (Hrun & _ & _ & _ & _ & _ & Hlp & Hgd) k v Hk.
  destruct (method_tail e this params callback h Hc Hv Hreq)
    as (h3 & o3 & He3 & Ho3 & Ho3' & Htail).
  rewrite Htail in Hrun.
  destruct (finish_spec fuel this (headers_of e) o3
              (handler_of e h params callback) h h3 Hc Hthis Hn Hfuel He3
              (headers_of_nonref e))
    as (p' & d' & c' & h'' & Hrun' & _ & _ & _ & _ & _ & _ & _ & Hlp' & Hgd' & Hgc).
  rewrite Hrun in Hrun'. injection Hrun' as <- <-.
  rewrite Hlp in Hlp'. injection Hlp' as -> <-.
  rewrite Hgd in Hgd'. injection Hgd' as <-.
  apply Hgc; [by apply (headers_of_names e k v)|done|].
  by apply (headers_of_defined e k).
Qed.

Lemma keys_lookup h l o : h !! l = Some o → keys h (VRef l) = (oprops o).*1.
Proof. intros Hl. unfold keys. simpl. by rewrite Hl. Qed.

(** X6: the request of each method: the options it sets and no others,
    the URL, the HTTP method, the [json] flag and the default headers of
    its endpoint. *)
Theorem endpoint_requests e fuel this params callback h :
  callable fuel this params h → Forall (present h params) (requiredParams e) →
  ∃ p o d c h',
    builds (method e fuel this params callback) h
      (handler_of e h params callback) p o d c h' ∧
    keys h' (VRef o) = option_names e ∧
    get h' (VRef o) "url" = VStr (url_of e) ∧
    get h' (VRef o) "method" = VStr (verb_of e) ∧
    get h' (VRef o) "json" = json_of e ∧
    ∀ k v, assoc k (headers_of e) = Some v → get h' (VRef c) k = v.
Proof.
  intros Hcall Hreq.
  assert (Hfin : ∀ p o d c h' ps,
    builds (method e fuel this params callback) h
      (handler_of e h params callback) p o d c h' →
    h' !! o = Some (Obj KPlain ps) →
    ps.*1 = option_names e →
    default VUndefined (assoc "url" ps) = VStr (url_of e) →
    default VUndefined (assoc "method" ps) = VStr (verb_of e) →
    default VUndefined (assoc "json" ps) = json_of e →
    ∃ p o d c h',
      builds (method e fuel this params callback) h
        (handler_of e h params callback) p o d c h' ∧
      keys h' (VRef o) = option_names e ∧
      get h' (VRef o) "url" = VStr (url_of e) ∧
      get h' (VRef o) "method" = VStr (verb_of e) ∧
      get h' (VRef o) "json" = json_of e ∧
      ∀ k v, assoc k (headers_of e) = Some v → get h' (VRef c) k = v).
  { intros p o d c h' ps Hb Ho Hk Hu Hm Hj. exists p, o, d, c, h'.
    rewrite (keys_lookup h' o _ Ho), !(get_lookup h' o _ _ Ho). simpl.
    split_and!; try done.
    by apply (method_headers e fuel this params callback h p o d c h'). }
  destruct e; simpl in *; try (apply Forall_cons in Hreq as [Hreq _]).
  - destruct (translate_spec fuel this params callback h Hcall Hreq)
      as (p & o & b & d & c & h' & Hb & Ho & _).
    by apply (Hfin p o d c h' _ Hb Ho).
  - destruct (identify_spec fuel this params callback h Hcall Hreq)
      as (p & o & d & c & h' & Hb & Ho & _).
    by apply (Hfin p o d c h' _ Hb Ho).
  - destruct (identifyPlain_spec fuel this params callback h Hcall Hreq)
      as (p & o & d & c & h' & Hb & Ho & _).
    by apply (Hfin p o d c h' _ Hb Ho).
  - destruct (listIdentifiableLanguages_spec fuel this params callback h Hcall)
      as (p & o & d & c & h' & Hb & Ho & _).
    by apply (Hfin p o d c h' _ Hb Ho).
  - destruct (createModel_spec fuel this params callback h Hcall Hreq)
      as (p & o & q & f & f1 & f2 & f3 & d & c & h' & Hb & Ho & _).
    by apply (Hfin p o d c h' _ Hb Ho).
  - destruct (deleteModel_spec fuel this params callback h Hcall Hreq)
      as (p & o & a & d & c & h' & Hb & Ho & _).
    by apply (Hfin p o d c h' _ Hb Ho).
  - destruct (getModel_spec fuel this params callback h Hcall Hreq)
      as (p & o & a & d & c & h' & Hb & Ho & _).
    by apply (Hfin p o d c h' _ Hb Ho).
  - destruct (listModels_spec fuel this params callback h Hcall)
      as (p & o & q & d & c & h' & Hb & Ho & _).
    by apply (Hfin p o d c h' _ Hb Ho).
Qed.

Lemma endpoint_requests_witness :
  callable 2 1 (VRef 8) example_store ∧
  Forall (present example_store (VRef 8)) (requiredParams CreateModel) ∧
  ∃ p o d c h',
    builds (createModel 2 1 (VRef 8) (VRef 6)) example_store
      (UserCallback (VRef 6)) p o d c h' ∧
    keys h' (VRef o) = ["url"; "method"; "qs"; "formData"] ∧
    get h' (VRef o) "url" = VStr "/v2/models" ∧
    get h' (VRef o) "method" = VStr "POST" ∧
    get h' (VRef o) "json" = VUndefined ∧
    get h' (VRef c) "Accept" = VStr "application/json" ∧
    get h' (VRef c) "Content-Type" = VStr "multipart/form-data".
Proof.
  assert (Hcall : callable 2 1 (VRef 8) example_store)
    by (apply example_callable; vm_compute; reflexivity).
  assert (Hreq : Forall (present example_store (VRef 8))
                   (requiredParams CreateModel)).
  { apply Forall_singleton. intros H. vm_compute in H. discriminate. }
  split_and!; [exact Hcall|exact Hreq|].
  destruct (endpoint_requests CreateModel 2 1 (VRef 8) (VRef 6) example_store
              Hcall Hreq)
    as (p & o & d & c & h' & Hb & Hk & Hu & Hm & Hj & Hh).
  exists p, o, d, c, h'. split_and!; [exact Hb|exact Hk|exact Hu|exact Hm|exact Hj|..].
  - by apply Hh.
  - by apply Hh.
Defined.

(** ** Calling conventions *)



(** X9: the callback-first form of the two methods without required
    parameters is the call with no parameters and that callback. *)
Theorem callback_first_form e fuel this fn callback h :
  closed h → requiredParams e = [] →
  isFunction h fn = true → truthy callback = false →
  method e fuel this fn callback h = method e fuel this VUndefined fn h.
Proof.
  intros Hc He Hfn Hcb.
  assert (Hv : valid h fn).
  { unfold isFunction in Hfn. apply bool_decide_eq_true in Hfn.
    destruct fn as [| | | | | |l]; try done. simpl in *. apply elem_of_dom.
    by destruct (h !! l). }
  assert (Hs1 : shifted h fn callback = true).
  { unfold shifted. by rewrite Hfn, Hcb. }
  assert (Hs2 : shifted h VUndefined fn = false) by done.
  assert (Hh : chosen_first h fn callback = chosen_first h VUndefined fn).
  { unfold chosen_first, chosen. rewrite Hs1, Hs2.
    by destruct fn. }
  assert (Hp : params_store h fn callback = params_store h VUndefined fn).
  { unfold params_store. by rewrite Hs1, Hs2. }
  destruct e; try discriminate He; simpl.
  - rewrite listIdentifiableLanguages_shape, !unchecked_run by done.
    by rewrite Hh, Hp.
  - rewrite listModels_shape, !unchecked_run by done.
    by rewrite Hh, Hp.
Qed.

Lemma callback_first_form_witness :
  closed example_store ∧ requiredParams ListModels = [] ∧
  isFunction example_store (VRef 6) = true ∧ truthy VUndefined = false ∧
  listModels 2 1 (VRef 6) VUndefined example_store
  = listModels 2 1 VUndefined (VRef 6) example_store.
Proof.
  assert (Hc : closed example_store).
  { apply (bool_decide_eq_true_1 (closed example_store)). vm_compute. reflexivity. }
  split_and!; [exact Hc|reflexivity|reflexivity|reflexivity|].
  exact (callback_first_form ListModels 2 1 (VRef 6) VUndefined example_store
           Hc eq_refl eq_refl eq_refl).
Defined.
